(** * The graph hierarchy of tf_graph_common/hierarchy.ts

    A shallow embedding of [hierarchy.ts] (the [Hierarchy] class with
    [getBridgegraph], [getChildName], [getPredecessors], [getSuccessors],
    [getOneWayEdges] and [getTopologicalOrdering], and the functions
    [findEdgeTargetsInGraph], [build], [joinAndAggregateStats],
    [getIncompatibleOps], [addNodes], [addEdges], [groupSeries],
    [clusterNodes], [detectSeriesUsingNumericSuffixes],
    [detectSeriesAnywhereInNodeName] and [addSeriesToDict]), followed by the
    properties of these functions.

    Representation.  The TypeScript code works on mutable objects that point
    at each other ([parentNode], the labels of a metagraph, the values of
    [Hierarchy.index]).  Here the nodes live in one arena, the [index] of the
    hierarchy, and every reference to a node is the name under which the
    arena holds it.  This is exact as long as a name denotes one node object,
    which is the invariant of the hierarchy ("a name maps to at most one
    node").  The two kinds of objects whose identity is observable through
    the query interface, bridge graphs and orderings, live in stores of their
    own and are referred to by location. *)

From Stdlib Require Import String Ascii ZArith NArith Lia.
From stdpp Require Import base option list gmap strings gmultiset relations pretty.

(** ** Outcomes of a call

    A call returns a value, throws, or does not come back (a loop that was
    given too little fuel).  The state after a throw is kept: the mutations
    made before the throw stay visible, as in JavaScript. *)

Inductive JsError :=
  | Error (msg : string)      (* [throw Error(msg)] *)
  | TypeError.                (* property access on [undefined] *)

Inductive Outcome (A : Type) :=
  | Returned (a : A)
  | Thrown (e : JsError)
  | OutOfFuel.
Arguments Returned {A} a.
Arguments Thrown {A} e.
Arguments OutOfFuel {A}.

(** State and exception monad over a state [S]. *)
Definition M (S A : Type) : Type := S -> Outcome A * S.

Definition ret {S A} (a : A) : M S A := fun s => (Returned a, s).
Definition throw {S A} (e : JsError) : M S A := fun s => (Thrown e, s).
Definition diverge {S A} : M S A := fun s => (OutOfFuel, s).
Definition bind {S A B} (m : M S A) (k : A -> M S B) : M S B :=
  fun s => match m s with
           | (Returned a, s') => k a s'
           | (Thrown e, s') => (Thrown e, s')
           | (OutOfFuel, s') => (OutOfFuel, s')
           end.
Definition get {S} : M S S := fun s => (Returned s, s).
Definition put {S} (s : S) : M S unit := fun _ => (Returned tt, s).
Definition modify {S} (f : S -> S) : M S unit := fun s => (Returned tt, f s).

Declare Scope js_scope.
Delimit Scope js_scope with js.
Notation "'let!' x ':=' m 'in' k" := (bind m (fun x => k))
  (at level 10, x name, m at level 100, k at level 200) : js_scope.
Notation "'do!' m 'in' k" := (bind m (fun _ => k))
  (at level 10, m at level 100, k at level 200) : js_scope.
Open Scope js_scope.

(** [_.each(xs, f)] and [xs.forEach(f)] over an array whose elements were
    read when the loop started.  None of the callbacks of hierarchy.ts
    returns [false], so lodash never leaves the loop early. *)
Fixpoint each {S A} (xs : list A) (f : A -> M S unit) : M S unit :=
  match xs with
  | [] => ret tt
  | x :: xs' => bind (f x) (fun _ => each xs' f)
  end.

(** ** JavaScript strings and object keys *)

Definition is_digit (c : ascii) : bool :=
  let n := nat_of_ascii c in (48 <=? n) && (n <=? 57).

Fixpoint all_digits (s : string) : bool :=
  match s with
  | EmptyString => true
  | String c s' => is_digit c && all_digits s'
  end.

Fixpoint no_digit (s : string) : bool :=
  match s with
  | EmptyString => true
  | String c s' => negb (is_digit c) && no_digit s'
  end.

Fixpoint digits_value (acc : N) (s : string) : N :=
  match s with
  | EmptyString => acc
  | String c s' => digits_value (10 * acc + (N_of_ascii c - 48))%N s'
  end.

(** [+id] for a string of decimal digits (exact below 2^53, where a
    JavaScript number still holds every integer). *)
Definition to_number (s : string) : N := digits_value 0%N s.

(** A canonical array index: the decimal spelling, without leading zero, of
    an integer below 2^32 - 1. *)
Definition is_array_index (s : string) : bool :=
  match s with
  | EmptyString => false
  | String c s' =>
      all_digits s
      && (negb (Ascii.eqb c "0") || String.eqb s' "")
      && (to_number s <? 4294967295)%N
  end.

Fixpoint insert_index (k : string) (ks : list string) : list string :=
  match ks with
  | [] => [k]
  | k' :: ks' =>
      if (to_number k <=? to_number k')%N then k :: ks
      else k' :: insert_index k ks'
  end.

Definition sort_indices (ks : list string) : list string :=
  foldr insert_index [] ks.

(** The order in which JavaScript enumerates the own keys of an object
    ([_.keys], [_.each] over an object, [for in]): array indices first, in
    ascending order, then the other keys in the order of their insertion.
    The argument is the list of keys in insertion order. *)
Definition own_keys (ks : list string) : list string :=
  sort_indices (List.filter is_array_index ks)
  ++ List.filter (fun k => negb (is_array_index k)) ks.

(** A JavaScript object used as a dictionary whose enumeration order is
    observed: the entries in insertion order, each key once. *)
Definition JsObject (V : Type) : Type := list (string * V).

Section JsObject.
Context {V : Type}.

Fixpoint obj_get (o : JsObject V) (k : string) : option V :=
  match o with
  | [] => None
  | (k', x) :: o' => if String.eqb k' k then Some x else obj_get o' k
  end.

Definition obj_has (k : string) (o : JsObject V) : bool :=
  match obj_get o k with Some _ => true | None => false end.

(** [o[k] = x]: an existing key keeps its place. *)
Fixpoint obj_set (k : string) (x : V) (o : JsObject V) : JsObject V :=
  match o with
  | [] => [(k, x)]
  | (k', y) :: o' =>
      if String.eqb k' k then (k, x) :: o' else (k', y) :: obj_set k x o'
  end.

(** [delete o[k]] *)
Fixpoint obj_delete (k : string) (o : JsObject V) : JsObject V :=
  match o with
  | [] => []
  | (k', y) :: o' =>
      if String.eqb k' k then obj_delete k o' else (k', y) :: obj_delete k o'
  end.

Definition obj_keys (o : JsObject V) : list string := own_keys (map fst o).

(** The (key, value) pairs in enumeration order, as [_.each(o, f)] visits
    them. *)
Definition obj_entries (o : JsObject V) : list (string * V) :=
  omap (fun k => match obj_get o k with
                 | Some x => Some (k, x)
                 | None => None
                 end) (obj_keys o).
End JsObject.

(** [_.difference(xs, ys)]: the elements of [xs] that are not in [ys], in the
    order of [xs]. *)
Definition difference (xs ys : list string) : list string :=
  List.filter (fun x => negb (existsb (String.eqb x) ys)) xs.

(** [s.split('/')] *)
Fixpoint split_slash (s : string) : list string :=
  match s with
  | EmptyString => [EmptyString]
  | String c s' =>
      if Ascii.eqb c "/" then EmptyString :: split_slash s'
      else match split_slash s' with
           | [] => [String c EmptyString]
           | x :: xs => String c x :: xs
           end
  end.

(** [xs.join('/')] *)
Fixpoint join_slash (xs : list string) : string :=
  match xs with
  | [] => EmptyString
  | [x] => x
  | x :: xs' => x +:+ "/" +:+ join_slash xs'
  end.

Fixpoint string_rev_onto (acc s : string) : string :=
  match s with
  | EmptyString => acc
  | String c s' => string_rev_onto (String c acc) s'
  end.
Definition string_rev (s : string) : string := string_rev_onto EmptyString s.

(** The longest prefix of digits of [s], and the rest. *)
Fixpoint span_digits (s : string) : string * string :=
  match s with
  | EmptyString => (EmptyString, EmptyString)
  | String c s' =>
      if is_digit c then let (d, r) := span_digits s' in (String c d, r)
      else (EmptyString, s)
  end.

(** [leaf.match(re)] for the regular expression [re] of
    [detectSeriesUsingNumericSuffixes]: anchored at both ends, a first group
    of non-digits (backslash-D, starred), an underscore, a second group of
    one or more digits (backslash-d, plus).  The result holds the two groups.
    The digits of the second group run to the end of the string and are
    preceded by an underscore, so they are the longest run of digits at the
    end; the first group is what stands before that underscore and must hold
    no digit. *)
Definition match_numeric_suffix (leaf : string) : option (string * string) :=
  let (rdigits, rrest) := span_digits (string_rev leaf) in
  match rdigits, rrest with
  | String _ _, String c rprefix =>
      if Ascii.eqb c "_" && no_digit rprefix
      then Some (string_rev rprefix, string_rev rdigits)
      else None
  | _, _ => None
  end.

(** [name.charAt(name.length - 1) === '*'] *)
Fixpoint ends_with_star (s : string) : bool :=
  match s with
  | EmptyString => false
  | String c EmptyString => Ascii.eqb c "*"
  | String _ s' => ends_with_star s'
  end.

(** [leaf.substr(0, leaf.length - 1)] *)
Fixpoint drop_last_char (s : string) : string :=
  match s with
  | EmptyString => EmptyString
  | String _ EmptyString => EmptyString
  | String c s' => String c (drop_last_char s')
  end.

(** [leaf] and [parent] of a node name, as both series detectors compute
    them: the last segment of [name.split('/')], and the other segments
    joined again. *)
Definition leaf_of (name : string) : string :=
  List.last (split_slash name) EmptyString.
Definition parent_of (name : string) : string :=
  join_slash (removelast (split_slash name)).

(** ** Data model *)

(** Modelled from the spec: the enumeration [NodeType] of graph.ts, which is
    not among the sources; hierarchy.ts tests [type] against [META] and
    [OP], and the spec names the three variants of a node. *)
Inductive NodeType := META | OP | SERIES.

#[global] Instance NodeType_eq_dec : EqDecision NodeType.
Proof. solve_decision. Defined.

(** Modelled from the spec: [SeriesGroupingType] of graph.ts, the override
    that the caller's series map holds for a series. *)
Inductive SeriesGroupingType := GROUP | UNGROUP.

#[global] Instance SeriesGroupingType_eq_dec : EqDecision SeriesGroupingType.
Proof. solve_decision. Defined.

(** Modelled from the spec: the name of the root, "reserved as a sentinel"
    ([ROOT_NAME] of graph.ts). *)
Definition ROOT_NAME : string := "__root__".

(** Modelled from the spec: [NodeStats] of common.ts, "aggregated performance
    numbers" whose combination is "an associative, commutative merge".  The
    numbers that were merged are kept as a multiset. *)
Definition NodeStats : Type := gmultiset N.
Definition new_NodeStats : NodeStats := ∅.
Definition combine (a b : NodeStats) : NodeStats := a ⊎ b.

(** A histogram [{[key: string]: number}]; only single keys are read. *)
Abbreviation Histogram := (gmap string nat).

(** [hist[k] = (hist[k] || 0) + 1] *)
Definition increment (k : string) (hist : Histogram) : Histogram :=
  <[k := default 0 (hist !! k) + 1]> hist.

(** A raw edge of the flat graph: [v] is its source and [w] its target. *)
Record BaseEdge := mkBaseEdge {
  edge_v : string;
  edge_w : string;
  isControlDependency : bool;
  isReferenceEdge : bool;
  outputTensorKey : string;
}.

(** Modelled from the spec: a [Metaedge] holds "an ordered list of the
    BaseEdges it summarizes, a derived numRegularEdges count (non-control), a
    maximum-size statistic" and, in a bridge graph, "an inbound flag"
    ([MetaedgeImpl] of graph.ts). *)
Record Metaedge := mkMetaedge {
  metaedge_v : string;
  metaedge_w : string;
  baseEdgeList : list BaseEdge;
  inbound : option bool;
  numRegularEdges : nat;
  totalSize : nat;
}.

(** Modelled from the spec: [createMetaedge(v, w)] of graph.ts, a fresh
    Metaedge that summarizes no edge yet. *)
Definition createMetaedge (v w : string) : Metaedge :=
  {| metaedge_v := v; metaedge_w := w; baseEdgeList := []; inbound := None;
     numRegularEdges := 0; totalSize := 0 |}.

Definition set_inbound (b : bool) (me : Metaedge) : Metaedge :=
  {| metaedge_v := metaedge_v me; metaedge_w := metaedge_w me;
     baseEdgeList := baseEdgeList me; inbound := Some b;
     numRegularEdges := numRegularEdges me; totalSize := totalSize me |}.

(** *** graphlib.Graph

    The part of dagre's [graphlib.Graph] that hierarchy.ts uses.  The label
    of a node of a metagraph is the node object of that name, so a graph
    keeps the names only; the label of an edge is its Metaedge.  Both
    collections are kept in insertion order. *)
Record Graph := mkGraph {
  graph_nodes : list string;
  graph_edges : list (string * string * Metaedge);
}.

(** [createGraph(name, type, options)] *)
Definition createGraph : Graph := {| graph_nodes := []; graph_edges := [] |}.

(** [g.nodes()] *)
Definition nodes (g : Graph) : list string := own_keys (graph_nodes g).

(** [g.hasNode(n)] *)
Definition hasNode (g : Graph) (n : string) : bool :=
  existsb (String.eqb n) (graph_nodes g).

(** [g.setNode(n, label)] *)
Definition setNode (n : string) (g : Graph) : Graph :=
  if hasNode g n then g
  else {| graph_nodes := graph_nodes g ++ [n]; graph_edges := graph_edges g |}.

Definition edge_touches (n : string) (e : string * string * Metaedge) : bool :=
  String.eqb (e.1.1) n || String.eqb (e.1.2) n.

(** [g.removeNode(n)], which also removes the edges at [n]. *)
Definition removeNode (n : string) (g : Graph) : Graph :=
  {| graph_nodes := List.filter (fun k => negb (String.eqb k n)) (graph_nodes g);
     graph_edges := List.filter (fun e => negb (edge_touches n e)) (graph_edges g) |}.

(** [g.edges()]: the edge objects [{v, w}] in insertion order (the keys of
    graphlib's edge table contain control characters and are never array
    indices). *)
Definition edges (g : Graph) : list (string * string) :=
  map fst (graph_edges g).

(** [g.edge(v, w)], and [g.edge({v, w})] *)
Fixpoint find_edge (es : list (string * string * Metaedge)) (v w : string)
  : option Metaedge :=
  match es with
  | [] => None
  | (v', w', me) :: es' =>
      if String.eqb v' v && String.eqb w' w then Some me else find_edge es' v w
  end.
Definition edge (g : Graph) (v w : string) : option Metaedge :=
  find_edge (graph_edges g) v w.

Fixpoint put_edge (v w : string) (me : Metaedge)
  (es : list (string * string * Metaedge)) : list (string * string * Metaedge) :=
  match es with
  | [] => [(v, w, me)]
  | (v', w', me') :: es' =>
      if String.eqb v' v && String.eqb w' w then (v, w, me) :: es'
      else (v', w', me') :: put_edge v w me es'
  end.

(** [g.setEdge(v, w, label)]; graphlib adds the two end nodes when the graph
    does not have them.  Also used for the in-place mutation of the label of
    an existing edge. *)
Definition setEdge (v w : string) (me : Metaedge) (g : Graph) : Graph :=
  let g' := setNode w (setNode v g) in
  {| graph_nodes := graph_nodes g'; graph_edges := put_edge v w me (graph_edges g) |}.

(** *** Nodes *)

(** The numbers that identify the members of a series: natural numbers, and
    NaN, which [+clusterId] gives for the key of a cluster that is no
    numeral. *)
Inductive JsNumber := NaN | Num (n : N).

(** [a === b + 1] *)
Definition is_next (a b : JsNumber) : bool :=
  match a, b with
  | Num x, Num y => (x =? y + 1)%N
  | _, _ => false
  end.

(** [+a - +b <= 0], for the comparator of the two sorts by [clusterId]. *)
Definition number_le (a b : JsNumber) : bool :=
  match a, b with
  | Num x, Num y => (x <=? y)%N
  | _, _ => true
  end.

(** A leaf; an embedding is an [OpNode] too, and [inEmbeddings] and
    [outEmbeddings] are arrays of such nodes.  Only [addNodes] writes to an
    embedding (its [parentNode]), and what it writes is read through the
    index alone, so the arrays hold the embeddings as [addNodes] found
    them. *)
#[local] Unset Elimination Schemes.
Inductive OpNode := mkOpNode {
  op_name : string;
  op_parentNode : option string;
  op_stats : option NodeStats;
  op_cardinality : nat;
  op : string;
  device : option string;
  xlaCluster : option string;
  compatible : bool;
  inEmbeddings : list OpNode;
  outEmbeddings : list OpNode;
  owningSeries : option string;
}.
#[local] Set Elimination Schemes.

(** A [GroupNode]: a [Metanode] ([type = META]) or a [SeriesNode]
    ([type = SERIES]).  [depth], [opHistogram] and [associatedFunction] are
    the fields of a Metanode only, [prefix] to [ids] those of a SeriesNode
    only.  [bridgegraph] is the location of the bridge graph once it exists.
    [clusterId] is [None] when the number is NaN. *)
Record GroupNode := mkGroupNode {
  name : string;
  type : NodeType;
  parentNode : option string;
  stats : option NodeStats;
  cardinality : nat;
  metagraph : Graph;
  bridgegraph : option nat;
  deviceHistogram : Histogram;
  xlaClusterHistogram : Histogram;
  compatibilityHistogram : nat * nat;
  hasNonControlEdges : bool;
  depth : nat;
  opHistogram : Histogram;
  associatedFunction : option string;
  prefix : string;
  suffix : string;
  parent : string;
  clusterId : JsNumber;
  ids : list JsNumber;
}.

Inductive Node :=
  | Op (o : OpNode)
  | Group (g : GroupNode).

Definition node_name (n : Node) : string :=
  match n with Op o => op_name o | Group g => name g end.
Definition node_type (n : Node) : NodeType :=
  match n with Op _ => OP | Group g => type g end.
Definition node_parentNode (n : Node) : option string :=
  match n with Op o => op_parentNode o | Group g => parentNode g end.
Definition node_stats (n : Node) : option NodeStats :=
  match n with Op o => op_stats o | Group g => stats g end.
(** [node.isGroupNode], and ['metagraph' in node] *)
Definition isGroupNode (n : Node) : bool :=
  match n with Op _ => false | Group _ => true end.

Definition set_op_parentNode (p : option string) (o : OpNode) : OpNode :=
  {| op_name := op_name o; op_parentNode := p; op_stats := op_stats o;
     op_cardinality := op_cardinality o; op := op o; device := device o;
     xlaCluster := xlaCluster o; compatible := compatible o;
     inEmbeddings := inEmbeddings o; outEmbeddings := outEmbeddings o;
     owningSeries := owningSeries o |}.

Definition set_op_stats (s : option NodeStats) (o : OpNode) : OpNode :=
  {| op_name := op_name o; op_parentNode := op_parentNode o; op_stats := s;
     op_cardinality := op_cardinality o; op := op o; device := device o;
     xlaCluster := xlaCluster o; compatible := compatible o;
     inEmbeddings := inEmbeddings o; outEmbeddings := outEmbeddings o;
     owningSeries := owningSeries o |}.

Definition set_owningSeries (s : option string) (o : OpNode) : OpNode :=
  {| op_name := op_name o; op_parentNode := op_parentNode o;
     op_stats := op_stats o; op_cardinality := op_cardinality o; op := op o;
     device := device o; xlaCluster := xlaCluster o;
     compatible := compatible o; inEmbeddings := inEmbeddings o;
     outEmbeddings := outEmbeddings o; owningSeries := s |}.

Definition set_parentNode (p : option string) (g : GroupNode) : GroupNode :=
  {| name := name g; type := type g; parentNode := p; stats := stats g;
     cardinality := cardinality g; metagraph := metagraph g;
     bridgegraph := bridgegraph g; deviceHistogram := deviceHistogram g;
     xlaClusterHistogram := xlaClusterHistogram g;
     compatibilityHistogram := compatibilityHistogram g;
     hasNonControlEdges := hasNonControlEdges g; depth := depth g;
     opHistogram := opHistogram g; associatedFunction := associatedFunction g;
     prefix := prefix g; suffix := suffix g; parent := parent g;
     clusterId := clusterId g; ids := ids g |}.

Definition set_stats (s : option NodeStats) (g : GroupNode) : GroupNode :=
  {| name := name g; type := type g; parentNode := parentNode g; stats := s;
     cardinality := cardinality g; metagraph := metagraph g;
     bridgegraph := bridgegraph g; deviceHistogram := deviceHistogram g;
     xlaClusterHistogram := xlaClusterHistogram g;
     compatibilityHistogram := compatibilityHistogram g;
     hasNonControlEdges := hasNonControlEdges g; depth := depth g;
     opHistogram := opHistogram g; associatedFunction := associatedFunction g;
     prefix := prefix g; suffix := suffix g; parent := parent g;
     clusterId := clusterId g; ids := ids g |}.

Definition set_cardinality (c : nat) (g : GroupNode) : GroupNode :=
  {| name := name g; type := type g; parentNode := parentNode g;
     stats := stats g; cardinality := c; metagraph := metagraph g;
     bridgegraph := bridgegraph g; deviceHistogram := deviceHistogram g;
     xlaClusterHistogram := xlaClusterHistogram g;
     compatibilityHistogram := compatibilityHistogram g;
     hasNonControlEdges := hasNonControlEdges g; depth := depth g;
     opHistogram := opHistogram g; associatedFunction := associatedFunction g;
     prefix := prefix g; suffix := suffix g; parent := parent g;
     clusterId := clusterId g; ids := ids g |}.

Definition set_metagraph (m : Graph) (g : GroupNode) : GroupNode :=
  {| name := name g; type := type g; parentNode := parentNode g;
     stats := stats g; cardinality := cardinality g; metagraph := m;
     bridgegraph := bridgegraph g; deviceHistogram := deviceHistogram g;
     xlaClusterHistogram := xlaClusterHistogram g;
     compatibilityHistogram := compatibilityHistogram g;
     hasNonControlEdges := hasNonControlEdges g; depth := depth g;
     opHistogram := opHistogram g; associatedFunction := associatedFunction g;
     prefix := prefix g; suffix := suffix g; parent := parent g;
     clusterId := clusterId g; ids := ids g |}.

Definition set_bridgegraph (b : option nat) (g : GroupNode) : GroupNode :=
  {| name := name g; type := type g; parentNode := parentNode g;
     stats := stats g; cardinality := cardinality g; metagraph := metagraph g;
     bridgegraph := b; deviceHistogram := deviceHistogram g;
     xlaClusterHistogram := xlaClusterHistogram g;
     compatibilityHistogram := compatibilityHistogram g;
     hasNonControlEdges := hasNonControlEdges g; depth := depth g;
     opHistogram := opHistogram g; associatedFunction := associatedFunction g;
     prefix := prefix g; suffix := suffix g; parent := parent g;
     clusterId := clusterId g; ids := ids g |}.

Definition set_deviceHistogram (d : Histogram) (g : GroupNode) : GroupNode :=
  {| name := name g; type := type g; parentNode := parentNode g;
     stats := stats g; cardinality := cardinality g; metagraph := metagraph g;
     bridgegraph := bridgegraph g; deviceHistogram := d;
     xlaClusterHistogram := xlaClusterHistogram g;
     compatibilityHistogram := compatibilityHistogram g;
     hasNonControlEdges := hasNonControlEdges g; depth := depth g;
     opHistogram := opHistogram g; associatedFunction := associatedFunction g;
     prefix := prefix g; suffix := suffix g; parent := parent g;
     clusterId := clusterId g; ids := ids g |}.

Definition set_xlaClusterHistogram (x : Histogram) (g : GroupNode) : GroupNode :=
  {| name := name g; type := type g; parentNode := parentNode g;
     stats := stats g; cardinality := cardinality g; metagraph := metagraph g;
     bridgegraph := bridgegraph g; deviceHistogram := deviceHistogram g;
     xlaClusterHistogram := x;
     compatibilityHistogram := compatibilityHistogram g;
     hasNonControlEdges := hasNonControlEdges g; depth := depth g;
     opHistogram := opHistogram g; associatedFunction := associatedFunction g;
     prefix := prefix g; suffix := suffix g; parent := parent g;
     clusterId := clusterId g; ids := ids g |}.

Definition set_compatibilityHistogram (c : nat * nat) (g : GroupNode)
  : GroupNode :=
  {| name := name g; type := type g; parentNode := parentNode g;
     stats := stats g; cardinality := cardinality g; metagraph := metagraph g;
     bridgegraph := bridgegraph g; deviceHistogram := deviceHistogram g;
     xlaClusterHistogram := xlaClusterHistogram g;
     compatibilityHistogram := c;
     hasNonControlEdges := hasNonControlEdges g; depth := depth g;
     opHistogram := opHistogram g; associatedFunction := associatedFunction g;
     prefix := prefix g; suffix := suffix g; parent := parent g;
     clusterId := clusterId g; ids := ids g |}.

Definition set_hasNonControlEdges (b : bool) (g : GroupNode) : GroupNode :=
  {| name := name g; type := type g; parentNode := parentNode g;
     stats := stats g; cardinality := cardinality g; metagraph := metagraph g;
     bridgegraph := bridgegraph g; deviceHistogram := deviceHistogram g;
     xlaClusterHistogram := xlaClusterHistogram g;
     compatibilityHistogram := compatibilityHistogram g;
     hasNonControlEdges := b; depth := depth g;
     opHistogram := opHistogram g; associatedFunction := associatedFunction g;
     prefix := prefix g; suffix := suffix g; parent := parent g;
     clusterId := clusterId g; ids := ids g |}.

Definition set_depth (d : nat) (g : GroupNode) : GroupNode :=
  {| name := name g; type := type g; parentNode := parentNode g;
     stats := stats g; cardinality := cardinality g; metagraph := metagraph g;
     bridgegraph := bridgegraph g; deviceHistogram := deviceHistogram g;
     xlaClusterHistogram := xlaClusterHistogram g;
     compatibilityHistogram := compatibilityHistogram g;
     hasNonControlEdges := hasNonControlEdges g; depth := d;
     opHistogram := opHistogram g; associatedFunction := associatedFunction g;
     prefix := prefix g; suffix := suffix g; parent := parent g;
     clusterId := clusterId g; ids := ids g |}.

Definition set_opHistogram (o : Histogram) (g : GroupNode) : GroupNode :=
  {| name := name g; type := type g; parentNode := parentNode g;
     stats := stats g; cardinality := cardinality g; metagraph := metagraph g;
     bridgegraph := bridgegraph g; deviceHistogram := deviceHistogram g;
     xlaClusterHistogram := xlaClusterHistogram g;
     compatibilityHistogram := compatibilityHistogram g;
     hasNonControlEdges := hasNonControlEdges g; depth := depth g;
     opHistogram := o; associatedFunction := associatedFunction g;
     prefix := prefix g; suffix := suffix g; parent := parent g;
     clusterId := clusterId g; ids := ids g |}.

Definition set_associatedFunction (f : option string) (g : GroupNode)
  : GroupNode :=
  {| name := name g; type := type g; parentNode := parentNode g;
     stats := stats g; cardinality := cardinality g; metagraph := metagraph g;
     bridgegraph := bridgegraph g; deviceHistogram := deviceHistogram g;
     xlaClusterHistogram := xlaClusterHistogram g;
     compatibilityHistogram := compatibilityHistogram g;
     hasNonControlEdges := hasNonControlEdges g; depth := depth g;
     opHistogram := opHistogram g; associatedFunction := f;
     prefix := prefix g; suffix := suffix g; parent := parent g;
     clusterId := clusterId g; ids := ids g |}.

Definition set_ids (l : list JsNumber) (g : GroupNode) : GroupNode :=
  {| name := name g; type := type g; parentNode := parentNode g;
     stats := stats g; cardinality := cardinality g; metagraph := metagraph g;
     bridgegraph := bridgegraph g; deviceHistogram := deviceHistogram g;
     xlaClusterHistogram := xlaClusterHistogram g;
     compatibilityHistogram := compatibilityHistogram g;
     hasNonControlEdges := hasNonControlEdges g; depth := depth g;
     opHistogram := opHistogram g; associatedFunction := associatedFunction g;
     prefix := prefix g; suffix := suffix g; parent := parent g;
     clusterId := clusterId g; ids := l |}.

(** Modelled from the spec: [createMetanode(name, options)] of graph.ts, an
    empty container that has no parent yet. *)
Definition createMetanode (n : string) : GroupNode :=
  {| name := n; type := META; parentNode := None; stats := None;
     cardinality := 0; metagraph := createGraph; bridgegraph := None;
     deviceHistogram := ∅; xlaClusterHistogram := ∅;
     compatibilityHistogram := (0, 0); hasNonControlEdges := false;
     depth := 1; opHistogram := ∅; associatedFunction := None;
     prefix := ""; suffix := ""; parent := ""; clusterId := NaN;
     ids := [] |}.

(** Modelled from the spec: [createSeriesNode(prefix, suffix, parent,
    clusterId, name, options)] of graph.ts, an empty series container with
    the given "prefix, suffix, parent-path, clusterId" and no ids yet. *)
Definition createSeriesNode (pre suf par : string) (cid : JsNumber)
  (n : string) : GroupNode :=
  {| name := n; type := SERIES; parentNode := None; stats := None;
     cardinality := 0; metagraph := createGraph; bridgegraph := None;
     deviceHistogram := ∅; xlaClusterHistogram := ∅;
     compatibilityHistogram := (0, 0); hasNonControlEdges := false;
     depth := 0; opHistogram := ∅; associatedFunction := None;
     prefix := pre; suffix := suf; parent := par; clusterId := cid;
     ids := [] |}.

(** *** The hierarchy

    [index] is the arena of the nodes; the root Metanode is its entry
    [ROOT_NAME].  [libraryFunctions] maps the name of a function to the name
    of the Metanode that defines it and the names of the leaves that call
    it.  [orderings] maps the name of a container to the location
    of its memoized ordering in [ordering_store]; [graph_store] holds the
    bridge graphs. *)
Record Hierarchy := mkHierarchy {
  index : gmap string Node;
  libraryFunctions : JsObject (string * list string);
  devices : option (list string);
  xlaClusters : option (list string);
  maxMetaEdgeSize : nat;
  orderings : gmap string nat;
  ordering_store : gmap nat (gmap string nat);
  graph_store : gmap nat Graph;
}.

Definition set_index (i : gmap string Node) (h : Hierarchy) : Hierarchy :=
  {| index := i; libraryFunctions := libraryFunctions h;
     devices := devices h; xlaClusters := xlaClusters h;
     maxMetaEdgeSize := maxMetaEdgeSize h; orderings := orderings h;
     ordering_store := ordering_store h; graph_store := graph_store h |}.

Definition set_libraryFunctions (l : JsObject (string * list string))
  (h : Hierarchy) : Hierarchy :=
  {| index := index h; libraryFunctions := l; devices := devices h;
     xlaClusters := xlaClusters h; maxMetaEdgeSize := maxMetaEdgeSize h;
     orderings := orderings h; ordering_store := ordering_store h;
     graph_store := graph_store h |}.

Definition set_devices (d x : option (list string)) (h : Hierarchy)
  : Hierarchy :=
  {| index := index h; libraryFunctions := libraryFunctions h;
     devices := d; xlaClusters := x;
     maxMetaEdgeSize := maxMetaEdgeSize h; orderings := orderings h;
     ordering_store := ordering_store h; graph_store := graph_store h |}.

Definition set_maxMetaEdgeSize (n : nat) (h : Hierarchy) : Hierarchy :=
  {| index := index h; libraryFunctions := libraryFunctions h;
     devices := devices h; xlaClusters := xlaClusters h;
     maxMetaEdgeSize := n; orderings := orderings h;
     ordering_store := ordering_store h; graph_store := graph_store h |}.

Definition set_ordering (n : string) (l : nat) (o : gmap string nat)
  (h : Hierarchy) : Hierarchy :=
  {| index := index h; libraryFunctions := libraryFunctions h;
     devices := devices h; xlaClusters := xlaClusters h;
     maxMetaEdgeSize := maxMetaEdgeSize h; orderings := <[n := l]> (orderings h);
     ordering_store := <[l := o]> (ordering_store h);
     graph_store := graph_store h |}.

Definition set_graph (l : nat) (g : Graph) (h : Hierarchy) : Hierarchy :=
  {| index := index h; libraryFunctions := libraryFunctions h;
     devices := devices h; xlaClusters := xlaClusters h;
     maxMetaEdgeSize := maxMetaEdgeSize h; orderings := orderings h;
     ordering_store := ordering_store h;
     graph_store := <[l := g]> (graph_store h) |}.

(** [new Hierarchy(params)] *)
Definition new_Hierarchy : Hierarchy :=
  {| index := {[ ROOT_NAME := Group (createMetanode ROOT_NAME) ]};
     libraryFunctions := []; devices := None; xlaClusters := None;
     maxMetaEdgeSize := 1;
     orderings := ∅; ordering_store := ∅; graph_store := ∅ |}.

(** [h.node(name)], and the node object behind a reference. *)
Definition node (h : Hierarchy) (n : string) : option Node := index h !! n.

(** [h.setNode(name, node)] *)
Definition hierarchy_setNode (n : string) (x : Node) (h : Hierarchy)
  : Hierarchy := set_index (<[n := x]> (index h)) h.

(** [x.parentNode] as an object; a reference that the arena does not hold
    reads as [undefined]. *)
Definition parentNode_of (h : Hierarchy) (x : Node) : option Node :=
  match node_parentNode x with
  | Some p => node h p
  | None => None
  end.

(** In-place mutation of the group node held under [n]. *)
Definition update_group (n : string) (f : GroupNode -> GroupNode)
  (h : Hierarchy) : Hierarchy :=
  set_index (alter (fun x => match x with
                             | Group g => Group (f g)
                             | Op o => Op o
                             end) n (index h)) h.

(** In-place mutation of the leaf held under [n]. *)
Definition update_op (n : string) (f : OpNode -> OpNode) (h : Hierarchy)
  : Hierarchy :=
  set_index (alter (fun x => match x with
                             | Op o => Op (f o)
                             | Group g => Group g
                             end) n (index h)) h.

(** *** Instances for the examples

    The examples that close the development run the functions on concrete
    graphs.  They use these values for the functions of graph.ts that the
    development leaves open; the name of a series follows the pattern
    [parent/prefix[first-last]suffix]. *)
Definition example_size : BaseEdge -> nat := fun _ => 1.

Definition show_number (x : JsNumber) : string :=
  match x with
  | Num n => pretty n
  | NaN => "NaN"
  end.

Definition example_seriesName (pre suf par : string)
  (range : option (JsNumber * JsNumber)) : string :=
  (if String.eqb par "" then "" else par +:+ "/")
  +:+ pre
  +:+ match range with
      | Some (a, b) => "[" +:+ show_number a +:+ "-" +:+ show_number b +:+ "]"
      | None => "#"
      end
  +:+ suf.

Definition example_number : string -> JsNumber := fun _ => NaN.

Definition example_prefix : string := "__function_library__".

(** A leaf that has nothing but a name and an [op]. *)
Definition plain_leaf (n o : string) : OpNode :=
  {| op_name := n; op_parentNode := None; op_stats := None;
     op_cardinality := 1; op := o; device := None; xlaCluster := None;
     compatible := true; inEmbeddings := []; outEmbeddings := [];
     owningSeries := None |}.

(** A regular edge. *)
Definition data_edge (v w : string) : BaseEdge :=
  {| edge_v := v; edge_w := w; isControlDependency := false;
     isReferenceEdge := false; outputTensorKey := "0" |}.

(** ** The functions of hierarchy.ts

    Three functions of graph.ts that hierarchy.ts calls are not among the
    sources and the spec does not fix their results; they are parameters of
    the development. *)
Section Hierarchy_ts.

(** [MetaedgeImpl.computeSizeOfEdge(edge, h)]: the size of the tensor that an
    edge carries, which the shape attributes of its source node fix. *)
Variable computeSizeOfEdge : BaseEdge -> nat.

(** [getSeriesNodeName(prefix, suffix, parent, startId?, endId?)] *)
Variable getSeriesNodeName :
  string -> string -> string -> option (JsNumber * JsNumber) -> string.

(** [+clusterId] for the key of a cluster, which is the name of an
    operation. *)
Variable cluster_number : string -> JsNumber.

(** Modelled from the spec: [MetaedgeImpl.addBaseEdge(edge, h)] of graph.ts.
    The edge joins the "ordered list of the BaseEdges" of the Metaedge,
    [numRegularEdges] counts the edges that are no control dependencies, and
    the hierarchy keeps the maximum of the sizes of its Metaedges. *)
Definition addBaseEdge (e : BaseEdge) (me : Metaedge) : M Hierarchy Metaedge :=
  fun h =>
    let size := totalSize me + computeSizeOfEdge e in
    (Returned
       {| metaedge_v := metaedge_v me; metaedge_w := metaedge_w me;
          baseEdgeList := baseEdgeList me ++ [e]; inbound := inbound me;
          numRegularEdges :=
            numRegularEdges me + (if isControlDependency e then 0 else 1);
          totalSize := size |},
     set_maxMetaEdgeSize (Nat.max (maxMetaEdgeSize h) size) h).

(** *** Hierarchy.getChildName *)

Fixpoint getChildName_loop (fuel : nat) (h : Hierarchy)
  (nodeName descendantName : string) (currentNode : option Node)
  : Outcome string :=
  match currentNode with
  | None =>
      Thrown (Error ("Could not find immediate child for descendant: "
                     +:+ descendantName))
  | Some cur =>
      match fuel with
      | 0 => OutOfFuel
      | S fuel' =>
          match parentNode_of h cur with
          | Some p =>
              if String.eqb (node_name p) nodeName then Returned (node_name cur)
              else getChildName_loop fuel' h nodeName descendantName (Some p)
          | None => getChildName_loop fuel' h nodeName descendantName None
          end
      end
  end.

Definition getChildName (fuel : nat) (nodeName descendantName : string)
  : M Hierarchy string :=
  fun h =>
    (getChildName_loop fuel h nodeName descendantName (node h descendantName),
     h).

(** *** Hierarchy.getBridgegraph *)

(** One of the two graphs of the parent that [getBridgegraph] scans: its
    metagraph, which the scan does not touch, or its bridge graph, an object
    of the graph store ([None] for [null]). *)
Inductive ParentGraph :=
  | ParentMetagraph (g : Graph)
  | ParentBridgegraph (l : option nat).

Definition read_graph (pg : ParentGraph) (h : Hierarchy) : option Graph :=
  match pg with
  | ParentMetagraph g => Some g
  | ParentBridgegraph (Some l) => graph_store h !! l
  | ParentBridgegraph None => None
  end.

(** The body of the innermost loop of [getBridgegraph], for one BaseEdge of
    the Metaedge [ev -> ew] of the parent; [l] is the bridge graph under
    construction. *)
Definition bridge_baseEdge (fuel : nat) (nodeName : string) (l : nat)
  (inbound : bool) (ev ew : string) (baseEdge : BaseEdge) : M Hierarchy unit :=
  let descendantName := if inbound then edge_w baseEdge else edge_v baseEdge in
  let otherName := if inbound then ev else ew in
  let! childName := getChildName fuel nodeName descendantName in
  let v := if inbound then otherName else childName in
  let w := if inbound then childName else otherName in
  let! h := get in
  match graph_store h !! l with
  | None => throw TypeError
  | Some bg =>
      let bridgeMetaedge :=
        match edge bg v w with
        | Some me => me
        | None => set_inbound inbound (createMetaedge v w)
        end in
      let! me' := addBaseEdge baseEdge bridgeMetaedge in
      modify (set_graph l (setEdge v w me' bg))
  end.

Definition bridge_parentGraph (fuel : nat) (nodeName : string) (l : nat)
  (parentGraph : ParentGraph) : M Hierarchy unit :=
  let! h := get in
  match read_graph parentGraph h with
  | None => throw TypeError
  | Some g =>
      each (List.filter
              (fun e => String.eqb e.1 nodeName || String.eqb e.2 nodeName)
              (edges g))
        (fun parentEdgeObj =>
           let inbound := String.eqb parentEdgeObj.2 nodeName in
           let! h' := get in
           match read_graph parentGraph h' with
           | None => throw TypeError
           | Some g' =>
               match edge g' parentEdgeObj.1 parentEdgeObj.2 with
               | None => throw TypeError
               | Some parentMetaedge =>
                   each (baseEdgeList parentMetaedge)
                     (bridge_baseEdge fuel nodeName l inbound
                        parentEdgeObj.1 parentEdgeObj.2)
               end
           end)
  end.

(** The fuel bounds the depth of the recursion into the parents and the
    length of the walks of [getChildName]. *)
Fixpoint getBridgegraph (fuel : nat) (nodeName : string)
  : M Hierarchy (option nat) :=
  match fuel with
  | 0 => diverge
  | S fuel' =>
      let! h := get in
      match node h nodeName with
      | None => throw (Error ("Could not find node in hierarchy: " +:+ nodeName))
      | Some (Op _) => ret None
      | Some (Group groupNode) =>
          match bridgegraph groupNode with
          | Some l => ret (Some l)
          | None =>
              let l := fresh (dom (graph_store h)) in
              do! put (update_group nodeName (set_bridgegraph (Some l))
                         (set_graph l createGraph h)) in
              match parentNode_of h (Group groupNode) with
              | None | Some (Op _) => ret (Some l)
              | Some (Group parentNode) =>
                  let parentMetagraph := metagraph parentNode in
                  let! parentBridgegraph :=
                    getBridgegraph fuel' (name parentNode) in
                  do! each [ParentMetagraph parentMetagraph;
                            ParentBridgegraph parentBridgegraph]
                        (bridge_parentGraph fuel' nodeName l) in
                  ret (Some l)
              end
          end
      end
  end.

(** *** Hierarchy.getTopologicalOrdering *)

(** The first loop: [successors] and [destinations] of the Metaedges that
    summarize at least one regular edge. *)
Definition collect_successors (g : Graph)
  : JsObject (list string) * JsObject bool :=
  fold_left
    (fun (acc : JsObject (list string) * JsObject bool)
         (e : string * string * Metaedge) =>
       if numRegularEdges e.2 =? 0 then acc
       else (obj_set e.1.1 (default [] (obj_get acc.1 e.1.1) ++ [e.1.2]) acc.1,
             obj_set e.1.2 true acc.2))
    (graph_edges g) ([], []).

(** The [while (queue.length)] loop; [index] is the next number. *)
Fixpoint traverse (fuel : nat) (queue : list string)
  (successors : JsObject (list string)) (ordering : gmap string nat)
  (index : nat) : option (gmap string nat) :=
  match queue with
  | [] => Some ordering
  | childName :: queue' =>
      match fuel with
      | 0 => None
      | S fuel' =>
          traverse fuel'
            (queue' ++ default [] (obj_get successors childName))
            (obj_delete childName successors)
            (<[childName := index]> ordering)
            (S index)
      end
  end.

(** The ordering object is entered into [orderings] before the loop fills
    it; the loop neither throws nor calls out, so nothing sees the object
    before it is complete. *)
Definition getTopologicalOrdering (fuel : nat) (nodeName : string)
  : M Hierarchy (option nat) :=
  let! h := get in
  match node h nodeName with
  | None => throw (Error ("Could not find node with name: " +:+ nodeName))
  | Some (Op _) => ret None
  | Some (Group groupNode) =>
      match orderings h !! nodeName with
      | Some l => ret (Some l)
      | None =>
          let sd := collect_successors (metagraph groupNode) in
          let queue := difference (obj_keys sd.1) (obj_keys sd.2) in
          match traverse fuel queue sd.1 ∅ 0 with
          | None => diverge
          | Some ordering =>
              let l := fresh (dom (ordering_store h)) in
              do! put (set_ordering nodeName l ordering h) in
              ret (Some l)
          end
      end
  end.

(** *** joinAndAggregateStats *)

(** Modelled from the spec: [Metanode.leaves()] of graph.ts, the names of the
    leaves beneath a container, found by a walk through the metagraphs. *)
Fixpoint leaves_loop (fuel : nat) (h : Hierarchy) (queue leaves : list string)
  : Outcome (list string) :=
  match queue with
  | [] => Returned leaves
  | n :: queue' =>
      match fuel with
      | 0 => OutOfFuel
      | S fuel' =>
          match node h n with
          | None => Thrown TypeError
          | Some (Group g) =>
              leaves_loop fuel' h (queue' ++ nodes (metagraph g)) leaves
          | Some (Op o) => leaves_loop fuel' h queue' (leaves ++ [op_name o])
          end
      end
  end.

(** [h.root.leaves()] *)
Definition root_leaves (fuel : nat) : M Hierarchy (list string) :=
  fun h => (leaves_loop fuel h [ROOT_NAME] [], h).

Definition node_device (x : Node) : option string :=
  match x with Op o => device o | Group _ => None end.
Definition node_xlaCluster (x : Node) : option string :=
  match x with Op o => xlaCluster o | Group _ => None end.

(** The first loop: the names of the devices and of the XLA clusters of the
    leaves, as the keys of two objects. *)
Fixpoint collect_names (h : Hierarchy) (leafNames : list string)
  (deviceNames xlaClusterNames : JsObject bool)
  : Outcome (JsObject bool * JsObject bool) :=
  match leafNames with
  | [] => Returned (deviceNames, xlaClusterNames)
  | nodeName :: rest =>
      match node h nodeName with
      | None => Thrown TypeError
      | Some leaf =>
          collect_names h rest
            (match node_device leaf with
             | Some d => obj_set d true deviceNames
             | None => deviceNames
             end)
            (match node_xlaCluster leaf with
             | Some c => obj_set c true xlaClusterNames
             | None => xlaClusterNames
             end)
      end
  end.

(** The second loop: every group node gets fresh stats and an empty device
    histogram. *)
Definition reset_stats (x : Node) : Node :=
  match x with
  | Group g => Group (set_deviceHistogram ∅ (set_stats (Some new_NodeStats) g))
  | Op o => Op o
  end.

(** One round of the [while (node.parentNode != null)] loop for the leaf
    [leaf], at the parent [p] that the arena holds under [pname]. *)
Definition bubble_step (leaf : Node) (pname : string) (p : Node)
  : M Hierarchy unit :=
  do! match node_device leaf, p with
      | Some d, Group _ =>
          modify (update_group pname
                    (fun g => set_deviceHistogram
                                (increment d (deviceHistogram g)) g))
      | Some _, Op _ => throw TypeError
      | None, _ => ret tt
      end in
  do! match node_xlaCluster leaf, p with
      | Some c, Group _ =>
          modify (update_group pname
                    (fun g => set_xlaClusterHistogram
                                (increment c (xlaClusterHistogram g)) g))
      | Some _, Op _ => throw TypeError
      | None, _ => ret tt
      end in
  match node_stats leaf with
  | Some s =>
      let! h := get in
      match node h pname with
      | Some (Group g) =>
          match stats g with
          | Some t => put (update_group pname (set_stats (Some (combine t s))) h)
          | None => throw TypeError
          end
      | Some (Op o) =>
          match op_stats o with
          | Some t =>
              put (update_op pname (set_op_stats (Some (combine t s))) h)
          | None => throw TypeError
          end
      | None => throw TypeError
      end
  | None => ret tt
  end.

(** The walk from a leaf to the root; [nodeRef] is the reference held by the
    variable [node]. *)
Fixpoint bubble_up (fuel : nat) (leaf : Node) (nodeRef : string)
  : M Hierarchy unit :=
  fun h =>
    match node h nodeRef with
    | None => (Thrown TypeError, h)
    | Some x =>
        match node_parentNode x with
        | None => (Returned tt, h)
        | Some pname =>
            match node h pname with
            | None => (Returned tt, h)
            | Some p =>
                match fuel with
                | 0 => (OutOfFuel, h)
                | S fuel' =>
                    (do! bubble_step leaf pname p in
                     bubble_up fuel' leaf pname) h
                end
            end
        end
    end.

(** [joinAndAggregateStats(h, stats)]; the body does not read [stats].  The
    fuel bounds the walk through the metagraphs and each walk to the root. *)
Definition joinAndAggregateStats (fuel : nat) : M Hierarchy unit :=
  let! leafNames := root_leaves fuel in
  let! h := get in
  match collect_names h leafNames [] [] with
  | Thrown e => throw e
  | OutOfFuel => diverge
  | Returned names =>
      do! put (set_devices (Some (obj_keys names.1)) (Some (obj_keys names.2)) h) in
      do! modify (fun h => set_index (reset_stats <$> index h) h) in
      let! leafNames' := root_leaves fuel in
      each leafNames'
        (fun nodeName =>
           let! h := get in
           match node h nodeName with
           | None => throw TypeError
           | Some leaf => bubble_up fuel leaf nodeName
           end)
  end.

(** *** addEdges *)

(** Modelled from the spec: the [SlimGraph] of graph.ts, "a mapping from
    unique node name to leaf-node record plus an ordered list of raw
    edges". *)
Record SlimGraph := mkSlimGraph {
  slim_nodes : JsObject OpNode;
  slim_edges : list BaseEdge;
}.

(** [graph.nodes[name]]: the leaf of that name, which after [addNodes] is the
    object that the hierarchy holds under it. *)
Definition slim_node (graph : SlimGraph) (h : Hierarchy) (n : string)
  : option Node :=
  if obj_has n (slim_nodes graph) then node h n else None.

(** [path[i] = x] for [i <= path.length]: the write at the end makes the
    array longer. *)
Definition array_set (i : nat) (x : string) (path : list string)
  : list string :=
  if i <? length path then <[i := x]> path else path ++ [x].

(** [getPath(node, path)], giving the buffer and the value of [i] at the end
    of the loop; the function returns [i - 1]. *)
Fixpoint getPath_loop (fuel : nat) (h : Hierarchy) (x : option Node)
  (i : nat) (path : list string) : option (nat * list string) :=
  match x with
  | None => Some (i, path)
  | Some n =>
      match fuel with
      | 0 => None
      | S fuel' =>
          getPath_loop fuel' h (parentNode_of h n) (S i)
            (array_set i (node_name n) path)
      end
  end.

Definition getPath (fuel : nat) (h : Hierarchy) (x : option Node)
  (path : list string) : option (nat * list string) :=
  getPath_loop fuel h x 0 path.

(** The search for the highest nodes that differ, from the indices of the
    two roots downwards; [None] when an index falls below zero, where the
    source throws. *)
Fixpoint find_difference (sourcePath destPath : list string)
  (sourceAncestorIndex destAncestorIndex : nat) : option (nat * nat) :=
  if decide (sourcePath !! sourceAncestorIndex = destPath !! destAncestorIndex)
  then match sourceAncestorIndex, destAncestorIndex with
       | S s, S d => find_difference sourcePath destPath s d
       | _, _ => None
       end
  else Some (sourceAncestorIndex, destAncestorIndex).

(** An array element used as a key; [undefined] gives the key "undefined". *)
Definition as_key (x : option string) : string := default "undefined" x.

(** The state of the loop of [addEdges]: the hierarchy and the two buffers
    that are reused from edge to edge. *)
Record EdgeState := mkEdgeState {
  es_hierarchy : Hierarchy;
  sourcePath : list string;
  destPath : list string;
}.

Definition lift_hierarchy {A} (sp dp : list string) (m : M Hierarchy A)
  : M EdgeState A :=
  fun s => let r := m (es_hierarchy s) in (r.1, mkEdgeState r.2 sp dp).

(** The body of the loop of [addEdges] for one raw edge. *)
Definition addEdge (fuel : nat) (graph : SlimGraph) (baseEdge : BaseEdge)
  : M EdgeState unit :=
  fun s =>
    let h := es_hierarchy s in
    match getPath fuel h (slim_node graph h (edge_v baseEdge)) (sourcePath s) with
    | None => (OutOfFuel, s)
    | Some (si, sp) =>
        match getPath fuel h (slim_node graph h (edge_w baseEdge)) (destPath s) with
        | None => (OutOfFuel, mkEdgeState h sp (destPath s))
        | Some (di, dp) =>
            let s' := mkEdgeState h sp dp in
            match si, di with
            | S sourceAncestorIndex, S destAncestorIndex =>
                match find_difference sp dp sourceAncestorIndex
                        destAncestorIndex with
                | None =>
                    (Thrown (Error "No difference found between ancestor paths."),
                     s')
                | Some (i, j) =>
                    let sharedName := as_key (sp !! S i) in
                    let sourceAncestorName := as_key (sp !! i) in
                    let destAncestorName := as_key (dp !! j) in
                    match node h sharedName with
                    | Some (Group sharedAncestorNode) =>
                        let metaedge :=
                          match edge (metagraph sharedAncestorNode)
                                  sourceAncestorName destAncestorName with
                          | Some me => me
                          | None =>
                              createMetaedge sourceAncestorName destAncestorName
                          end in
                        lift_hierarchy sp dp
                          (let! me' := addBaseEdge baseEdge metaedge in
                           modify
                             (update_group sharedName
                                (fun g =>
                                   set_metagraph
                                     (setEdge sourceAncestorName
                                        destAncestorName me' (metagraph g))
                                     (if negb (hasNonControlEdges g)
                                         && negb (isControlDependency baseEdge)
                                      then set_hasNonControlEdges true g
                                      else g))))
                          s'
                    | _ => (Thrown TypeError, s')
                    end
                end
            | _, _ => (Returned tt, s')
            end
        end
    end.

(** [addEdges(h, graph, seriesNames)]; the body does not read
    [seriesNames]. *)
Definition addEdges (fuel : nat) (graph : SlimGraph) : M Hierarchy unit :=
  fun h =>
    let r := each (slim_edges graph) (addEdge fuel graph) (mkEdgeState h [] []) in
    (r.1, es_hierarchy r.2).

(** *** Series detection *)

(** [metagraph.node(n)]: the label of [n], the node object of that name. *)
Definition graph_node (h : Hierarchy) (g : Graph) (n : string) : option Node :=
  if hasNode g n then node h n else None.

(** [clusterNodes(metagraph)]: the names of the children that are no
    Metanodes and have an [op], by [op]. *)
Fixpoint clusterNodes_loop (h : Hierarchy) (g : Graph) (ns : list string)
  (clusters : JsObject (list string)) : Outcome (JsObject (list string)) :=
  match ns with
  | [] => Returned clusters
  | n :: ns' =>
      match graph_node h g n with
      | None => Thrown TypeError
      | Some (Group _) => clusterNodes_loop h g ns' clusters
      | Some (Op child) =>
          if String.eqb (op child) "" then clusterNodes_loop h g ns' clusters
          else clusterNodes_loop h g ns'
                 (obj_set (op child)
                    (default [] (obj_get clusters (op child)) ++ [op_name child])
                    clusters)
      end
  end.

Definition clusterNodes (h : Hierarchy) (g : Graph)
  : Outcome (JsObject (list string)) :=
  clusterNodes_loop h g (nodes g) [].

(** [addSeriesToDict(seriesNodes, seriesDict, clusterId, metagraph,
    graphOptions)] *)
Definition addSeriesToDict (seriesNodes : list GroupNode)
  (seriesDict : JsObject GroupNode) (cid : JsNumber) (g : Graph)
  : JsObject GroupNode :=
  match seriesNodes with
  | first :: _ :: _ =>
      let curSeriesName :=
        getSeriesNodeName (prefix first) (suffix first) (parent first)
          (Some (clusterId first, clusterId (List.last seriesNodes first))) in
      let curSeriesNode :=
        createSeriesNode (prefix first) (suffix first) (parent first) cid
          curSeriesName in
      obj_set curSeriesName
        (fold_left
           (fun (cur : GroupNode) (x : GroupNode) =>
              set_metagraph (setNode (name x) (metagraph cur))
                (set_ids (ids cur ++ [clusterId x]) cur))
           seriesNodes curSeriesNode)
        seriesDict
  | _ => seriesDict
  end.

(** [seriesInfoArray.sort((a, b) => +a.clusterId - +b.clusterId)]; the sort
    of an array is stable. *)
Fixpoint insert_by_clusterId (x : GroupNode) (l : list GroupNode)
  : list GroupNode :=
  match l with
  | [] => [x]
  | y :: l' =>
      if number_le (clusterId x) (clusterId y) then x :: l
      else y :: insert_by_clusterId x l'
  end.
Definition sort_by_clusterId (l : list GroupNode) : list GroupNode :=
  foldr insert_by_clusterId [] l.

(** The [for] loop over the sorted candidates, from [index = 1] on, with the
    call of [addSeriesToDict] that follows it. *)
Fixpoint group_runs (rest seriesNodes : list GroupNode)
  (seriesDict : JsObject GroupNode) (cid : JsNumber) (g : Graph)
  : JsObject GroupNode :=
  match rest with
  | [] => addSeriesToDict seriesNodes seriesDict cid g
  | nextNode :: rest' =>
      if is_next (clusterId nextNode)
           (clusterId (List.last seriesNodes nextNode))
      then group_runs rest' (seriesNodes ++ [nextNode]) seriesDict cid g
      else group_runs rest' [nextNode]
             (addSeriesToDict seriesNodes seriesDict cid g) cid g
  end.

(** The loop over [candidatesDict] that ends both detectors. *)
Definition add_candidates (candidatesDict : JsObject (list GroupNode))
  (seriesDict : JsObject GroupNode) (cid : JsNumber) (g : Graph)
  : JsObject GroupNode :=
  fold_left
    (fun (dict : JsObject GroupNode) (c : string * list GroupNode) =>
       match sort_by_clusterId c.2 with
       | first :: second :: rest =>
           group_runs (second :: rest) [first] dict cid g
       | _ => dict
       end)
    (obj_entries candidatesDict) seriesDict.

(** [prefix], [id] and [suffix] of a name in which no number was found. *)
Definition zeroth_item (name leaf : string) : string * string :=
  if ends_with_star name then (drop_last_char leaf, "*") else (leaf, "").

(** [detectSeriesUsingNumericSuffixes(clusters, metagraph, graphOptions)] *)
Definition numeric_suffix_candidate (candidatesDict : JsObject (list GroupNode))
  (name : string) : JsObject (list GroupNode) :=
  let leaf := leaf_of name in
  let par := parent_of name in
  let pis :=
    match match_numeric_suffix leaf with
    | Some (pre, digits) => (pre, to_number digits, "")
    | None => let z := zeroth_item name leaf in (z.1, 0%N, z.2)
    end in
  let seriesName := getSeriesNodeName pis.1.1 pis.2 par None in
  obj_set seriesName
    (default [] (obj_get candidatesDict seriesName)
     ++ [createSeriesNode pis.1.1 pis.2 par (Num pis.1.2) name])
    candidatesDict.

Definition detectSeriesUsingNumericSuffixes (clusters : JsObject (list string))
  (g : Graph) : JsObject GroupNode :=
  fold_left
    (fun (seriesDict : JsObject GroupNode) (c : string * list string) =>
       if length c.2 <=? 1 then seriesDict
       else add_candidates (fold_left numeric_suffix_candidate c.2 [])
              seriesDict (cluster_number c.1) g)
    (obj_entries clusters) [].

(** The matches of the global regular expression for a run of digits in
    [leaf], from left to right: for each run what stands before it, the run,
    and what stands after it.  [before] is the part of the name already
    read, [run] the run that is being read with what stood before it. *)
Fixpoint digit_runs (before : string) (run : option (string * string))
  (s : string) : list (string * string * string) :=
  match s with
  | EmptyString =>
      match run with
      | Some (pre, digits) => [(pre, digits, EmptyString)]
      | None => []
      end
  | String c s' =>
      let before' := before +:+ String c EmptyString in
      if is_digit c then
        digit_runs before'
          (Some match run with
                | Some (pre, digits) => (pre, digits +:+ String c EmptyString)
                | None => (before, String c EmptyString)
                end) s'
      else
        match run with
        | Some (pre, digits) => (pre, digits, s) :: digit_runs before' None s'
        | None => digit_runs before' None s'
        end
  end.

(** The two dictionaries of [detectSeriesAnywhereInNodeName]: [forwardDict]
    from the name of a series to its first candidate, which collects the
    ids, and [reverseDict] from a member to the series it may join. *)
Definition anywhere_entry (name par : string)
  (dicts : JsObject GroupNode * JsObject (list (string * string)))
  (m : string * string * string)
  : JsObject GroupNode * JsObject (list (string * string)) :=
  let seriesName := getSeriesNodeName m.1.1 m.2 par None in
  let series :=
    default (createSeriesNode m.1.1 m.2 par (Num (to_number m.1.2)) name)
      (obj_get dicts.1 seriesName) in
  (obj_set seriesName
     (set_ids (ids series ++ [Num (to_number m.1.2)]) series) dicts.1,
   obj_set name
     (default [] (obj_get dicts.2 name) ++ [(seriesName, m.1.2)]) dicts.2).

Definition anywhere_member
  (dicts : JsObject GroupNode * JsObject (list (string * string)))
  (name : string)
  : JsObject GroupNode * JsObject (list (string * string)) :=
  let leaf := leaf_of name in
  let par := parent_of name in
  match digit_runs EmptyString None leaf with
  | [] =>
      let z := zeroth_item name leaf in
      anywhere_entry name par dicts (z.1, "0", z.2)
  | runs => fold_left (anywhere_entry name par) runs dicts
  end.

(** The sort of the series of a member by the number of their ids, largest
    first. *)
Definition ids_length (forwardDict : JsObject GroupNode) (seriesName : string)
  : nat :=
  match obj_get forwardDict seriesName with
  | Some s => length (ids s)
  | None => 0
  end.
Fixpoint insert_by_ids (forwardDict : JsObject GroupNode) (x : string * string)
  (l : list (string * string)) : list (string * string) :=
  match l with
  | [] => [x]
  | y :: l' =>
      if ids_length forwardDict y.1 <=? ids_length forwardDict x.1 then x :: l
      else y :: insert_by_ids forwardDict x l'
  end.

Definition anywhere_candidate (forwardDict : JsObject GroupNode)
  (candidatesDict : JsObject (list GroupNode))
  (r : string * list (string * string)) : JsObject (list GroupNode) :=
  match foldr (insert_by_ids forwardDict) [] r.2 with
  | [] => candidatesDict
  | (seriesName, id) :: _ =>
      let series :=
        default (createSeriesNode "" "" "" NaN "") (obj_get forwardDict seriesName) in
      obj_set seriesName
        (default [] (obj_get candidatesDict seriesName)
         ++ [createSeriesNode (prefix series) (suffix series) (parent_of r.1)
               (Num (to_number id)) r.1])
        candidatesDict
  end.

(** [detectSeriesAnywhereInNodeName(clusters, metagraph, graphOptions)] *)
Definition detectSeriesAnywhereInNodeName (clusters : JsObject (list string))
  (g : Graph) : JsObject GroupNode :=
  fold_left
    (fun (seriesDict : JsObject GroupNode) (c : string * list string) =>
       if length c.2 <=? 1 then seriesDict
       else
         let dicts := fold_left anywhere_member c.2 ([], []) in
         add_candidates
           (fold_left (anywhere_candidate dicts.1) (obj_entries dicts.2) [])
           seriesDict (cluster_number c.1) g)
    (obj_entries clusters) [].

(** *** groupSeries *)

(** What [groupSeries] works on: the hierarchy, the dictionary
    [seriesNames] from a member to its series, and the series map of the
    caller. *)
Record SeriesState := mkSeriesState {
  ss_hierarchy : Hierarchy;
  seriesNames : gmap string string;
  series_map : gmap string SeriesGroupingType;
}.

Definition on_hierarchy (f : Hierarchy -> Hierarchy) (s : SeriesState)
  : SeriesState :=
  mkSeriesState (f (ss_hierarchy s)) (seriesNames s) (series_map s).

(** The graph behind the variable [metagraph] of [groupSeries]: the
    metagraph of the container that the arena holds under [ref]. *)
Definition metagraph_of (ref : string) : M SeriesState Graph :=
  fun s =>
    match node (ss_hierarchy s) ref with
    | Some (Group g) => (Returned (metagraph g), s)
    | _ => (Thrown TypeError, s)
    end.

(** [(c || 0) + 1] on the side of the compatibility histogram that [b]
    selects. *)
Definition count_compatible (b : bool) (c : nat * nat) : nat * nat :=
  if b then (c.1 + 1, c.2) else (c.1, c.2 + 1).

Definition count_embeddings (es : list OpNode) (c : nat * nat) : nat * nat :=
  fold_left (fun c e => count_compatible (compatible e) c) es c.

Definition node_compatible (x : Node) : bool :=
  match x with Op o => compatible o | Group _ => false end.
Definition node_inEmbeddings (x : Node) : list OpNode :=
  match x with Op o => inEmbeddings o | Group _ => [] end.
Definition node_outEmbeddings (x : Node) : list OpNode :=
  match x with Op o => outEmbeddings o | Group _ => [] end.

(** [x.parentNode = p] *)
Definition set_node_parentNode (p : option string) (x : Node) : Node :=
  match x with
  | Op o => Op (set_op_parentNode p o)
  | Group g => Group (set_parentNode p g)
  end.

(** The first loop over the members of a series: a member that has no
    [owningSeries] yet gets the name of the series.  The members are leaves;
    a group node has no such field. *)
Definition stamp_member (ref seriesName n : string) : M SeriesState unit :=
  let! g := metagraph_of ref in
  let! s := get in
  match graph_node (ss_hierarchy s) g n with
  | None => throw TypeError
  | Some (Op child) =>
      match owningSeries child with
      | Some (String _ _) => ret tt
      | _ => put (on_hierarchy (update_op n (set_owningSeries (Some seriesName))) s)
      end
  | Some (Group _) => ret tt
  end.

(** What the second loop adds to the series node for the member [child]
    that the parent's metagraph holds under [n]. *)
Definition absorb_member (n : string) (child : Node) (seriesNode : GroupNode)
  : GroupNode :=
  let s1 := set_metagraph (setNode n (metagraph seriesNode)) seriesNode in
  let s2 := set_parentNode (node_parentNode child) s1 in
  let s3 := set_cardinality (cardinality s2 + 1) s2 in
  let s4 := match node_device child with
            | Some d => set_deviceHistogram (increment d (deviceHistogram s3)) s3
            | None => s3
            end in
  let s5 := match node_xlaCluster child with
            | Some c =>
                set_xlaClusterHistogram (increment c (xlaClusterHistogram s4)) s4
            | None => s4
            end in
  set_compatibilityHistogram
    (count_embeddings (node_outEmbeddings child)
       (count_embeddings (node_inEmbeddings child)
          (count_compatible (node_compatible child)
             (compatibilityHistogram s5))))
    s5.

(** The body of the second loop over the members of an accepted series. *)
Definition splice_member (ref seriesName n : string) : M SeriesState unit :=
  let! g := metagraph_of ref in
  let! s := get in
  match graph_node (ss_hierarchy s) g n with
  | None => throw TypeError
  | Some child =>
      do! modify (on_hierarchy (update_group seriesName (absorb_member n child))) in
      do! modify (on_hierarchy
                    (fun h => set_index
                                (alter (set_node_parentNode (Some seriesName)) n
                                   (index h)) h)) in
      do! modify (fun s => mkSeriesState (ss_hierarchy s)
                             (<[n := seriesName]> (seriesNames s))
                             (series_map s)) in
      modify (on_hierarchy
                (update_group ref
                   (fun m => set_metagraph (removeNode n (metagraph m)) m)))
  end.

(** The body of the loop over [seriesDict], for the series [seriesNode]
    found under the key [seriesName]. *)
Definition groupSeries_series (ref : string) (threshold : Z)
  (entry : string * GroupNode) : M SeriesState unit :=
  let seriesName := entry.1 in
  let seriesNode := entry.2 in
  let nodeMemberNames := nodes (metagraph seriesNode) in
  do! each nodeMemberNames (stamp_member ref seriesName) in
  do! modify (fun s =>
                if (Z.of_nat (length nodeMemberNames) <? threshold)%Z
                   && negb (bool_decide (is_Some (series_map s !! name seriesNode)))
                then mkSeriesState (ss_hierarchy s) (seriesNames s)
                       (<[name seriesNode := UNGROUP]> (series_map s))
                else s) in
  let! s := get in
  match series_map s !! name seriesNode with
  | Some UNGROUP => ret tt
  | _ =>
      do! modify (on_hierarchy (hierarchy_setNode seriesName (Group seriesNode))) in
      do! modify (on_hierarchy
                    (update_group ref
                       (fun m => set_metagraph (setNode seriesName (metagraph m)) m))) in
      each nodeMemberNames (splice_member ref seriesName)
  end.

(** [groupSeries(metanode, hierarchy, seriesNames, threshold, map,
    useGeneralizedSeriesPatterns)] for the Metanode held under [ref].  The
    fuel bounds the depth of the recursion into the Metanodes. *)
Fixpoint groupSeries (fuel : nat) (ref : string) (threshold : Z)
  (useGeneralizedSeriesPatterns : bool) : M SeriesState unit :=
  match fuel with
  | 0 => diverge
  | S fuel' =>
      let! g := metagraph_of ref in
      do! each (nodes g)
            (fun n =>
               let! g' := metagraph_of ref in
               let! s := get in
               match graph_node (ss_hierarchy s) g' n with
               | None => throw TypeError
               | Some child =>
                   if decide (node_type child = META)
                   then groupSeries fuel' n threshold useGeneralizedSeriesPatterns
                   else ret tt
               end) in
      let! metagraph := metagraph_of ref in
      let! s := get in
      match clusterNodes (ss_hierarchy s) metagraph with
      | Thrown e => throw e
      | OutOfFuel => diverge
      | Returned clusters =>
          let seriesDict :=
            (if useGeneralizedSeriesPatterns
             then detectSeriesAnywhereInNodeName
             else detectSeriesUsingNumericSuffixes) clusters metagraph in
          each (obj_entries seriesDict) (groupSeries_series ref threshold)
      end
  end.

(** *** addNodes *)

(** Modelled from the spec: the reserved "library function" prefix of the
    name of a container ([FUNCTION_LIBRARY_NODE_PREFIX] of graph.ts). *)
Variable FUNCTION_LIBRARY_NODE_PREFIX : string.

Fixpoint cumulative_paths (before : option string) (segments : list string)
  : list string :=
  match segments with
  | [] => []
  | x :: rest =>
      let p := match before with
               | Some b => b +:+ "/" +:+ x
               | None => x
               end in
      p :: cumulative_paths (Some p) rest
  end.

(** Modelled from the spec: [getHierarchicalPath(name)] of graph.ts; the
    name is split "on the path separator into segments" and each container
    on the way is "named by the cumulative path". *)
Definition getHierarchicalPath (n : string) : list string :=
  cumulative_paths None (split_slash n).

(** The statements of the [for] loop of [addNodes] that add the leaf [x] to
    the counters of the container [parent]; [remaining] is [path.length - i]. *)
Definition account_leaf (remaining : nat) (x : OpNode) (g : GroupNode)
  : GroupNode :=
  let g1 := set_depth (Nat.max (depth g) remaining) g in
  let g2 := set_cardinality (cardinality g1 + op_cardinality x) g1 in
  let g3 := set_opHistogram (increment (op x) (opHistogram g2)) g2 in
  let g4 := match device x with
            | Some d => set_deviceHistogram (increment d (deviceHistogram g3)) g3
            | None => g3
            end in
  let g5 := match xlaCluster x with
            | Some c =>
                set_xlaClusterHistogram (increment c (xlaClusterHistogram g4)) g4
            | None => g4
            end in
  set_compatibilityHistogram
    (count_embeddings (outEmbeddings x)
       (count_embeddings (inEmbeddings x)
          (count_compatible (compatible x) (compatibilityHistogram g5))))
    g5.

(** The names of the leaves of the graph whose [op] is [f]: the array
    [opToNode[f]] when [addNodes] ends.  [libraryFunctions[f].usages] is that
    very array. *)
Definition usages (graph : SlimGraph) (f : string) : list string :=
  map (fun e => op_name e.2)
    (List.filter (fun e => String.eqb (op e.2) f) (obj_entries (slim_nodes graph))).

(** The creation of the Metanode [n] below [parent]. *)
Definition new_child (graph : SlimGraph) (parent n : string) (h : Hierarchy)
  : Hierarchy :=
  let child := set_parentNode (Some parent) (createMetanode n) in
  let h1 := hierarchy_setNode n (Group child) h in
  let h2 := update_group parent
              (fun p => set_metagraph (setNode n (metagraph p)) p) h1 in
  if String.prefix FUNCTION_LIBRARY_NODE_PREFIX n
     && match node h parent with
        | Some p => String.eqb (node_name p) ROOT_NAME
        | None => false
        end
  then
    let functionName :=
      String.substring (String.length FUNCTION_LIBRARY_NODE_PREFIX)
        (String.length n - String.length FUNCTION_LIBRARY_NODE_PREFIX) n in
    update_group n (set_associatedFunction (Some functionName))
      (set_libraryFunctions
         (obj_set functionName (n, usages graph functionName)
            (libraryFunctions h2)) h2)
  else h2.

(** The [for] loop of [addNodes] from the element [path] of the path on;
    the result is the container that receives the leaf.  A leaf in the place
    of a container has no [opHistogram], and the loop throws. *)
Fixpoint descend (graph : SlimGraph) (x : OpNode) (path : list string)
  (parent : string) : M Hierarchy string :=
  match path with
  | [] => ret parent
  | n :: rest =>
      let! h := get in
      match node h parent with
      | Some (Group _) =>
          do! put (update_group parent (account_leaf (length path) x) h) in
          match rest with
          | [] => ret parent
          | _ :: _ =>
              let! h' := get in
              do! match node h' n with
                  | Some _ => ret tt
                  | None => put (new_child graph parent n h')
                  end in
              descend graph x rest n
          end
      | _ => throw TypeError
      end
  end.

(** The body of the loop of [addNodes] for one leaf. *)
Definition addNode (graph : SlimGraph) (x : OpNode) : M Hierarchy unit :=
  let path := getHierarchicalPath (op_name x) in
  do! modify (update_group ROOT_NAME
                (fun r => set_depth (Nat.max (length path) (depth r)) r)) in
  let! parent := descend graph x path ROOT_NAME in
  do! modify (hierarchy_setNode (op_name x)
                (Op (set_op_parentNode (Some parent) x))) in
  let! h := get in
  match node h parent with
  | Some (Group _) =>
      do! put (update_group parent
                 (fun p => set_metagraph (setNode (op_name x) (metagraph p)) p)
                 h) in
      each (inEmbeddings x ++ outEmbeddings x)
        (fun embedding =>
           modify (hierarchy_setNode (op_name embedding)
                     (Op (set_op_parentNode (Some (op_name x)) embedding))))
  | _ => throw TypeError
  end.

(** [addNodes(h, graph)] *)
Definition addNodes (graph : SlimGraph) : M Hierarchy unit :=
  each (map snd (obj_entries (slim_nodes graph))) (addNode graph).

(** *** build *)

Record HierarchyParams := mkHierarchyParams {
  verifyTemplate : bool;
  seriesNodeMinSize : Z;
  seriesMap : gmap string SeriesGroupingType;
  rankDirection : string;
  useGeneralizedSeriesPatterns : bool;
}.

(** [DefaultHierarchyParams] *)
Definition DefaultHierarchyParams : HierarchyParams :=
  {| verifyTemplate := true; seriesNodeMinSize := 5; seriesMap := ∅;
     rankDirection := "BT"; useGeneralizedSeriesPatterns := false |}.

(** The keys of the object that collects the truthy values of a field of
    the leaves of the graph. *)
Definition truthy_names (f : OpNode -> option string) (graph : SlimGraph)
  : list string :=
  obj_keys
    (fold_left
       (fun (names : JsObject bool) (e : string * OpNode) =>
          match f e.2 with
          | Some (String c r) => obj_set (String c r) true names
          | _ => names
          end)
       (obj_entries (slim_nodes graph)) []).

(** The task 'Adding nodes' *)
Definition build_addNodes (graph : SlimGraph) : M SeriesState unit :=
  fun s =>
    let h := set_devices (Some (truthy_names device graph))
               (Some (truthy_names xlaCluster graph)) (ss_hierarchy s) in
    let r := addNodes graph h in
    (r.1, mkSeriesState r.2 (seriesNames s) (series_map s)).

(** The task 'Detect series' *)
Definition build_detectSeries (fuel : nat) (params : HierarchyParams)
  : M SeriesState unit :=
  if (0 <? seriesNodeMinSize params)%Z
  then groupSeries fuel ROOT_NAME (seriesNodeMinSize params)
         (useGeneralizedSeriesPatterns params)
  else ret tt.

(** The task 'Adding edges' *)
Definition build_addEdges (fuel : nat) (graph : SlimGraph) : M SeriesState unit :=
  fun s =>
    let r := addEdges fuel graph (ss_hierarchy s) in
    (r.1, mkSeriesState r.2 (seriesNames s) (series_map s)).

(** Modelled from the spec: [runAsyncTask] of util.ts; the three tasks
    "execute strictly in sequence", each one "to completion", and an error
    of a task ends the build.

    [build(graph, params, tracker)].  The state at the end holds the
    hierarchy that the promise resolves to and the series map of the caller,
    which is [params.seriesMap] as the tasks left it. *)
Definition build (fuel : nat) (graph : SlimGraph) (params : HierarchyParams)
  : Outcome unit * SeriesState :=
  (do! build_addNodes graph in
   do! build_detectSeries fuel params in
   build_addEdges fuel graph)
    (mkSeriesState new_Hierarchy ∅ (seriesMap params)).


(** *** Hierarchy.getOneWayEdges *)

(** [g.inEdges(n)] and [g.outEdges(n)] of graphlib: the edge objects into and
    out of [n], in the order of their insertion; [undefined] for a node that
    the graph does not have. *)
Definition inEdges (g : Graph) (n : string) : option (list (string * string)) :=
  if hasNode g n
  then Some (List.filter (fun e => String.eqb e.2 n) (edges g))
  else None.

Definition outEdges (g : Graph) (n : string) : option (list (string * string)) :=
  if hasNode g n
  then Some (List.filter (fun e => String.eqb e.1 n) (edges g))
  else None.

(** [Edges]: the Metaedges at a node, those that summarize control
    dependencies only apart from the others. *)
Record Edges := mkEdges {
  control : list Metaedge;
  regular : list Metaedge;
}.

(** The body of the loop of [findEdgeTargetsInGraph] for the edge object
    [e]. *)
Definition push_target (graph : Graph) (e : string * string) (targets : Edges)
  : Outcome Edges :=
  match edge graph e.1 e.2 with
  | None => Thrown TypeError
  | Some metaedge =>
      Returned
        (if numRegularEdges metaedge =? 0
         then {| control := control targets ++ [metaedge];
                 regular := regular targets |}
         else {| control := control targets;
                 regular := regular targets ++ [metaedge] |})
  end.

Fixpoint push_targets (graph : Graph) (es : list (string * string))
  (targets : Edges) : Outcome Edges :=
  match es with
  | [] => Returned targets
  | e :: es' =>
      match push_target graph e targets with
      | Returned targets' => push_targets graph es' targets'
      | Thrown err => Thrown err
      | OutOfFuel => OutOfFuel
      end
  end.

(** [findEdgeTargetsInGraph(graph, node, inbound, targets)] for the node
    named [n], giving [targets] as the loop leaves it; [_.each] visits
    nothing when [inEdges] or [outEdges] gives [undefined]. *)
Definition findEdgeTargetsInGraph (graph : Graph) (n : string) (inbound : bool)
  (targets : Edges) : Outcome Edges :=
  push_targets graph
    (default [] (if inbound then inEdges graph n else outEdges graph n))
    targets.

(** [getOneWayEdges(node, inEdges)].  The metagraph of the parent is read
    before the call of [getBridgegraph], which writes to no metagraph. *)
Definition getOneWayEdges (fuel : nat) (x : Node) (inbound : bool)
  : M Hierarchy Edges :=
  let edges := {| control := []; regular := [] |} in
  let! h := get in
  match parentNode_of h x with
  | Some (Group parentNode) =>
      let metagraph := metagraph parentNode in
      let! bridgegraph := getBridgegraph fuel (name parentNode) in
      let! h' := get in
      match findEdgeTargetsInGraph metagraph (node_name x) inbound edges with
      | Returned edges1 =>
          match bridgegraph ≫= (fun l => graph_store h' !! l) with
          | None => throw TypeError
          | Some bg =>
              match findEdgeTargetsInGraph bg (node_name x) inbound edges1 with
              | Returned edges2 => ret edges2
              | Thrown e => throw e
              | OutOfFuel => diverge
              end
          end
      | Thrown e => throw e
      | OutOfFuel => diverge
      end
  | _ => ret edges
  end.

(** *** getIncompatibleOps *)

(** [hierarchyParams && hierarchyParams.seriesMap[series] === UNGROUP] *)
Definition ungrouped_by (hierarchyParams : option HierarchyParams)
  (series : string) : bool :=
  match hierarchyParams with
  | Some params => bool_decide (seriesMap params !! series = Some UNGROUP)
  | None => false
  end.

(** The embeddings of a list that are not compatible, as nodes. *)
Definition incompatible_embeddings (es : list OpNode) : list Node :=
  map Op (List.filter (fun e => negb (compatible e)) es).

(** The body of the loop of [getIncompatibleOps] for the leaf [opNode]:
    what it adds to [nodes] and to [addedSeriesNodes]. *)
Definition incompatible_leaf (h : Hierarchy)
  (hierarchyParams : option HierarchyParams) (opNode : OpNode)
  (acc : list Node * JsObject Node) : list Node * JsObject Node :=
  let acc1 :=
    if compatible opNode then acc
    else
      match owningSeries opNode with
      | Some (String c r) =>
          let series := String c r in
          if ungrouped_by hierarchyParams series
          then (acc.1 ++ [Op opNode], acc.2)
          else if obj_has series acc.2 then acc
          else match node h series with
               | Some seriesNode =>
                   (acc.1 ++ [seriesNode], obj_set series seriesNode acc.2)
               | None => acc
               end
      | _ => (acc.1 ++ [Op opNode], acc.2)
      end in
  (acc1.1 ++ incompatible_embeddings (inEmbeddings opNode)
          ++ incompatible_embeddings (outEmbeddings opNode),
   acc1.2).

Fixpoint incompatible_loop (h : Hierarchy)
  (hierarchyParams : option HierarchyParams) (leaves : list string)
  (acc : list Node * JsObject Node) : Outcome (list Node) :=
  match leaves with
  | [] => Returned acc.1
  | leaf :: rest =>
      match node h leaf with
      | None => Thrown TypeError
      | Some (Group _) => incompatible_loop h hierarchyParams rest acc
      | Some (Op opNode) =>
          incompatible_loop h hierarchyParams rest
            (incompatible_leaf h hierarchyParams opNode acc)
      end
  end.

(** [getIncompatibleOps(hierarchy, hierarchyParams)].  An embedding is
    returned as the array of its leaf holds it. *)
Definition getIncompatibleOps (fuel : nat)
  (hierarchyParams : option HierarchyParams) : M Hierarchy (list Node) :=
  let! leaves := root_leaves fuel in
  fun h =>
    (incompatible_loop h hierarchyParams leaves ([], []), h).

(** *** Hierarchy.getPredecessors and Hierarchy.getSuccessors *)

(** An input of a leaf as graph.ts normalizes it: the name of the node that
    it comes from, the key of the output tensor, and whether it is a control
    dependency. *)
Record NormalizedInput := mkNormalizedInput {
  input_name : string;
  input_outputTensorKey : string;
  input_isControlDependency : bool;
}.

(** [node.inputs], a field of [OpNode] that only these two functions
    read. *)
Variable inputs : OpNode -> list NormalizedInput.

(** The raw edge that is made for an input between [v] and [w]. *)
Definition embedded_edge (v w : string) (input : NormalizedInput) : BaseEdge :=
  {| edge_v := v; edge_w := w;
     isControlDependency := input_isControlDependency input;
     isReferenceEdge := false;
     outputTensorKey := input_outputTensorKey input |}.

(** The raw edges of the two nested loops of [getPredecessors] for the leaf
    [o] under the name [nodeName], in the order in which the loops make
    them: for every in-embedding, the inputs of the leaf that have its
    name. *)
Definition embedded_predecessors (nodeName : string) (o : OpNode)
  : list BaseEdge :=
  flat_map
    (fun embeddedNode =>
       map (embedded_edge (op_name embeddedNode) nodeName)
         (List.filter
            (fun input => String.eqb (input_name input) (op_name embeddedNode))
            (inputs o)))
    (inEmbeddings o).

(** The raw edges of the two nested loops of [getSuccessors]: for every
    out-embedding, its inputs that have the name [nodeName]. *)
Definition embedded_successors (nodeName : string) (o : OpNode)
  : list BaseEdge :=
  flat_map
    (fun embeddedNode =>
       map (embedded_edge nodeName (op_name embeddedNode))
         (List.filter
            (fun input => String.eqb (input_name input) nodeName)
            (inputs embeddedNode)))
    (outEmbeddings o).

(** The body of the inner loop for each of these raw edges: a new Metaedge
    takes the edge and joins the regular ones. *)
Fixpoint push_embedded (es : list BaseEdge) (targets : Edges)
  : M Hierarchy Edges :=
  match es with
  | [] => ret targets
  | e :: es' =>
      let! metaedge := addBaseEdge e (createMetaedge (edge_v e) (edge_w e)) in
      push_embedded es'
        {| control := control targets;
           regular := regular targets ++ [metaedge] |}
  end.

(** [getPredecessors(nodeName)] *)
Definition getPredecessors (fuel : nat) (nodeName : string)
  : M Hierarchy Edges :=
  let! h := get in
  match node h nodeName with
  | None => throw (Error ("Could not find node with name: " +:+ nodeName))
  | Some x =>
      let! predecessors := getOneWayEdges fuel x true in
      match x with
      | Op o => push_embedded (embedded_predecessors nodeName o) predecessors
      | Group _ => ret predecessors
      end
  end.

(** [getSuccessors(nodeName)] *)
Definition getSuccessors (fuel : nat) (nodeName : string)
  : M Hierarchy Edges :=
  let! h := get in
  match node h nodeName with
  | None => throw (Error ("Could not find node with name: " +:+ nodeName))
  | Some x =>
      let! successors := getOneWayEdges fuel x false in
      match x with
      | Op o => push_embedded (embedded_successors nodeName o) successors
      | Group _ => ret successors
      end
  end.

(** * Properties *)

(** ** Notions used by the properties *)

(** A bridge graph, once attached to a container, stays attached. *)
Definition bridge_kept (h h' : Hierarchy) : Prop :=
  forall n g l, node h n = Some (Group g) -> bridgegraph g = Some l ->
    exists g', node h' n = Some (Group g') /\ bridgegraph g' = Some l.

(** No node of the hierarchy is a series node. *)
Definition no_series (h : Hierarchy) : Prop :=
  forall n x, node h n = Some x -> node_type x <> SERIES.

(** [a -> b] is a Metaedge of [g] that summarizes a regular edge. *)
Definition regular_edge (g : Graph) (a b : string) : Prop :=
  exists me, (a, b, me) ∈ graph_edges g /\ numRegularEdges me <> 0.

(** A true source: a child with a regular Metaedge out of it and none into
    it. *)
Definition true_source (g : Graph) (a : string) : Prop :=
  (exists b, regular_edge g a b) /\ ~ (exists c, regular_edge g c a).

(** The total length of the lists of a dictionary of lists. *)
Definition obj_size (o : JsObject (list string)) : nat :=
  sum_list (map (fun e => length e.2) o).

(** The children of a container that get a number: those that a path of
    regular Metaedges reaches from a true source. *)
Definition ordered_child (g : Graph) (c : string) : Prop :=
  exists s, true_source g s /\ rtc (regular_edge g) s c.

(** An ordering of the container [nodeName] that gives every child a
    number. *)
Definition total_assignment (h : Hierarchy) (nodeName : string) : Prop :=
  exists fuel g l h' o,
    node h nodeName = Some (Group g)
    /\ getTopologicalOrdering fuel nodeName h = (Returned (Some l), h')
    /\ ordering_store h' !! l = Some o
    /\ forall c, c ∈ nodes (metagraph g) -> is_Some (o !! c).

(** An ordering that respects the paths of regular Metaedges of [g]. *)
Definition respects_paths (g : Graph) (o : gmap string nat) : Prop :=
  forall a b, tc (regular_edge g) a b ->
    exists i j, o !! a = Some i /\ o !! b = Some j /\ i < j.

(** The names on the way from the node behind a reference to the root, the
    node first: what [getPath] writes into its buffer. *)
Fixpoint ancestors (fuel : nat) (h : Hierarchy) (ref : option string)
  : option (list string) :=
  match ref with
  | None => Some []
  | Some n =>
      match node h n with
      | None => Some []
      | Some x =>
          match fuel with
          | 0 => None
          | S fuel' =>
              match ancestors fuel' h (node_parentNode x) with
              | Some up => Some (node_name x :: up)
              | None => None
              end
          end
      end
  end.

(** The Metaedge between the children [a] and [b] of the container [P]. *)
Definition metaedge_at (h : Hierarchy) (P a b : string) : option Metaedge :=
  match node h P with
  | Some (Group g) => edge (metagraph g) a b
  | _ => None
  end.

(** The raw edges that the Metaedge between [a] and [b] in [P] summarizes. *)
Definition baseEdges_at (h : Hierarchy) (P a b : string) : list BaseEdge :=
  match metaedge_at h P a b with
  | Some me => baseEdgeList me
  | None => []
  end.

(** The loop body of [addEdges] has attached the raw edge [e] to a Metaedge
    of some container. *)
Definition attached (fuel : nat) (graph : SlimGraph) (e : BaseEdge)
  (s : EdgeState) : Prop :=
  exists s' P a b,
    addEdge fuel graph e s = (Returned tt, s')
    /\ e ∈ baseEdges_at (es_hierarchy s') P a b.

(** The direct children of the container behind [ref]: the nodes of its
    metagraph. *)
Definition children_of (h : Hierarchy) (ref : string) : list string :=
  match node h ref with
  | Some (Group g) => graph_nodes (metagraph g)
  | _ => []
  end.

(** The parent pointer of the node behind [n]. *)
Definition parent_ref (h : Hierarchy) (n : string) : option string :=
  match node h n with
  | Some x => node_parentNode x
  | None => None
  end.

(** The [owningSeries] of a leaf after the first loop of [groupSeries] for
    the series [seriesName]: a leaf that has none gets this one. *)
Definition stamped (seriesName : string) (o : OpNode) : option string :=
  match owningSeries o with
  | Some (String c r) => Some (String c r)
  | _ => Some seriesName
  end.

(** The entry of the series dictionary for the run of the ids [numbers],
    from [first] to [last], of the members [ns] with the prefix [foo] below
    the parent [p]: what [addSeriesToDict] makes of the run. *)
Definition series_of (p : string) (cid : JsNumber) (first last : N)
  (ns : list string) (numbers : list N) : string * GroupNode :=
  let n := getSeriesNodeName "foo" "" p (Some (Num first, Num last)) in
  (n, set_metagraph {| graph_nodes := ns; graph_edges := [] |}
        (set_ids (map Num numbers) (createSeriesNode "foo" "" p cid n))).

(** The ancestors of a node depend on the names and the parents of the nodes
    only. *)
Definition same_shape (h h' : Hierarchy) : Prop :=
  forall n,
    match node h n, node h' n with
    | Some x, Some x' =>
        node_name x = node_name x' /\ node_parentNode x = node_parentNode x'
    | None, None => True
    | _, _ => False
    end.

(** The node behind [m] after the first loop over the members [L]. *)
Definition stamp_node (seriesName : string) (L : list string) (m : string)
  (x : option Node) : option Node :=
  match x with
  | Some (Op o) =>
      if decide (m ∈ L)
      then Some (Op (set_owningSeries (stamped seriesName o) o))
      else x
  | _ => x
  end.

(** What [getIncompatibleOps] may report for a hierarchy: a leaf or an
    embedding that is not compatible, or the node that the index holds under
    the [owningSeries] of a leaf that is not compatible, when the parameters
    do not hold that series as ungrouped. *)
Definition reportable (h : Hierarchy) (hierarchyParams : option HierarchyParams)
  (x : Node) : Prop :=
  (exists o, x = Op o /\ compatible o = false)
  \/ (exists n o series,
        node h n = Some (Op o) /\ compatible o = false
        /\ owningSeries o = Some series /\ series <> ""
        /\ ungrouped_by hierarchyParams series = false
        /\ node h series = Some x).

(** A leaf all of whose parts are compatible: the leaf and its
    embeddings. *)
Definition all_compatible (o : OpNode) : Prop :=
  compatible o = true
  /\ Forall (fun e => compatible e = true) (inEmbeddings o)
  /\ Forall (fun e => compatible e = true) (outEmbeddings o).

(** [me] is the label of an edge of [G] into the node [n] (for [inbound]) or
    out of it, as [inEdges] and [outEdges] list them. *)
Definition edge_at (G : Graph) (n : string) (inbound : bool) (me : Metaedge)
  : Prop :=
  exists e l,
    (if inbound then inEdges G n else outEdges G n) = Some l
    /\ e ∈ l /\ edge G e.1 e.2 = Some me.

(** A list of candidates whose numbers go up by one from each to the
    next. *)
Definition run (l : list GroupNode) : Prop :=
  forall i a b, l !! i = Some a -> l !! S i = Some b ->
    is_next (clusterId b) (clusterId a) = true.

(** A list of numbers that go up by one from each to the next. *)
Definition consecutive (l : list JsNumber) : Prop :=
  forall i a b, l !! i = Some a -> l !! S i = Some b -> is_next b a = true.

(** An entry of a dictionary of series as the detectors make them: a series
    node under its own name with at least two ids, which are consecutive
    numbers. *)
Definition series_entry (e : string * GroupNode) : Prop :=
  name e.2 = e.1 /\ type e.2 = SERIES
  /\ 2 <= length (ids e.2) /\ consecutive (ids e.2)
  /\ length (graph_nodes (metagraph e.2)) <= length (ids e.2).

(** A node without what the rollup of the stats writes: the stats, and for
    a group node the two histograms of devices and of XLA clusters. *)
Definition erase_stats (x : Node) : Node :=
  match x with
  | Op o => Op (set_op_stats None o)
  | Group g =>
      Group (set_xlaClusterHistogram ∅ (set_deviceHistogram ∅ (set_stats None g)))
  end.

(** The count of the XLA cluster [c] at a node. *)
Definition cluster_count (x : Node) (c : string) : nat :=
  match x with
  | Group g => default 0 (xlaClusterHistogram g !! c)
  | Op _ => 0
  end.

(** [h'] differs from [h] in nothing but the stats and the histograms of
    devices and XLA clusters of its nodes and the lists of the names of
    devices and XLA clusters, and no count of an XLA cluster is lower in
    [h'] than in [h]. *)
Definition rollup_keeps (h h' : Hierarchy) : Prop :=
  (forall n, erase_stats <$> node h' n = erase_stats <$> node h n)
  /\ (forall n x x' c, node h n = Some x -> node h' n = Some x' ->
        cluster_count x c <= cluster_count x' c)
  /\ libraryFunctions h' = libraryFunctions h
  /\ maxMetaEdgeSize h' = maxMetaEdgeSize h
  /\ orderings h' = orderings h
  /\ ordering_store h' = ordering_store h
  /\ graph_store h' = graph_store h.

(** A node without the reference to its bridge graph. *)
Definition erase_bridgegraph (x : Node) : Node :=
  match x with
  | Op o => Op o
  | Group g => Group (set_bridgegraph None g)
  end.

(** [h'] has the nodes of [h], which differ at most in the reference to
    their bridge graph, the graphs that the store of [h] holds, and the
    orderings, library functions, devices and XLA clusters of [h]. *)
Definition bridge_extends (h h' : Hierarchy) : Prop :=
  (forall n, erase_bridgegraph <$> node h' n = erase_bridgegraph <$> node h n)
  /\ (forall k g, graph_store h !! k = Some g -> graph_store h' !! k = Some g)
  /\ maxMetaEdgeSize h <= maxMetaEdgeSize h'
  /\ libraryFunctions h' = libraryFunctions h
  /\ devices h' = devices h /\ xlaClusters h' = xlaClusters h
  /\ orderings h' = orderings h
  /\ ordering_store h' = ordering_store h.

(** [h'] differs from [h] in the graph at the location [l] of the store and
    in [maxMetaEdgeSize], which is not lower. *)
Definition writes_graph (l : nat) (h h' : Hierarchy) : Prop :=
  index h' = index h
  /\ (forall k, k <> l -> graph_store h' !! k = graph_store h !! k)
  /\ maxMetaEdgeSize h <= maxMetaEdgeSize h'
  /\ libraryFunctions h' = libraryFunctions h
  /\ devices h' = devices h /\ xlaClusters h' = xlaClusters h
  /\ orderings h' = orderings h
  /\ ordering_store h' = ordering_store h.

(** [c] is the name of a node of the index whose parent has the name
    [nodeName]. *)
Definition is_child (h : Hierarchy) (nodeName c : string) : Prop :=
  exists k x p,
    node h k = Some x /\ node_name x = c
    /\ parentNode_of h x = Some p /\ node_name p = nodeName.

(** An edge of the bridge graph of the container [nodeName]: its Metaedge
    says whether it comes in or goes out, and the end on the side of the
    container is a child of the container. *)
Definition bridge_edge (h : Hierarchy) (nodeName : string)
  (e : string * string * Metaedge) : Prop :=
  exists b, inbound e.2 = Some b
            /\ is_child h nodeName (if b then e.1.2 else e.1.1).

(** The store holds a graph at [l], and its edges are edges of the bridge
    graph of [nodeName]. *)
Definition bridge_filled (h0 : Hierarchy) (nodeName : string) (l : nat)
  (s : Hierarchy) : Prop :=
  index s = index h0
  /\ exists bg, graph_store s !! l = Some bg
                /\ Forall (bridge_edge h0 nodeName) (graph_edges bg).

(** The loops of the rollup do not write to the lists of names. *)
Definition same_names (h h' : Hierarchy) : Prop :=
  devices h' = devices h /\ xlaClusters h' = xlaClusters h.

(** The Metaedge that [getPredecessors] and [getSuccessors] make for the raw
    edge of an embedded input: it summarizes that edge alone. *)
Definition embedded_metaedge (e : BaseEdge) : Metaedge :=
  {| metaedge_v := edge_v e; metaedge_w := edge_w e; baseEdgeList := [e];
     inbound := None;
     numRegularEdges := if isControlDependency e then 0 else 1;
     totalSize := computeSizeOfEdge e |}.

(** ** Graphs for the examples *)

(** Two leaves below the root and the edges [A -> B] and [B -> A]. *)
Definition two_cycle : SlimGraph :=
  {| slim_nodes := [("A", plain_leaf "A" "Enter"); ("B", plain_leaf "B" "Merge")];
     slim_edges := [data_edge "A" "B"; data_edge "B" "A"] |}.

(** Four leaves below the root and the edges [A -> B], [A -> C], [C -> B]
    and [B -> D]; there is no cycle. *)
Definition diamond : SlimGraph :=
  {| slim_nodes := [("A", plain_leaf "A" "Const"); ("B", plain_leaf "B" "Add");
                    ("C", plain_leaf "C" "Neg"); ("D", plain_leaf "D" "Exp")];
     slim_edges := [data_edge "A" "B"; data_edge "A" "C"; data_edge "C" "B";
                    data_edge "B" "D"] |}.

(** Two scopes with two leaves each, three edges from [s] to [t] and one
    inside [s]. *)
Definition two_scopes : SlimGraph :=
  {| slim_nodes := [("s/a", plain_leaf "s/a" "Const");
                    ("s/b", plain_leaf "s/b" "Add");
                    ("t/c", plain_leaf "t/c" "Neg");
                    ("t/d", plain_leaf "t/d" "Exp")];
     slim_edges := [data_edge "s/a" "s/b"; data_edge "s/a" "t/c";
                    data_edge "s/b" "t/c"; data_edge "s/b" "t/d"] |}.

(** Three leaves of one operation, named as a series. *)
Definition three_in_a_row : SlimGraph :=
  {| slim_nodes := [("foo_1", plain_leaf "foo_1" "Add");
                    ("foo_2", plain_leaf "foo_2" "Add");
                    ("foo_3", plain_leaf "foo_3" "Add")];
     slim_edges := [data_edge "foo_1" "foo_2"; data_edge "foo_2" "foo_3"] |}.

(** One leaf below the root, placed on the device [d] and in the XLA cluster
    [c]. *)
Definition placed_leaf : SlimGraph :=
  {| slim_nodes :=
       [("A", {| op_name := "A"; op_parentNode := None; op_stats := None;
                 op_cardinality := 1; op := "Const"; device := Some "d";
                 xlaCluster := Some "c"; compatible := true;
                 inEmbeddings := []; outEmbeddings := [];
                 owningSeries := None |})];
     slim_edges := [] |}.

(** The number of leaves of a hierarchy for which [field], the device or the
    XLA cluster, is [c]. *)
Definition leaves_with (field : OpNode -> option string) (c : string)
  (h : Hierarchy) : nat :=
  length (List.filter
            (fun x => match x.2 with
                      | Op o => bool_decide (field o = Some c)
                      | Group _ => false
                      end)
            (map_to_list (index h))).

(** One leaf and an edge from it to itself. *)
Definition self_loop : SlimGraph :=
  {| slim_nodes := [("A", plain_leaf "A" "Enter")];
     slim_edges := [data_edge "A" "A"] |}.

(** Parameters under which [build] detects no series. *)
Definition flat_params : HierarchyParams :=
  {| verifyTemplate := true; seriesNodeMinSize := 0; seriesMap := ∅;
     rankDirection := "BT"; useGeneralizedSeriesPatterns := false |}.

(** Two leaves below the root, of which [B] is not compatible, and no
    edge. *)
Definition one_incompatible : SlimGraph :=
  {| slim_nodes :=
       [("A", plain_leaf "A" "Const");
        ("B", {| op_name := "B"; op_parentNode := None; op_stats := None;
                 op_cardinality := 1; op := "Custom"; device := None;
                 xlaCluster := None; compatible := false;
                 inEmbeddings := []; outEmbeddings := [];
                 owningSeries := None |})];
     slim_edges := [] |}.

(** One leaf and two edges from it to nodes that the graph does not have. *)
Definition dangling : SlimGraph :=
  {| slim_nodes := [("A", plain_leaf "A" "Const")];
     slim_edges := [data_edge "A" "summary"; data_edge "summary_2" "A"] |}.


(** ** The monad *)

Lemma each_invariant {S A} (P : S -> Prop) (f : A -> M S unit) (xs : list A) :
  (forall x s r s', P s -> f x s = (r, s') -> P s') ->
  forall s r s', P s -> each xs f s = (r, s') -> P s'.
Proof.
  intros Hf. induction xs as [|x xs IH]; intros s r s' Hs Heach; simpl in Heach.
  - unfold ret in Heach. by inversion Heach; subst.
  - unfold bind in Heach. destruct (f x s) as [[[]| |] s0] eqn:Hfx.
    + eapply IH; [|exact Heach]. eapply Hf; eauto.
    + inversion Heach; subst. eapply Hf; eauto.
    + inversion Heach; subst. eapply Hf; eauto.
Qed.

Lemma each_cons {S A} (f : A -> M S unit) (x : A) (xs : list A) :
  each (x :: xs) f = bind (f x) (fun _ => each xs f).
Proof. reflexivity. Qed.

Arguments each : simpl never.

(** ** getBridgegraph *)

(** The loops of [getBridgegraph] write to the graph store and to
    [maxMetaEdgeSize] only. *)
Lemma bridge_baseEdge_index fuel nodeName l inb ev ew e h r h' :
  bridge_baseEdge fuel nodeName l inb ev ew e h = (r, h') -> index h' = index h.
Proof.
  unfold bridge_baseEdge, bind, getChildName, get, throw, modify, addBaseEdge.
  destruct (getChildName_loop _ _ _ _ _); intros H; try by inversion H; subst.
  destruct (graph_store h !! l); by inversion H; subst.
Qed.

Lemma bridge_parentGraph_index fuel nodeName l pg h r h' :
  bridge_parentGraph fuel nodeName l pg h = (r, h') -> index h' = index h.
Proof.
  unfold bridge_parentGraph, bind, get, throw.
  destruct (read_graph pg h); [|by intros [= <- <-]].
  apply (each_invariant (fun s => index s = index h)); [|done].
  intros x s r0 s' Hs. destruct (read_graph pg s); [|by intros [= <- <-]].
  destruct (edge _ _ _); [|by intros [= <- <-]].
  intros H. rewrite <- Hs. revert H.
  apply (each_invariant (fun s0 => index s0 = index s)); [|done].
  intros y s1 r1 s1' Hs1 H. apply bridge_baseEdge_index in H. congruence.
Qed.

Lemma bridge_kept_refl h : bridge_kept h h.
Proof. intros n g l ? ?. eauto. Qed.

Lemma bridge_kept_trans h1 h2 h3 :
  bridge_kept h1 h2 -> bridge_kept h2 h3 -> bridge_kept h1 h3.
Proof.
  intros H12 H23 n g l Hn Hl.
  destruct (H12 n g l Hn Hl) as (g' & Hn' & Hl'). eauto.
Qed.

Lemma bridge_kept_index h h' : index h' = index h -> bridge_kept h h'.
Proof. intros E n g l Hn Hl. exists g. unfold node in *. by rewrite E. Qed.

Lemma node_update_group_eq n f h g :
  node h n = Some (Group g) ->
  node (update_group n f h) n = Some (Group (f g)).
Proof.
  unfold node, update_group. simpl. intros H.
  rewrite lookup_alter_eq, H. done.
Qed.

Lemma node_update_group_ne n m f h :
  n <> m -> node (update_group n f h) m = node h m.
Proof.
  unfold node, update_group. simpl. intros H. by rewrite lookup_alter_ne.
Qed.

Lemma getBridgegraph_kept fuel :
  forall nodeName h r h',
    getBridgegraph fuel nodeName h = (r, h') -> bridge_kept h h'.
Proof.
  induction fuel as [|fuel IH]; intros nodeName h r h' H; simpl in H.
  - inversion H; subst. apply bridge_kept_refl.
  - unfold bind, get in H.
    destruct (node h nodeName) as [[o|g]|] eqn:Hnode;
      try solve [inversion H; subst; apply bridge_kept_refl].
    destruct (bridgegraph g) as [l|] eqn:Hl;
      try solve [inversion H; subst; apply bridge_kept_refl].
    unfold put in H.
    set (l := fresh (dom (graph_store h))) in *.
    set (h0 := update_group nodeName (set_bridgegraph (Some l))
                 (set_graph l createGraph h)) in *.
    assert (H0 : bridge_kept h h0).
    { intros n g0 l0 Hn Hl0. destruct (decide (nodeName = n)) as [->|Hne].
      - congruence.
      - exists g0. split; [|done]. unfold h0.
        by rewrite node_update_group_ne. }
    destruct (parentNode_of h (Group g)) as [[po|pg]|];
      try solve [inversion H; subst; exact H0].
    destruct (getBridgegraph fuel (name pg) h0) as [[pb| |] h1] eqn:Hrec;
      apply IH in Hrec;
      try solve [inversion H; subst; eapply bridge_kept_trans; eauto].
    eapply bridge_kept_trans; [exact H0|].
    eapply bridge_kept_trans; [exact Hrec|].
    apply bridge_kept_index.
    destruct (each _ _ h1) as [[[]| |] h2] eqn:Heach; inversion H; subst;
      revert Heach;
      apply (each_invariant (fun s => index s = index h1)); try done;
      intros x s r0 s' Hs Hx; apply bridge_parentGraph_index in Hx; congruence.
Qed.



(** ** addEdges: edges that cannot be resolved *)

Lemma getPath_undefined fuel h path : getPath fuel h None path = Some (0, path).
Proof. by destruct fuel. Qed.

Lemma slim_node_absent graph h n :
  obj_has n (slim_nodes graph) = false -> slim_node graph h n = None.
Proof. unfold slim_node. by intros ->. Qed.

(** C6: a raw edge with an endpoint that the node map of the flat graph does
    not hold is skipped: the loop body returns without an error and the
    hierarchy, with all its Metaedges, is as before. *)
Theorem addEdge_skips_unresolved (fuel : nat) (graph : SlimGraph)
  (baseEdge : BaseEdge) (s : EdgeState)
  (Habsent : obj_has (edge_v baseEdge) (slim_nodes graph) = false
             \/ obj_has (edge_w baseEdge) (slim_nodes graph) = false)
  (Hsource : getPath fuel (es_hierarchy s)
               (slim_node graph (es_hierarchy s) (edge_v baseEdge))
               (sourcePath s) <> None)
  (Hdest : getPath fuel (es_hierarchy s)
             (slim_node graph (es_hierarchy s) (edge_w baseEdge))
             (destPath s) <> None) :
  exists sp dp,
    addEdge fuel graph baseEdge s
    = (Returned tt, mkEdgeState (es_hierarchy s) sp dp).
Proof.
  unfold addEdge.
  destruct (getPath fuel _ (slim_node _ _ (edge_v baseEdge)) _)
    as [[si sp]|] eqn:Hs; [|done].
  destruct (getPath fuel _ (slim_node _ _ (edge_w baseEdge)) _)
    as [[di dp]|] eqn:Hd; [|done].
  exists sp, dp.
  destruct Habsent as [Hv|Hw].
  - rewrite (slim_node_absent _ _ _ Hv), getPath_undefined in Hs.
    by inversion Hs; subst.
  - rewrite (slim_node_absent _ _ _ Hw), getPath_undefined in Hd.
    inversion Hd; subst. by destruct si.
Qed.

(** ** build: the series phase *)

Lemma no_series_update_group n f h :
  (forall g, type (f g) = type g) -> no_series h -> no_series (update_group n f h).
Proof.
  intros Hf Hh m x. unfold node, update_group. simpl.
  destruct (decide (n = m)) as [->|Hne].
  - rewrite lookup_alter_eq. destruct (index h !! m) as [y|] eqn:Hy; [|done].
    simpl. intros [= <-]. specialize (Hh m y Hy).
    destruct y as [o|g]; simpl in *; [done|]. by rewrite Hf.
  - rewrite lookup_alter_ne by done. apply Hh.
Qed.

Lemma no_series_setNode n x h :
  node_type x <> SERIES -> no_series h -> no_series (hierarchy_setNode n x h).
Proof.
  intros Hx Hh m y. unfold node, hierarchy_setNode. simpl.
  destruct (decide (n = m)) as [->|Hne].
  - rewrite lookup_insert_eq. by intros [= <-].
  - rewrite lookup_insert_ne by done. apply Hh.
Qed.

Lemma no_series_index h h' : index h' = index h -> no_series h -> no_series h'.
Proof. intros E Hh n x. unfold node. rewrite E. apply Hh. Qed.

Lemma no_series_new_Hierarchy : no_series new_Hierarchy.
Proof.
  intros n x. unfold node, new_Hierarchy. simpl.
  intros [<- <-]%lookup_singleton_Some. done.
Qed.

Lemma descend_no_series graph x path :
  forall parent h r h',
    no_series h -> descend graph x path parent h = (r, h') -> no_series h'.
Proof.
  induction path as [|n rest IH]; intros parent h r h' Hh H; simpl in H.
  - by inversion H; subst.
  - unfold bind, get, put, throw in H.
    destruct (node h parent) as [[o|g]|] eqn:Hp; try by inversion H; subst.
    assert (H1 : no_series (update_group parent
                              (account_leaf (length (n :: rest)) x) h)).
    { apply no_series_update_group; [|done]. intros g0. unfold account_leaf.
      by destruct (device x), (xlaCluster x). }
    destruct rest as [|n' rest']; [by inversion H; subst|].
    destruct (node _ n) as [y|] eqn:Hn.
    + unfold ret in H. eapply IH; [|exact H]. done.
    + eapply IH; [|exact H]. unfold new_child.
      match goal with |- no_series (if ?c then _ else _) => destruct c end.
      * apply no_series_update_group; [done|].
        eapply no_series_index; [reflexivity|].
        apply no_series_update_group; [done|].
        apply no_series_setNode; done.
      * apply no_series_update_group; [done|].
        apply no_series_setNode; done.
Qed.

Lemma addNodes_no_series graph h r h' :
  no_series h -> addNodes graph h = (r, h') -> no_series h'.
Proof.
  unfold addNodes. intros Hh. revert h r h' Hh.
  apply (each_invariant no_series). intros x h r h' Hh.
  unfold addNode, bind, modify, get, put, throw.
  destruct (descend _ _ _ _ _) as [[parent| |] h1] eqn:Hd;
    try (intros [= <- <-]; eapply descend_no_series; [|exact Hd];
         by apply no_series_update_group).
  assert (H1 : no_series h1).
  { eapply descend_no_series; [|exact Hd]. by apply no_series_update_group. }
  set (h2 := hierarchy_setNode _ _ h1).
  assert (H2 : no_series h2) by (by apply no_series_setNode).
  destruct (node h2 parent) as [[o|g]|]; try by intros [= <- <-].
  apply (each_invariant no_series).
  - intros e s r0 s' Hs [= <- <-]. by apply no_series_setNode.
  - by apply no_series_update_group.
Qed.

Lemma addEdge_no_series fuel graph e s r s' :
  no_series (es_hierarchy s) -> addEdge fuel graph e s = (r, s') ->
  no_series (es_hierarchy s').
Proof.
  intros Hs. unfold addEdge.
  destruct (getPath fuel _ (slim_node _ _ (edge_v e)) _) as [[si sp]|];
    [|by intros [= <- <-]].
  destruct (getPath fuel _ (slim_node _ _ (edge_w e)) _) as [[di dp]|];
    [|by intros [= <- <-]].
  destruct si as [|si]; [by intros [= <- <-]|].
  destruct di as [|di]; [by intros [= <- <-]|].
  destruct (find_difference _ _ _ _) as [[i j]|]; [|by intros [= <- <-]].
  destruct (node _ _) as [[o|g]|]; try by intros [= <- <-].
  unfold lift_hierarchy, bind, addBaseEdge, modify. simpl.
  intros [= <- <-]. simpl.
  apply no_series_update_group.
  - intros g0. by destruct (_ && _).
  - eapply no_series_index; [|exact Hs]. done.
Qed.

Lemma addEdges_no_series fuel graph h r h' :
  no_series h -> addEdges fuel graph h = (r, h') -> no_series h'.
Proof.
  unfold addEdges. intros Hh [= <- <-].
  destruct (each _ _ _) as [r0 s0] eqn:Heach. simpl.
  revert Heach.
  apply (each_invariant (fun s => no_series (es_hierarchy s))); [|done].
  intros x s r1 s' Hs Hx. eapply addEdge_no_series; eauto.
Qed.

(** C10: with [seriesNodeMinSize <= 0] the series task of [build] changes
    nothing (no node, no parent, no entry of the series map), so that the
    build ends with the series map of the caller as it was, with no name in
    [seriesNames] and with no series node in the hierarchy. *)
Theorem build_without_series_detection (fuel : nat) (graph : SlimGraph)
  (params : HierarchyParams) (Hmin : (seriesNodeMinSize params <= 0)%Z) :
  (forall s, build_detectSeries fuel params s = (Returned tt, s))
  /\ series_map (build fuel graph params).2 = seriesMap params
  /\ seriesNames (build fuel graph params).2 = ∅
  /\ no_series (ss_hierarchy (build fuel graph params).2).
Proof.
  assert (Hskip : forall s, build_detectSeries fuel params s = (Returned tt, s)).
  { intros s. unfold build_detectSeries.
    destruct (0 <? seriesNodeMinSize params)%Z eqn:E; [lia|done]. }
  split; [exact Hskip|].
  assert (Hb : exists r h,
             build fuel graph params
             = (r, mkSeriesState h ∅ (seriesMap params)) /\ no_series h).
  { unfold build, bind, build_addNodes. simpl.
    destruct (addNodes graph _) as [r1 h1] eqn:Hnodes. simpl.
    assert (H1 : no_series h1).
    { eapply addNodes_no_series; [|exact Hnodes].
      eapply no_series_index; [|exact no_series_new_Hierarchy]. done. }
    destruct r1 as [[]| |];
      [|by eexists _, _; split; [reflexivity|]..].
    rewrite Hskip. unfold build_addEdges. cbn [ss_hierarchy seriesNames series_map].
    destruct (addEdges fuel graph h1) as [r2 h2] eqn:Hedges. simpl.
    assert (H2 : no_series h2) by (eapply addEdges_no_series; eauto).
    destruct r2 as [[]| |]; by eexists _, _; split; [reflexivity|]. }
  destruct Hb as (r & h & -> & Hh). done.
Qed.

(** ** Dictionaries *)

Section JsObject_facts.
Context {V : Type}.
Implicit Types (o : JsObject V) (k : string).

Lemma obj_get_set_eq k x o : obj_get (obj_set k x o) k = Some x.
Proof.
  induction o as [|[k' y] o IH]; simpl.
  - by rewrite String.eqb_refl.
  - destruct (String.eqb_spec k' k) as [->|Hne]; simpl.
    + by rewrite String.eqb_refl.
    + by destruct (String.eqb_spec k' k).
Qed.

Lemma obj_get_set_ne k k' x o :
  k <> k' -> obj_get (obj_set k x o) k' = obj_get o k'.
Proof.
  intros Hne. induction o as [|[k0 y] o IH]; simpl.
  - by destruct (String.eqb_spec k k').
  - destruct (String.eqb_spec k0 k) as [->|Hne0]; simpl.
    + by destruct (String.eqb_spec k k').
    + by rewrite IH.
Qed.

Lemma obj_get_delete_eq k o : obj_get (obj_delete k o) k = None.
Proof.
  induction o as [|[k' y] o IH]; simpl; [done|].
  destruct (String.eqb_spec k' k) as [->|Hne]; simpl; [done|].
  by destruct (String.eqb_spec k' k).
Qed.

Lemma obj_get_delete_ne k k' o :
  k <> k' -> obj_get (obj_delete k o) k' = obj_get o k'.
Proof.
  intros Hne. induction o as [|[k0 y] o IH]; simpl; [done|].
  destruct (String.eqb_spec k0 k) as [->|Hne0]; simpl.
  - by destruct (String.eqb_spec k k').
  - by rewrite IH.
Qed.

Lemma obj_get_is_Some k o : is_Some (obj_get o k) <-> k ∈ map fst o.
Proof.
  induction o as [|[k' y] o IH]; simpl.
  - split; [by intros [? ?]|by intros ?%elem_of_nil].
  - rewrite elem_of_cons. destruct (String.eqb_spec k' k) as [->|Hne].
    + split; eauto.
    + rewrite IH. split; [auto|]. intros [?|?]; [congruence|done].
Qed.

Lemma obj_set_length k x o : length (obj_set k x o) <= S (length o).
Proof.
  induction o as [|[k' y] o IH]; simpl; [lia|].
  destruct (String.eqb k' k); simpl; lia.
Qed.
End JsObject_facts.

Lemma obj_size_delete k (o : JsObject (list string)) :
  obj_size (obj_delete k o) + length (default [] (obj_get o k)) <= obj_size o.
Proof.
  unfold obj_size. induction o as [|[k' y] o IH]; simpl; [lia|].
  destruct (String.eqb_spec k' k) as [->|Hne]; simpl.
  - assert (sum_list (map (fun e : string * list string => length e.2)
                        (obj_delete k o))
            <= sum_list (map (fun e : string * list string => length e.2) o)).
    { clear. induction o as [|[k' y] o IH]; simpl; [lia|].
      destruct (String.eqb k' k); simpl; lia. }
    lia.
  - lia.
Qed.

Lemma obj_size_push k w (o : JsObject (list string)) :
  obj_size (obj_set k (default [] (obj_get o k) ++ [w]) o) = S (obj_size o).
Proof.
  unfold obj_size. induction o as [|[k' y] o IH]; simpl.
  - done.
  - destruct (String.eqb_spec k' k) as [->|Hne]; simpl.
    + rewrite length_app. simpl. lia.
    + rewrite IH. lia.
Qed.

(** The enumeration of the keys of an object is a rearrangement of the
    keys. *)
Lemma insert_index_perm k ks : insert_index k ks ≡ₚ k :: ks.
Proof.
  induction ks as [|k' ks IH]; simpl; [done|].
  destruct (_ <=? _)%N; [done|]. rewrite IH. apply Permutation_swap.
Qed.

Lemma sort_indices_perm ks : sort_indices ks ≡ₚ ks.
Proof.
  induction ks as [|k ks IH]; simpl; [done|].
  unfold sort_indices in *. simpl. by rewrite insert_index_perm, IH.
Qed.

Lemma filter_split_perm {A} (p : A -> bool) (l : list A) :
  List.filter p l ++ List.filter (fun x => negb (p x)) l ≡ₚ l.
Proof.
  induction l as [|x l IH]; simpl; [done|].
  destruct (p x); simpl.
  - by rewrite IH.
  - by rewrite <- Permutation_middle, IH.
Qed.

Lemma own_keys_perm ks : own_keys ks ≡ₚ ks.
Proof.
  unfold own_keys. rewrite sort_indices_perm. apply filter_split_perm.
Qed.

Lemma elem_of_own_keys k ks : k ∈ own_keys ks <-> k ∈ ks.
Proof. by rewrite own_keys_perm. Qed.

Lemma elem_of_difference_list x xs ys :
  x ∈ difference xs ys <-> x ∈ xs /\ x ∉ ys.
Proof.
  unfold difference. rewrite list_elem_of_In, filter_In, <- list_elem_of_In.
  rewrite negb_true_iff, <- not_true_iff_false, existsb_exists.
  split; intros [Hx Hy]; (split; [done|]).
  - intros Hin. apply Hy. exists x. rewrite <- list_elem_of_In.
    split; [done|apply String.eqb_refl].
  - intros (y & Hin & Heq). apply String.eqb_eq in Heq. subst y.
    by apply Hy, list_elem_of_In.
Qed.

Lemma difference_length xs ys : length (difference xs ys) <= length xs.
Proof. unfold difference. apply filter_length_le. Qed.

(** ** getTopologicalOrdering *)

(** What the first loop of [getTopologicalOrdering] has collected after the
    Metaedges [es]. *)
Record collected (es : list (string * string * Metaedge))
  (sd : JsObject (list string) * JsObject bool) : Prop := {
  collected_successors : forall a b,
    b ∈ default [] (obj_get sd.1 a)
    <-> exists me, (a, b, me) ∈ es /\ numRegularEdges me <> 0;
  collected_keys : forall a,
    is_Some (obj_get sd.1 a)
    <-> exists b me, (a, b, me) ∈ es /\ numRegularEdges me <> 0;
  collected_destinations : forall b,
    is_Some (obj_get sd.2 b)
    <-> exists a me, (a, b, me) ∈ es /\ numRegularEdges me <> 0;
  collected_size : obj_size sd.1 <= length es;
  collected_length : length sd.1 <= length es;
}.

Lemma collect_successors_spec (g : Graph) :
  collected (graph_edges g) (collect_successors g).
Proof.
  unfold collect_successors. induction (graph_edges g) as [|e es IH] using rev_ind.
  - simpl. split; simpl; try (unfold obj_size; simpl; lia).
    + intros a b. split; [by intros ?%elem_of_nil|].
      by intros (me & ?%elem_of_nil & _).
    + intros a. split; [by intros [? ?]|].
      by intros (b & me & ?%elem_of_nil & _).
    + intros b. split; [by intros [? ?]|].
      by intros (a & me & ?%elem_of_nil & _).
  - rewrite fold_left_app. simpl.
    match type of IH with
    | collected _ ?acc => destruct acc as [succ dest]
    end.
    destruct IH as [IHs IHk IHd IHsz IHlen]. simpl in *.
    destruct e as [[v w] me]. simpl.
    destruct (Nat.eqb_spec (numRegularEdges me) 0) as [Hz|Hnz].
    + assert (Hold : forall a b me',
                (a, b, me') ∈ es ++ [(v, w, me)] -> numRegularEdges me' <> 0 ->
                (a, b, me') ∈ es).
      { intros a b me' Hin Hme'. apply elem_of_app in Hin as [Hin|Hin]; [done|].
        apply list_elem_of_singleton in Hin. congruence. }
      split; simpl; try (rewrite length_app; simpl; lia).
      * intros a b. rewrite IHs. split.
        -- intros (me' & Hin & Hme'). exists me'. split; [|done].
           apply elem_of_app. auto.
        -- intros (me' & Hin & Hme'). eauto.
      * intros a. rewrite IHk. split.
        -- intros (b & me' & Hin & Hme'). exists b, me'. split; [|done].
           apply elem_of_app. auto.
        -- intros (b & me' & Hin & Hme'). eauto.
      * intros b. rewrite IHd. split.
        -- intros (a & me' & Hin & Hme'). exists a, me'. split; [|done].
           apply elem_of_app. auto.
        -- intros (a & me' & Hin & Hme'). eauto.
    + split; simpl.
      * intros a b. setoid_rewrite elem_of_app.
        setoid_rewrite list_elem_of_singleton.
        destruct (decide (v = a)) as [->|Hne].
        -- rewrite obj_get_set_eq. simpl. rewrite elem_of_app, IHs.
           rewrite list_elem_of_singleton. split.
           ++ intros [(me' & ? & ?)| ->]; eauto.
           ++ intros (me' & [?|[= -> ->]] & ?); eauto.
        -- rewrite obj_get_set_ne by done. rewrite IHs. split.
           ++ intros (me' & ? & ?); eauto.
           ++ intros (me' & [?|[= -> -> ->]] & ?); [eauto|done].
      * intros a. setoid_rewrite elem_of_app.
        setoid_rewrite list_elem_of_singleton.
        destruct (decide (v = a)) as [->|Hne].
        -- rewrite obj_get_set_eq. split; [|eauto]. intros _.
           exists w, me. eauto.
        -- rewrite obj_get_set_ne by done. rewrite IHk. split.
           ++ intros (b & me' & ? & ?); eauto 6.
           ++ intros (b & me' & [?|[= -> -> ->]] & ?); [eauto|done].
      * intros b. setoid_rewrite elem_of_app.
        setoid_rewrite list_elem_of_singleton.
        destruct (decide (w = b)) as [->|Hne].
        -- rewrite obj_get_set_eq. split; [|eauto]. intros _.
           exists v, me. eauto.
        -- rewrite obj_get_set_ne by done. rewrite IHd. split.
           ++ intros (a & me' & ? & ?); eauto 6.
           ++ intros (a & me' & [?|[= -> -> ->]] & ?); [eauto|done].
      * rewrite obj_size_push, length_app. simpl. lia.
      * rewrite length_app. simpl.
        pose proof (obj_set_length v (default [] (obj_get succ v) ++ [w]) succ).
        lia.
Qed.

(** The queue starts with the true sources. *)
Lemma initial_queue_spec (g : Graph) (a : string) :
  a ∈ difference (obj_keys (collect_successors g).1)
        (obj_keys (collect_successors g).2)
  <-> true_source g a.
Proof.
  destruct (collect_successors_spec g) as [_ Hk Hd _ _].
  rewrite elem_of_difference_list. unfold obj_keys.
  rewrite !elem_of_own_keys, <- !obj_get_is_Some, Hk, Hd.
  unfold true_source, regular_edge. done.
Qed.

Lemma initial_queue_length (g : Graph) :
  length (difference (obj_keys (collect_successors g).1)
            (obj_keys (collect_successors g).2))
  <= length (graph_edges g).
Proof.
  destruct (collect_successors_spec g) as [_ _ _ _ Hlen].
  etrans; [apply difference_length|]. unfold obj_keys.
  rewrite own_keys_perm, length_map. done.
Qed.

(** Every round of the loop takes one name from the queue and moves a list
    of successors from the dictionary to the queue, so the loop ends. *)
Lemma traverse_terminates fuel :
  forall queue successors ordering i,
    length queue + obj_size successors <= fuel ->
    is_Some (traverse fuel queue successors ordering i).
Proof.
  induction fuel as [|fuel IH]; intros queue successors ordering i Hfuel.
  - destruct queue; simpl in *; [eauto|lia].
  - destruct queue as [|c queue]; simpl; [eauto|].
    apply IH. rewrite length_app. simpl in Hfuel.
    pose proof (obj_size_delete c successors). lia.
Qed.

Lemma traverse_more_fuel fuel :
  forall fuel' queue successors ordering i r,
    traverse fuel queue successors ordering i = Some r -> fuel <= fuel' ->
    traverse fuel' queue successors ordering i = Some r.
Proof.
  induction fuel as [|fuel IH]; intros fuel' queue successors ordering i r H Hle.
  - destruct queue; simpl in H; [|done]. by destruct fuel'.
  - destruct queue as [|c queue]; simpl in H.
    + by destruct fuel'.
    + destruct fuel' as [|fuel']; [lia|]. simpl. apply IH; [done|lia].
Qed.

(** The names that get a number are those that the loop reaches from the
    names of the first queue. *)
Section Traverse.
Variable successors0 : JsObject (list string).
Variable queue0 : list string.

Let E (a b : string) : Prop := b ∈ default [] (obj_get successors0 a).
Let R (x : string) : Prop := exists s, s ∈ queue0 /\ rtc E s x.

Record traversing (queue : list string) (successors : JsObject (list string))
  (ordering : gmap string nat) : Prop := {
  reached : forall x, x ∈ queue \/ is_Some (ordering !! x) -> R x;
  expanded : forall x y,
    is_Some (ordering !! x) -> E x y -> y ∈ queue \/ is_Some (ordering !! y);
  not_expanded : forall x,
    ordering !! x = None -> obj_get successors x = obj_get successors0 x;
  deleted : forall x, is_Some (ordering !! x) -> obj_get successors x = None;
  seeded : forall s, s ∈ queue0 -> s ∈ queue \/ is_Some (ordering !! s);
}.

Lemma traversing_step c queue successors ordering i :
  traversing (c :: queue) successors ordering ->
  traversing (queue ++ default [] (obj_get successors c))
    (obj_delete c successors) (<[c := i]> ordering).
Proof.
  intros [Hr He Hn Hd Hs].
  assert (Hc : R c) by (apply Hr; left; apply elem_of_cons; auto).
  split.
  - intros x [Hx|Hx].
    + apply elem_of_app in Hx as [Hx|Hx].
      * apply Hr. left. apply elem_of_cons. auto.
      * destruct (ordering !! c) as [j|] eqn:Hoc.
        -- rewrite Hd in Hx by eauto. by apply elem_of_nil in Hx.
        -- rewrite Hn in Hx by done. destruct Hc as (s & Hs0 & Hsc).
           exists s. split; [done|]. eapply rtc_r; eauto.
    + destruct (decide (c = x)) as [->|Hne]; [done|].
      rewrite lookup_insert_ne in Hx by done. auto.
  - intros x y Hx Hxy. destruct (decide (c = y)) as [->|Hcy].
    { right. rewrite lookup_insert_eq. eauto. }
    rewrite lookup_insert_ne by done.
    destruct (decide (c = x)) as [->|Hne].
    + destruct (ordering !! x) as [j|] eqn:Hox.
      * destruct (He x y) as [Hy|Hy]; eauto.
        apply elem_of_cons in Hy as [->|Hy]; [done|].
        left. apply elem_of_app. auto.
      * left. apply elem_of_app. right. rewrite Hn by done. exact Hxy.
    + rewrite lookup_insert_ne in Hx by done.
      destruct (He x y Hx Hxy) as [Hy|Hy]; [|auto].
      apply elem_of_cons in Hy as [->|Hy]; [done|].
      left. apply elem_of_app. auto.
  - intros x Hx. destruct (decide (c = x)) as [->|Hne].
    { by rewrite lookup_insert_eq in Hx. }
    rewrite lookup_insert_ne in Hx by done.
    rewrite obj_get_delete_ne by done. auto.
  - intros x Hx. destruct (decide (c = x)) as [->|Hne].
    { apply obj_get_delete_eq. }
    rewrite lookup_insert_ne in Hx by done.
    rewrite obj_get_delete_ne by done. auto.
  - intros s Hs0. destruct (decide (c = s)) as [->|Hne].
    { right. rewrite lookup_insert_eq. eauto. }
    rewrite lookup_insert_ne by done.
    destruct (Hs s Hs0) as [Hq|Ho]; [|auto].
    apply elem_of_cons in Hq as [->|Hq]; [done|].
    left. apply elem_of_app. auto.
Qed.

Lemma traverse_reaches fuel :
  forall queue successors ordering i r,
    traversing queue successors ordering ->
    traverse fuel queue successors ordering i = Some r ->
    forall x, is_Some (r !! x) <-> R x.
Proof.
  induction fuel as [|fuel IH]; intros queue successors ordering i r Hinv H x.
  - destruct queue as [|c queue]; simpl in H; [|done].
    inversion H; subst. clear H. destruct Hinv as [Hr He _ _ Hs]. split.
    + auto.
    + intros (s & Hs0 & Hsx).
      assert (Hos : is_Some (r !! s)).
      { destruct (Hs s Hs0) as [Hq|?]; [by apply elem_of_nil in Hq|done]. }
      clear Hs0. induction Hsx as [|a b c Hab Hbc IHrtc]; [done|].
      apply IHrtc. destruct (He a b Hos Hab) as [Hq|?]; [|done].
      by apply elem_of_nil in Hq.
  - destruct queue as [|c queue]; simpl in H.
    + apply (IH [] successors ordering i r Hinv). by destruct fuel.
    + eapply IH; [|exact H]. by apply traversing_step.
Qed.
End Traverse.

Lemma getTopologicalOrdering_more_fuel fuel fuel' nodeName h r h' :
  getTopologicalOrdering fuel nodeName h = (Returned r, h') -> fuel <= fuel' ->
  getTopologicalOrdering fuel' nodeName h = (Returned r, h').
Proof.
  unfold getTopologicalOrdering, bind, get. intros H Hle.
  destruct (node h nodeName) as [[o|g]|]; try done.
  destruct (orderings h !! nodeName); [done|].
  destruct (traverse fuel _ _ _ _) as [o|] eqn:Ht; [|done].
  by rewrite (traverse_more_fuel _ _ _ _ _ _ _ Ht Hle).
Qed.


(** [tauto] with the parameters of the development out of the context, so
    that a proof does not come to depend on one that it does not use. *)
Ltac tauto_here :=
  try clear computeSizeOfEdge; try clear getSeriesNodeName;
  try clear cluster_number; try clear FUNCTION_LIBRARY_NODE_PREFIX;
  try clear inputs;
  tauto.

(** ** addEdges: the lowest common container *)

Lemma find_edge_put_edge_eq v w me es :
  find_edge (put_edge v w me es) v w = Some me.
Proof.
  induction es as [|[[v' w'] me'] es IH]; simpl.
  - by rewrite !String.eqb_refl.
  - destruct (String.eqb v' v && String.eqb w' w) eqn:E; simpl.
    + by rewrite !String.eqb_refl.
    + by rewrite E.
Qed.

Lemma find_edge_put_edge_ne v w me es x y :
  (x, y) <> (v, w) -> find_edge (put_edge v w me es) x y = find_edge es x y.
Proof.
  intros Hne.
  assert (Hvw : String.eqb v x && String.eqb w y = false).
  { apply andb_false_iff.
    destruct (String.eqb_spec v x) as [->|?]; [|auto].
    destruct (String.eqb_spec w y) as [->|?]; [|auto]. done. }
  induction es as [|[[v' w'] me'] es IH]; simpl.
  - by rewrite Hvw.
  - destruct (String.eqb v' v && String.eqb w' w) eqn:E; simpl.
    + rewrite Hvw. apply andb_true_iff in E as [->%String.eqb_eq ->%String.eqb_eq].
      by rewrite Hvw.
    + by rewrite IH.
Qed.

Lemma edge_setEdge_eq v w me g : edge (setEdge v w me g) v w = Some me.
Proof. apply find_edge_put_edge_eq. Qed.

Lemma edge_setEdge_ne v w me g x y :
  (x, y) <> (v, w) -> edge (setEdge v w me g) x y = edge g x y.
Proof. apply find_edge_put_edge_ne. Qed.

Lemma take_S_array_set i x path :
  i <= length path -> take (S i) (array_set i x path) = take i path ++ [x].
Proof.
  intros Hi. unfold array_set. destruct (Nat.ltb_spec i (length path)).
  - rewrite (take_S_r _ _ x) by (by apply list_lookup_insert_eq).
    by rewrite take_insert_ge by lia.
  - assert (i = length path) as -> by lia.
    rewrite take_ge by (rewrite length_app; simpl; lia).
    by rewrite take_ge by lia.
Qed.

Lemma drop_array_set i k x path :
  i <= length path -> i < k -> drop k (array_set i x path) = drop k path.
Proof.
  intros Hi Hk. unfold array_set. destruct (Nat.ltb_spec i (length path)).
  - by rewrite drop_insert_lt by lia.
  - rewrite !drop_ge; [done|lia|rewrite length_app; simpl; lia].
Qed.

Lemma length_array_set i x path :
  i <= length path -> S i <= length (array_set i x path).
Proof.
  intros Hi. unfold array_set. destruct (Nat.ltb_spec i (length path)).
  - rewrite length_insert. lia.
  - rewrite length_app. simpl. lia.
Qed.

(** [getPath] writes the ancestors over the head of the buffer. *)
Lemma getPath_loop_ancestors fuel :
  forall h ref c i path,
    ancestors fuel h ref = Some c -> i <= length path ->
    getPath_loop fuel h (ref ≫= node h) i path
    = Some (i + length c, take i path ++ c ++ drop (i + length c) path).
Proof.
  induction fuel as [|fuel IH]; intros h ref c i path Hc Hi.
  - destruct ref as [n|]; simpl in *.
    + destruct (node h n); [done|]. injection Hc as <-. simpl.
      by rewrite Nat.add_0_r, take_drop.
    + injection Hc as <-. simpl. by rewrite Nat.add_0_r, take_drop.
  - destruct ref as [n|]; simpl in *.
    + destruct (node h n) as [x|] eqn:Hn.
      * destruct (ancestors fuel h (node_parentNode x)) as [up|] eqn:Hup;
          [|done].
        injection Hc as <-. unfold parentNode_of.
        specialize (IH h (node_parentNode x) up (S i)
                      (array_set i (node_name x) path) Hup
                      (length_array_set _ _ _ Hi)).
        replace (match node_parentNode x with
                 | Some p => node h p
                 | None => None
                 end) with (node_parentNode x ≫= node h)
          by (by destruct (node_parentNode x)).
        rewrite IH. rewrite take_S_array_set by done.
        rewrite drop_array_set by (done || lia).
        f_equal. f_equal; [simpl; lia|].
        rewrite <- app_assoc. simpl. do 3 f_equal.
        by rewrite Nat.add_succ_r.
      * injection Hc as <-. simpl. by rewrite Nat.add_0_r, take_drop.
    + injection Hc as <-. simpl. by rewrite Nat.add_0_r, take_drop.
Qed.

Lemma getPath_ancestors fuel h ref c path :
  ancestors fuel h ref = Some c ->
  getPath fuel h (ref ≫= node h) path
  = Some (length c, c ++ drop (length c) path).
Proof.
  intros Hc. unfold getPath.
  rewrite (getPath_loop_ancestors fuel h ref c 0 path Hc) by lia. done.
Qed.

Lemma getPath_ancestors_node fuel h n c path :
  ancestors fuel h (Some n) = Some c ->
  getPath fuel h (node h n) path = Some (length c, c ++ drop (length c) path).
Proof. apply (getPath_ancestors fuel h (Some n)). Qed.

(** The search stops at the two children below the common part. *)
Lemma find_difference_spec xs ys a b common js jd :
  a <> b ->
  find_difference (xs ++ a :: common ++ js) (ys ++ b :: common ++ jd)
    (length xs + length common) (length ys + length common)
  = Some (length xs, length ys).
Proof.
  intros Hab. revert js jd.
  induction common as [|r common IH] using rev_ind; intros js jd.
  - simpl. rewrite !Nat.add_0_r.
    assert (Hne : (xs ++ a :: js) !! length xs <> (ys ++ b :: jd) !! length ys).
    { rewrite !list_lookup_middle by done. congruence. }
    destruct (length xs), (length ys); simpl; by rewrite decide_False.
  - rewrite !length_app. simpl.
    replace (length xs + (length common + 1)) with (S (length xs + length common))
      by lia.
    replace (length ys + (length common + 1)) with (S (length ys + length common))
      by lia.
    simpl.
    assert (Heq : (xs ++ a :: (common ++ [r]) ++ js)
                    !! S (length xs + length common)
                  = (ys ++ b :: (common ++ [r]) ++ jd)
                      !! S (length ys + length common)).
    { rewrite !lookup_app_r by lia.
      replace (S (length xs + length common) - length xs)
        with (S (length common)) by lia.
      replace (S (length ys + length common) - length ys)
        with (S (length common)) by lia.
      simpl. rewrite <- !app_assoc. simpl.
      by rewrite !list_lookup_middle by done. }
    rewrite decide_True by done.
    specialize (IH ([r] ++ js) ([r] ++ jd)).
    rewrite <- !app_assoc. exact IH.
Qed.

Lemma ancestors_same_shape h h' :
  same_shape h h' ->
  forall fuel ref, ancestors fuel h' ref = ancestors fuel h ref.
Proof.
  intros Hshape fuel. induction fuel as [|fuel IH]; intros [n|]; simpl; try done.
  - specialize (Hshape n). by destruct (node h n), (node h' n).
  - specialize (Hshape n).
    destruct (node h n) as [x|], (node h' n) as [x'|]; try done.
    destruct Hshape as [-> ->]. by rewrite IH.
Qed.

Lemma same_shape_update_group n f h :
  (forall g, name (f g) = name g /\ parentNode (f g) = parentNode g) ->
  same_shape h (update_group n f h).
Proof.
  intros Hf m. unfold node, update_group. simpl.
  destruct (decide (n = m)) as [->|Hne].
  - rewrite lookup_alter_eq. destruct (index h !! m) as [[o|g]|]; simpl; try done.
    destruct (Hf g) as [-> ->]. done.
  - rewrite lookup_alter_ne by done. by destruct (index h !! m).
Qed.

Lemma metaedge_at_update_metagraph P f h g Q x y :
  node h P = Some (Group g) ->
  metaedge_at (update_group P f h) Q x y
  = if decide (P = Q) then edge (metagraph (f g)) x y else metaedge_at h Q x y.
Proof.
  intros HP. unfold metaedge_at. destruct (decide (P = Q)) as [<-|Hne].
  - by rewrite (node_update_group_eq _ _ _ _ HP).
  - by rewrite node_update_group_ne.
Qed.

(** What the loop body of [addEdges] does for an edge whose ancestor paths
    part below the container [P], at the children [a] and [b]. *)
Lemma addEdge_at (fuel : nat) (graph : SlimGraph) (e : BaseEdge) (s : EdgeState)
  (P a b : string) (gP : GroupNode) (sv sw up : list string) :
  obj_has (edge_v e) (slim_nodes graph) = true ->
  obj_has (edge_w e) (slim_nodes graph) = true ->
  ancestors fuel (es_hierarchy s) (Some (edge_v e)) = Some (sv ++ a :: P :: up) ->
  ancestors fuel (es_hierarchy s) (Some (edge_w e)) = Some (sw ++ b :: P :: up) ->
  a <> b ->
  node (es_hierarchy s) P = Some (Group gP) ->
  exists s',
    addEdge fuel graph e s = (Returned tt, s')
    /\ baseEdges_at (es_hierarchy s') P a b
       = baseEdges_at (es_hierarchy s) P a b ++ [e]
    /\ (forall Q x y, (Q, x, y) <> (P, a, b) ->
          metaedge_at (es_hierarchy s') Q x y
          = metaedge_at (es_hierarchy s) Q x y)
    /\ same_shape (es_hierarchy s) (es_hierarchy s')
    /\ (exists gP', node (es_hierarchy s') P = Some (Group gP')).
Proof.
  intros Hv Hw Hsrc Hdst Hab HP. unfold addEdge, slim_node.
  rewrite Hv, Hw.
  rewrite (getPath_ancestors_node fuel _ (edge_v e) _ (sourcePath s) Hsrc).
  rewrite (getPath_ancestors_node fuel _ (edge_w e) _ (destPath s) Hdst).
  rewrite !length_app. simpl.
  replace (length sv + S (S (length up))) with (S (length sv + length (P :: up)))
    by (simpl; lia).
  replace (length sw + S (S (length up))) with (S (length sw + length (P :: up)))
    by (simpl; lia).
  rewrite <- !app_assoc.
  change ((a :: P :: up) ++ ?j) with (a :: (P :: up) ++ j).
  change ((b :: P :: up) ++ ?j) with (b :: (P :: up) ++ j).
  rewrite find_difference_spec by done.
  rewrite (list_lookup_middle sv _ a (length sv)) by done.
  rewrite (list_lookup_middle sw _ b (length sw)) by done.
  replace ((sv ++ a :: (P :: up) ++ drop (S (length sv + length (P :: up)))
              (sourcePath s)) !! S (length sv)) with (Some P).
  2:{ rewrite (cons_middle a sv), app_assoc.
      symmetry. apply list_lookup_middle. rewrite length_app. simpl. lia. }
  simpl. rewrite HP.
  unfold lift_hierarchy, bind, addBaseEdge, modify. simpl.
  eexists. split; [reflexivity|]. simpl.
  set (h := es_hierarchy s) in *.
  set (old := match edge (metagraph gP) a b with
              | Some me => me
              | None => createMetaedge a b
              end).
  set (h0 := set_maxMetaEdgeSize _ h).
  assert (HP0 : node h0 P = Some (Group gP)) by done.
  split; [|split; [|split]].
  - unfold baseEdges_at.
    rewrite (metaedge_at_update_metagraph _ _ _ _ _ _ _ HP0).
    rewrite decide_True by done.
    replace (edge _ a b) with
      (Some {| metaedge_v := metaedge_v old; metaedge_w := metaedge_w old;
               baseEdgeList := baseEdgeList old ++ [e];
               inbound := inbound old;
               numRegularEdges :=
                 numRegularEdges old + (if isControlDependency e then 0 else 1);
               totalSize := totalSize old + computeSizeOfEdge e |}).
    2:{ symmetry. destruct (_ && _); simpl; apply edge_setEdge_eq. }
    simpl. unfold metaedge_at. fold h. rewrite HP. unfold old.
    by destruct (edge (metagraph gP) a b).
  - intros Q x y Hne.
    rewrite (metaedge_at_update_metagraph _ _ _ _ _ _ _ HP0).
    destruct (decide (P = Q)) as [<-|HPQ]; [|done].
    unfold metaedge_at. rewrite HP.
    assert (Hxy : (x, y) <> (a, b)) by congruence.
    destruct (_ && _); simpl; by apply edge_setEdge_ne.
  - eapply (same_shape_update_group P _ h0).
    intros g. by destruct (_ && _).
  - eexists. by apply node_update_group_eq.
Qed.

(** X1: a raw edge whose endpoints are leaves of the flat graph and
    whose ancestor paths part below a common container [P], at two different
    children [a] and [b] of [P], is attached to the Metaedge from [a] to [b]
    of the metagraph of [P] and to no other Metaedge: its base-edge list
    gets the edge at its end, and every other Metaedge of every container is
    as before.  A second edge between the same children of the same
    container joins the same Metaedge, whose list then ends with both. *)
Theorem addEdge_at_lowest_common_container (fuel : nat) (graph : SlimGraph)
  (e : BaseEdge) (s : EdgeState) (P a b : string) (gP : GroupNode)
  (sv sw up : list string)
  (Hv : obj_has (edge_v e) (slim_nodes graph) = true)
  (Hw : obj_has (edge_w e) (slim_nodes graph) = true)
  (Hsource : ancestors fuel (es_hierarchy s) (Some (edge_v e))
             = Some (sv ++ a :: P :: up))
  (Hdest : ancestors fuel (es_hierarchy s) (Some (edge_w e))
           = Some (sw ++ b :: P :: up))
  (Hab : a <> b)
  (HP : node (es_hierarchy s) P = Some (Group gP)) :
  exists s1,
    addEdge fuel graph e s = (Returned tt, s1)
    /\ baseEdges_at (es_hierarchy s1) P a b
       = baseEdges_at (es_hierarchy s) P a b ++ [e]
    /\ (forall Q x y, (Q, x, y) <> (P, a, b) ->
          metaedge_at (es_hierarchy s1) Q x y
          = metaedge_at (es_hierarchy s) Q x y)
    /\ (forall e2 sv2 sw2,
          obj_has (edge_v e2) (slim_nodes graph) = true ->
          obj_has (edge_w e2) (slim_nodes graph) = true ->
          ancestors fuel (es_hierarchy s) (Some (edge_v e2))
          = Some (sv2 ++ a :: P :: up) ->
          ancestors fuel (es_hierarchy s) (Some (edge_w e2))
          = Some (sw2 ++ b :: P :: up) ->
          exists s2,
            addEdge fuel graph e2 s1 = (Returned tt, s2)
            /\ baseEdges_at (es_hierarchy s2) P a b
               = baseEdges_at (es_hierarchy s) P a b ++ [e; e2]
            /\ (forall Q x y, (Q, x, y) <> (P, a, b) ->
                  metaedge_at (es_hierarchy s2) Q x y
                  = metaedge_at (es_hierarchy s) Q x y)).
Proof.
  destruct (addEdge_at fuel graph e s P a b gP sv sw up Hv Hw Hsource Hdest
              Hab HP) as (s1 & Hrun1 & Hlist1 & Hother1 & Hshape & gP1 & HP1).
  exists s1. split; [done|]. split; [done|]. split; [done|].
  intros e2 sv2 sw2 Hv2 Hw2 Hsource2 Hdest2.
  rewrite <- (ancestors_same_shape _ _ Hshape) in Hsource2, Hdest2.
  destruct (addEdge_at fuel graph e2 s1 P a b gP1 sv2 sw2 up Hv2 Hw2 Hsource2
              Hdest2 Hab HP1) as (s2 & Hrun2 & Hlist2 & Hother2 & _).
  exists s2. split; [done|]. split.
  - rewrite Hlist2, Hlist1, <- app_assoc. done.
  - intros Q x y Hne. rewrite Hother2, Hother1; done.
Qed.

(** ** groupSeries *)

Lemma SeriesState_eta s :
  mkSeriesState (ss_hierarchy s) (seriesNames s) (series_map s) = s.
Proof. by destruct s. Qed.

Lemma node_update_op_eq n f h o :
  node h n = Some (Op o) -> node (update_op n f h) n = Some (Op (f o)).
Proof.
  unfold node, update_op. simpl. intros H. by rewrite lookup_alter_eq, H.
Qed.

Lemma node_update_op_ne n m f h :
  n <> m -> node (update_op n f h) m = node h m.
Proof.
  unfold node, update_op. simpl. intros H. by rewrite lookup_alter_ne.
Qed.

Lemma hasNode_elem_of g n : hasNode g n = true <-> n ∈ graph_nodes g.
Proof.
  unfold hasNode. rewrite existsb_exists. split.
  - intros (x & Hx & ->%String.eqb_eq). by apply list_elem_of_In.
  - intros Hn. exists n. split; [by apply list_elem_of_In|apply String.eqb_refl].
Qed.

Lemma elem_of_setNode n m g :
  m ∈ graph_nodes (setNode n g) <-> m = n \/ m ∈ graph_nodes g.
Proof.
  unfold setNode. destruct (hasNode g n) eqn:Hn.
  - apply hasNode_elem_of in Hn. split; [auto|]. by intros [->|?].
  - simpl. rewrite elem_of_app, list_elem_of_singleton. tauto_here.
Qed.

Lemma elem_of_removeNode n m g :
  m ∈ graph_nodes (removeNode n g) <-> m <> n /\ m ∈ graph_nodes g.
Proof.
  unfold removeNode. simpl.
  rewrite list_elem_of_In, filter_In, <- list_elem_of_In, negb_true_iff.
  destruct (String.eqb_spec m n); split; intros [? ?]; done.
Qed.

(** The first loop: every member gets its stamp and nothing else changes. *)
Lemma stamp_member_spec ref seriesName n s c o :
  node (ss_hierarchy s) ref = Some (Group c) ->
  hasNode (metagraph c) n = true ->
  node (ss_hierarchy s) n = Some (Op o) ->
  exists h',
    stamp_member ref seriesName n s
    = (Returned tt, mkSeriesState h' (seriesNames s) (series_map s))
    /\ (forall m, node h' m
                  = if decide (m = n)
                    then Some (Op (set_owningSeries (stamped seriesName o) o))
                    else node (ss_hierarchy s) m).
Proof.
  intros Href Hhas Hn.
  unfold stamp_member, bind, metagraph_of, get, graph_node.
  rewrite Href, Hhas, Hn. unfold stamped.
  destruct (owningSeries o) as [[|a r]|] eqn:Ho.
  - eexists. split; [reflexivity|]. intros m. simpl.
    destruct (decide (m = n)) as [->|Hne].
    + by apply node_update_op_eq.
    + by apply node_update_op_ne.
  - exists (ss_hierarchy s). rewrite SeriesState_eta. split; [done|].
    intros m. destruct (decide (m = n)) as [->|Hne]; [|done].
    rewrite Hn. do 2 f_equal. destruct o. simpl in *. by subst.
  - eexists. split; [reflexivity|]. intros m. simpl.
    destruct (decide (m = n)) as [->|Hne].
    + by apply node_update_op_eq.
    + by apply node_update_op_ne.
Qed.

Lemma stamped_idem seriesName o :
  stamped seriesName (set_owningSeries (stamped seriesName o) o)
  = stamped seriesName o.
Proof.
  unfold stamped.
  by destruct o as [? ? ? ? ? ? ? ? ? ? [[|a r]|]], seriesName.
Qed.

Lemma stamp_loop_spec ref seriesName c L :
  forall s,
    node (ss_hierarchy s) ref = Some (Group c) ->
    (forall n, n ∈ L ->
       hasNode (metagraph c) n = true
       /\ exists o, node (ss_hierarchy s) n = Some (Op o)) ->
    exists h',
      each L (stamp_member ref seriesName) s
      = (Returned tt, mkSeriesState h' (seriesNames s) (series_map s))
      /\ (forall m, node h' m = stamp_node seriesName L m (node (ss_hierarchy s) m)).
Proof.
  induction L as [|n L IH]; intros s Href HL.
  - exists (ss_hierarchy s). rewrite SeriesState_eta. split; [done|].
    intros m. unfold stamp_node.
    destruct (node (ss_hierarchy s) m) as [[o|g]|]; try done;
      rewrite decide_False; done || apply not_elem_of_nil.
  - destruct (HL n) as (Hhas & o & Hn); [apply elem_of_cons; auto|].
    destruct (stamp_member_spec ref seriesName n s c o Href Hhas Hn)
      as (h0 & Hrun0 & Hnode0).
    rewrite each_cons. unfold bind. rewrite Hrun0.
    destruct (IH (mkSeriesState h0 (seriesNames s) (series_map s)))
      as (h1 & Hrun1 & Hnode1).
    + simpl. rewrite Hnode0. rewrite decide_False; [done|]. congruence.
    + intros m Hm. destruct (HL m) as (Hhasm & om & Hom);
        [apply elem_of_cons; auto|].
      split; [done|]. simpl. rewrite Hnode0.
      destruct (decide (m = n)) as [->|Hne]; eauto.
    + exists h1. split; [exact Hrun1|]. intros m. rewrite Hnode1. simpl.
      rewrite Hnode0. unfold stamp_node.
      destruct (decide (m = n)) as [->|Hne].
      * rewrite Hn. rewrite (decide_True (P := n ∈ n :: L))
          by (apply elem_of_cons; auto).
        destruct (decide (n ∈ L)); [|done].
        rewrite stamped_idem. by destruct o.
      * destruct (node (ss_hierarchy s) m) as [[om|gm]|]; try done.
        destruct (decide (m ∈ L)) as [Hin|Hnin].
        -- rewrite decide_True; [done|]. apply elem_of_cons. auto.
        -- rewrite decide_False; [done|]. intros [?|?]%elem_of_cons; done.
Qed.

(** The second loop, for one member. *)
Lemma splice_member_spec ref seriesName n s c sn child :
  node (ss_hierarchy s) ref = Some (Group c) ->
  node (ss_hierarchy s) seriesName = Some (Group sn) ->
  hasNode (metagraph c) n = true ->
  node (ss_hierarchy s) n = Some child ->
  n <> ref -> n <> seriesName -> seriesName <> ref ->
  exists h',
    splice_member ref seriesName n s
    = (Returned tt,
       mkSeriesState h' (<[n := seriesName]> (seriesNames s)) (series_map s))
    /\ node h' ref
       = Some (Group (set_metagraph (removeNode n (metagraph c)) c))
    /\ node h' seriesName = Some (Group (absorb_member n child sn))
    /\ node h' n = Some (set_node_parentNode (Some seriesName) child)
    /\ (forall m, m <> ref -> m <> seriesName -> m <> n ->
          node h' m = node (ss_hierarchy s) m).
Proof.
  intros Href Hseries Hhas Hn Hnref Hnseries Hsref.
  unfold splice_member, bind, metagraph_of, get, graph_node, modify.
  rewrite Href, Hhas, Hn. simpl.
  eexists. split; [reflexivity|].
  set (h := ss_hierarchy s) in *.
  set (h1 := update_group seriesName (absorb_member n child) h).
  set (h2 := set_index (alter (set_node_parentNode (Some seriesName)) n
                          (index h1)) h1).
  assert (H2 : forall m, node h2 m
                 = if decide (m = n)
                   then set_node_parentNode (Some seriesName) <$> node h1 m
                   else node h1 m).
  { intros m. unfold node, h2. simpl. destruct (decide (m = n)) as [->|Hne].
    - by rewrite lookup_alter_eq.
    - by rewrite lookup_alter_ne. }
  split; [|split; [|split]].
  - erewrite node_update_group_eq; [reflexivity|].
    rewrite H2, decide_False by done.
    unfold h1. by rewrite node_update_group_ne.
  - rewrite node_update_group_ne by done. rewrite H2, decide_False by done.
    unfold h1. by erewrite node_update_group_eq.
  - rewrite node_update_group_ne by done. rewrite H2, decide_True by done.
    unfold h1. rewrite node_update_group_ne by done. by rewrite Hn.
  - intros m Hmref Hmseries Hmn.
    rewrite node_update_group_ne by done. rewrite H2, decide_False by done.
    unfold h1. by rewrite node_update_group_ne.
Qed.

Lemma children_of_group h ref g :
  node h ref = Some (Group g) -> children_of h ref = graph_nodes (metagraph g).
Proof. unfold children_of. by intros ->. Qed.

Lemma absorb_member_children n child sn m :
  m ∈ graph_nodes (metagraph (absorb_member n child sn))
  <-> m = n \/ m ∈ graph_nodes (metagraph sn).
Proof.
  unfold absorb_member.
  destruct (node_device child), (node_xlaCluster child); simpl;
    apply elem_of_setNode.
Qed.

(** The second loop over the members [L]. *)
Lemma splice_loop_spec ref seriesName L :
  seriesName <> ref ->
  NoDup L ->
  forall s,
    is_Some (node (ss_hierarchy s) ref ≫= fun x =>
             match x with Group g => Some g | Op _ => None end) ->
    is_Some (node (ss_hierarchy s) seriesName ≫= fun x =>
             match x with Group g => Some g | Op _ => None end) ->
    (forall n, n ∈ L ->
       n ∈ children_of (ss_hierarchy s) ref
       /\ is_Some (node (ss_hierarchy s) n) /\ n <> ref /\ n <> seriesName) ->
    exists s',
      each L (splice_member ref seriesName) s = (Returned tt, s')
      /\ (forall m, m ∈ children_of (ss_hierarchy s') ref
                    <-> m ∈ children_of (ss_hierarchy s) ref /\ m ∉ L)
      /\ (forall m, m ∈ children_of (ss_hierarchy s) seriesName \/ m ∈ L ->
                    m ∈ children_of (ss_hierarchy s') seriesName)
      /\ (forall n, n ∈ L ->
            node (ss_hierarchy s') n
            = set_node_parentNode (Some seriesName) <$> node (ss_hierarchy s) n
            /\ seriesNames s' !! n = Some seriesName)
      /\ (forall m, m ∉ L -> m <> ref -> m <> seriesName ->
            node (ss_hierarchy s') m = node (ss_hierarchy s) m)
      /\ (forall m, m ∉ L -> seriesNames s' !! m = seriesNames s !! m)
      /\ series_map s' = series_map s
      /\ (forall sn, node (ss_hierarchy s) seriesName = Some (Group sn) ->
            exists g, node (ss_hierarchy s') seriesName = Some (Group g)
                      /\ type g = type sn /\ ids g = ids sn).
Proof.
  intros Hsref Hnodup. induction L as [|n L IH]; intros s Href Hseries HL.
  - exists s. split; [done|].
    split; [|split; [|split; [|split; [|split; [|split]]]]]; try done.
    4:{ intros sn Hsn. eauto. }
    + intros m. split; [|tauto_here]. intros ?. split; [done|apply not_elem_of_nil].
    + intros m [?|?%elem_of_nil]; done.
    + intros m ?%elem_of_nil. done.
  - apply NoDup_cons in Hnodup as [HnL Hnodup].
    destruct (node (ss_hierarchy s) ref) as [[?|c]|] eqn:Hc;
      try (by destruct Href).
    destruct (node (ss_hierarchy s) seriesName) as [[?|sn]|] eqn:Hsn;
      try (by destruct Hseries).
    destruct (HL n) as (Hchild & [child Hn] & Hnref & Hnseries);
      [apply elem_of_cons; auto|].
    rewrite (children_of_group _ _ _ Hc) in Hchild.
    destruct (splice_member_spec ref seriesName n s c sn child Hc Hsn
                (proj2 (hasNode_elem_of _ _) Hchild) Hn Hnref Hnseries Hsref)
      as (h1 & Hrun1 & Href1 & Hseries1 & Hn1 & Hother1).
    set (s1 := mkSeriesState h1 (<[n := seriesName]> (seriesNames s))
                 (series_map s)) in *.
    destruct (IH Hnodup s1) as (s' & Hrun & P1 & P2 & P3 & P4 & P5 & P6 & P7).
    { unfold s1. cbn [ss_hierarchy]. rewrite Href1. simpl. eauto. }
    { unfold s1. cbn [ss_hierarchy]. rewrite Hseries1. simpl. eauto. }
    { intros m Hm. destruct (HL m) as (Hmchild & Hmnode & Hmref & Hmseries);
        [apply elem_of_cons; auto|].
      assert (Hmn : m <> n) by congruence.
      unfold s1. cbn [ss_hierarchy].
      rewrite (children_of_group _ _ _ Href1). cbn [metagraph set_metagraph].
      rewrite elem_of_removeNode. rewrite (children_of_group _ _ _ Hc) in Hmchild.
      rewrite Hother1 by done. done. }
    exists s'. rewrite each_cons. unfold bind. rewrite Hrun1.
    split; [exact Hrun|]. unfold s1 in *. cbn [ss_hierarchy seriesNames series_map] in *.
    split; [|split; [|split; [|split; [|split; [|split]]]]].
    + intros m. rewrite P1, (children_of_group _ _ _ Href1),
        (children_of_group _ _ _ Hc). cbn [metagraph set_metagraph].
      rewrite elem_of_removeNode, not_elem_of_cons. tauto_here.
    + intros m Hm. apply P2.
      rewrite (children_of_group _ _ _ Hseries1), absorb_member_children.
      rewrite (children_of_group _ _ _ Hsn) in Hm.
      rewrite elem_of_cons in Hm. tauto_here.
    + intros m [->|Hm]%elem_of_cons.
      * rewrite P4 by done. rewrite P5 by done. rewrite Hn1, Hn.
        split; [done|]. apply lookup_insert_eq.
      * destruct (P3 m Hm) as [-> ->]. split; [|done]. f_equal.
        destruct (HL m) as (_ & _ & Hmref & Hmseries);
          [apply elem_of_cons; auto|].
        apply Hother1; congruence.
    + intros m [Hmn HmL]%not_elem_of_cons Hmref Hmseries.
      rewrite P4 by done. by apply Hother1.
    + intros m [Hmn HmL]%not_elem_of_cons. rewrite P5 by done.
      by rewrite lookup_insert_ne.
    + done.
    + intros sn0 [= <-]. destruct (P7 _ Hseries1) as (g & Hg & Htype & Hids).
      exists g. split; [done|]. rewrite Htype, Hids. unfold absorb_member.
      by destruct (node_device child), (node_xlaCluster child).
Qed.

Lemma not_ungrouped {A} (x : option SeriesGroupingType) (a b : A) :
  x <> Some UNGROUP ->
  match x with Some UNGROUP => a | _ => b end = b.
Proof. by destruct x as [[|]|]. Qed.

(** What the loop body of [groupSeries] does for a series whose members are
    leaves among the children of the container. *)
Lemma groupSeries_series_effect (ref : string) (threshold : Z)
  (seriesName : string) (seriesNode c : GroupNode) (s : SeriesState)
  (Hname : name seriesNode = seriesName)
  (Hcontainer : node (ss_hierarchy s) ref = Some (Group c))
  (Hmembers : forall n, n ∈ nodes (metagraph seriesNode) ->
                hasNode (metagraph c) n = true
                /\ exists o, node (ss_hierarchy s) n = Some (Op o))
  (Hnodup : NoDup (nodes (metagraph seriesNode)))
  (Hfresh : seriesName ∉ nodes (metagraph seriesNode))
  (Hother : seriesName <> ref) :
  exists s',
    groupSeries_series ref threshold (seriesName, seriesNode) s
    = (Returned tt, s')
    /\ series_map s'
       = (if (Z.of_nat (length (nodes (metagraph seriesNode))) <? threshold)%Z
             && negb (bool_decide (is_Some (series_map s !! seriesName)))
          then <[seriesName := UNGROUP]> (series_map s)
          else series_map s)
    /\ (forall m, m ∉ nodes (metagraph seriesNode) -> m <> ref ->
          m <> seriesName -> node (ss_hierarchy s') m = node (ss_hierarchy s) m)
    /\ (forall n o, n ∈ nodes (metagraph seriesNode) ->
          node (ss_hierarchy s) n = Some (Op o) ->
          exists o', node (ss_hierarchy s') n = Some (Op o')
                     /\ owningSeries o' = stamped seriesName o)
    /\ (series_map s' !! seriesName = Some UNGROUP ->
        children_of (ss_hierarchy s') ref = children_of (ss_hierarchy s) ref
        /\ (forall n, n ∈ nodes (metagraph seriesNode) ->
              parent_ref (ss_hierarchy s') n = parent_ref (ss_hierarchy s) n)
        /\ node (ss_hierarchy s') seriesName = node (ss_hierarchy s) seriesName
        /\ seriesNames s' = seriesNames s)
    /\ (series_map s' !! seriesName <> Some UNGROUP ->
        (forall n, n ∈ nodes (metagraph seriesNode) ->
           (n ∉ children_of (ss_hierarchy s') ref)
           /\ n ∈ children_of (ss_hierarchy s') seriesName
           /\ parent_ref (ss_hierarchy s') n = Some seriesName
           /\ seriesNames s' !! n = Some seriesName)
        /\ seriesName ∈ children_of (ss_hierarchy s') ref
        /\ (exists g, node (ss_hierarchy s') seriesName = Some (Group g)
                      /\ type g = type seriesNode /\ ids g = ids seriesNode)
        /\ (forall m, m ∈ children_of (ss_hierarchy s) ref ->
              m ∉ nodes (metagraph seriesNode) ->
              m ∈ children_of (ss_hierarchy s') ref)).
Proof.
  set (members := nodes (metagraph seriesNode)) in *.
  destruct (stamp_loop_spec ref seriesName c members s Hcontainer Hmembers)
    as (h1 & Hrun1 & Hnode1).
  assert (Href1 : node h1 ref = Some (Group c)).
  { rewrite Hnode1, Hcontainer. done. }
  assert (Hmember1 : forall n o, n ∈ members ->
            node (ss_hierarchy s) n = Some (Op o) ->
            node h1 n = Some (Op (set_owningSeries (stamped seriesName o) o))).
  { intros n o Hn Ho. rewrite Hnode1, Ho. simpl. by rewrite decide_True. }
  assert (Hseries1 : node h1 seriesName = node (ss_hierarchy s) seriesName).
  { rewrite Hnode1. unfold stamp_node.
    destruct (node (ss_hierarchy s) seriesName) as [[o|g]|]; try done.
    by rewrite decide_False. }
  unfold groupSeries_series. cbn [fst snd]. fold members. rewrite !Hname.
  unfold bind at 1. rewrite Hrun1.
  unfold bind at 1. unfold modify at 1.
  set (rule := (Z.of_nat (length members) <? threshold)%Z
               && negb (bool_decide (is_Some (series_map s !! seriesName)))).
  set (map2 := if rule then <[seriesName := UNGROUP]> (series_map s)
               else series_map s).
  set (s2 := mkSeriesState h1 (seriesNames s) map2).
  cbn [ss_hierarchy seriesNames series_map].
  match goal with
  | |- context [if ?b then ?x else ?y] => replace (if b then x else y) with s2
  end.
  2:{ unfold s2, map2, rule. by destruct (_ && _). }
  unfold bind at 1. unfold get at 1.
  cbn [series_map s2].
  assert (Hstamps2 : forall n o, n ∈ members ->
            node (ss_hierarchy s) n = Some (Op o) ->
            parent_ref h1 n = parent_ref (ss_hierarchy s) n).
  { intros n o Hn Ho. unfold parent_ref.
    rewrite (Hmember1 n o Hn Ho), Ho. done. }
  destruct (decide (map2 !! seriesName = Some UNGROUP)) as [Hmap|Hmap].
  { (* ungrouped *)
    rewrite Hmap. exists s2. split; [done|]. split; [done|]. split.
    { intros m Hm Hmref Hmseries. cbn [ss_hierarchy s2]. rewrite Hnode1.
      unfold stamp_node.
      destruct (node (ss_hierarchy s) m) as [[o|g]|]; try done.
      by rewrite decide_False. }
    split.
    { intros n o Hn Ho. eexists. split; [exact (Hmember1 n o Hn Ho)|done]. }
    split; [|by intros []].
    intros _. cbn [ss_hierarchy s2 seriesNames].
    split; [|split; [|split]]; try done.
    - unfold children_of. by rewrite Href1, Hcontainer.
    - intros n Hn. destruct (Hmembers n Hn) as (_ & o & Ho). eauto. }
  (* spliced *)
  rewrite (not_ungrouped _ _ _ Hmap).
  unfold bind at 1. unfold modify at 1. unfold bind at 1. unfold modify at 1.
  set (h2 := hierarchy_setNode seriesName (Group seriesNode) h1).
  set (h3 := update_group ref
               (fun m => set_metagraph (setNode seriesName (metagraph m)) m) h2).
  set (s3 := mkSeriesState h3 (seriesNames s) map2).
  change (on_hierarchy _ (on_hierarchy _ s2)) with s3.
  assert (Hseries3 : node h3 seriesName = Some (Group seriesNode)).
  { unfold h3. rewrite node_update_group_ne by done.
    unfold h2, node, hierarchy_setNode. simpl. apply lookup_insert_eq. }
  assert (Href3 : node h3 ref
                  = Some (Group (set_metagraph
                                   (setNode seriesName (metagraph c)) c))).
  { unfold h3. erewrite node_update_group_eq; [reflexivity|].
    unfold h2, node, hierarchy_setNode. simpl.
    rewrite lookup_insert_ne by done. exact Href1. }
  assert (Hother3 : forall m, m <> ref -> m <> seriesName ->
            node h3 m = node h1 m).
  { intros m Hmref Hmseries. unfold h3. rewrite node_update_group_ne by done.
    unfold h2, node, hierarchy_setNode. simpl.
    by rewrite lookup_insert_ne. }
  assert (Hdistinct : forall n, n ∈ members -> n <> ref /\ n <> seriesName).
  { intros n Hn. destruct (Hmembers n Hn) as (_ & o & Ho). split.
    - intros ->. congruence.
    - intros ->. done. }
  destruct (splice_loop_spec ref seriesName members Hother Hnodup s3)
    as (s' & Hrun & P1 & P2 & P3 & P4 & P5 & P6 & P7).
  { unfold s3. cbn [ss_hierarchy]. rewrite Href3. simpl. eauto. }
  { unfold s3. cbn [ss_hierarchy]. rewrite Hseries3. simpl. eauto. }
  { intros n Hn. destruct (Hmembers n Hn) as (Hhas & o & Ho).
    destruct (Hdistinct n Hn) as [Hnref Hnseries].
    unfold s3. cbn [ss_hierarchy].
    rewrite (children_of_group _ _ _ Href3). cbn [metagraph set_metagraph].
    rewrite elem_of_setNode, Hother3, (Hmember1 n o Hn Ho) by done.
    apply hasNode_elem_of in Hhas. eauto. }
  unfold s3 in *. cbn [ss_hierarchy seriesNames series_map] in *.
  exists s'. split; [exact Hrun|]. split; [exact P6|]. split.
  { intros m Hm Hmref Hmseries. rewrite P4, Hother3 by done.
    rewrite Hnode1. unfold stamp_node.
    destruct (node (ss_hierarchy s) m) as [[o|g]|]; try done.
    by rewrite decide_False. }
  split.
  { intros n o Hn Ho. destruct (P3 n Hn) as [Hnode _].
    destruct (Hdistinct n Hn) as [Hnref Hnseries].
    rewrite Hother3, (Hmember1 n o Hn Ho) in Hnode by done.
    eexists. split; [exact Hnode|done]. }
  split; [by rewrite P6|].
  intros _. split; [|split; [|split]].
  - intros n Hn. destruct (P3 n Hn) as [Hnode Hnames].
    destruct (Hmembers n Hn) as (Hhas & o & Ho).
    destruct (Hdistinct n Hn) as [Hnref Hnseries].
    split; [|split; [|split]].
    + rewrite P1. tauto_here.
    + apply P2. auto.
    + unfold parent_ref. rewrite Hnode, Hother3, (Hmember1 n o Hn Ho) by done.
      done.
    + done.
  - rewrite P1. split; [|done].
    rewrite (children_of_group _ _ _ Href3). cbn [metagraph set_metagraph].
    apply elem_of_setNode. auto.
  - apply P7. exact Hseries3.
  - intros m Hm Hnot. rewrite P1. split; [|done].
    rewrite (children_of_group _ _ _ Href3). cbn [metagraph set_metagraph].
    rewrite (children_of_group _ _ _ Hcontainer) in Hm.
    apply elem_of_setNode. auto.
Qed.

(** X2: the loop body of [groupSeries] for a detected series, whose members
    are leaves among the children of the container.  Every member gets its
    [owningSeries].  A series with fewer members than the threshold whose
    name the series map does not hold is entered there as ungrouped.  A
    series that the map holds as ungrouped is not spliced in: the children
    of the container, the parents of the members and the index entry of the
    series name are as before.  Any other series is spliced in: its node is
    in the index and among the children of the container, and every member
    is no child of the container any more, is a node of the metagraph of the
    series and has the series as its parent. *)
Theorem groupSeries_series_spec (ref : string) (threshold : Z)
  (seriesName : string) (seriesNode c : GroupNode) (s : SeriesState)
  (Hname : name seriesNode = seriesName)
  (Hcontainer : node (ss_hierarchy s) ref = Some (Group c))
  (Hmembers : forall n, n ∈ nodes (metagraph seriesNode) ->
                hasNode (metagraph c) n = true
                /\ exists o, node (ss_hierarchy s) n = Some (Op o))
  (Hnodup : NoDup (nodes (metagraph seriesNode)))
  (Hfresh : seriesName ∉ nodes (metagraph seriesNode))
  (Hother : seriesName <> ref) :
  exists s',
    groupSeries_series ref threshold (seriesName, seriesNode) s
    = (Returned tt, s')
    /\ ((Z.of_nat (length (nodes (metagraph seriesNode))) < threshold)%Z ->
        series_map s !! seriesName = None ->
        series_map s' !! seriesName = Some UNGROUP)
    /\ (forall n o, n ∈ nodes (metagraph seriesNode) ->
          node (ss_hierarchy s) n = Some (Op o) ->
          exists o', node (ss_hierarchy s') n = Some (Op o')
                     /\ owningSeries o' = stamped seriesName o)
    /\ (series_map s' !! seriesName = Some UNGROUP ->
        children_of (ss_hierarchy s') ref = children_of (ss_hierarchy s) ref
        /\ (forall n, n ∈ nodes (metagraph seriesNode) ->
              parent_ref (ss_hierarchy s') n = parent_ref (ss_hierarchy s) n)
        /\ node (ss_hierarchy s') seriesName = node (ss_hierarchy s) seriesName
        /\ seriesNames s' = seriesNames s)
    /\ (series_map s' !! seriesName <> Some UNGROUP ->
        (forall n, n ∈ nodes (metagraph seriesNode) ->
           (n ∉ children_of (ss_hierarchy s') ref)
           /\ n ∈ children_of (ss_hierarchy s') seriesName
           /\ parent_ref (ss_hierarchy s') n = Some seriesName
           /\ seriesNames s' !! n = Some seriesName)
        /\ seriesName ∈ children_of (ss_hierarchy s') ref
        /\ (exists g, node (ss_hierarchy s') seriesName = Some (Group g)
                      /\ type g = type seriesNode)
        /\ (forall m, m ∈ children_of (ss_hierarchy s) ref ->
              m ∉ nodes (metagraph seriesNode) ->
              m ∈ children_of (ss_hierarchy s') ref)).
Proof.
  destruct (groupSeries_series_effect ref threshold seriesName seriesNode c s
              Hname Hcontainer Hmembers Hnodup Hfresh Hother)
    as (s' & Hrun & Hmap & _ & Hstamp & Hungrouped & Hspliced).
  exists s'. split; [exact Hrun|]. split.
  { intros Hlt Hnone. rewrite Hmap.
    rewrite (proj2 (Z.ltb_lt _ _) Hlt), Hnone.
    rewrite bool_decide_false by (by intros [? ?]). simpl.
    apply lookup_insert_eq. }
  split; [exact Hstamp|]. split; [exact Hungrouped|].
  intros Hnot. destruct (Hspliced Hnot) as (H1 & H2 & (g & Hg & Htype & _) & H4).
  split; [exact H1|]. split; [exact H2|]. split; [eauto|exact H4].
Qed.

(** ** Series detection by numeric suffixes *)

Lemma own_keys_singleton k : own_keys [k] = [k].
Proof. unfold own_keys. simpl. by destruct (is_array_index k). Qed.

Lemma obj_entries_singleton {V} k (x : V) : obj_entries [(k, x)] = [(k, x)].
Proof.
  unfold obj_entries, obj_keys. simpl. rewrite own_keys_singleton. simpl.
  by rewrite String.eqb_refl.
Qed.

Lemma numeric_suffix_candidate_match dict n pre digits :
  match_numeric_suffix (leaf_of n) = Some (pre, digits) ->
  numeric_suffix_candidate dict n
  = obj_set (getSeriesNodeName pre "" (parent_of n) None)
      (default [] (obj_get dict (getSeriesNodeName pre "" (parent_of n) None))
       ++ [createSeriesNode pre "" (parent_of n) (Num (to_number digits)) n])
      dict.
Proof. unfold numeric_suffix_candidate. by intros ->. Qed.

(** The evaluation of a detector on names of which only the leaf and the
    parent are known; [E] is a fact of the form [String.eqb n m = false]. *)
Ltac detect_eval :=
  unfold detectSeriesUsingNumericSuffixes;
  rewrite obj_entries_singleton; cbn [fold_left fst snd length Nat.leb];
  repeat match goal with
    | L : leaf_of ?n = ?leaf |- context [numeric_suffix_candidate _ ?n] =>
        let r := eval vm_compute in (match_numeric_suffix leaf) in
        match r with
        | Some (?pre, ?digits) =>
            rewrite (numeric_suffix_candidate_match _ n pre digits)
              by (rewrite L; reflexivity)
        end
    end;
  repeat match goal with
    | P : parent_of ?n = _ |- context [parent_of ?n] => rewrite P
    end;
  repeat (cbn [obj_get obj_set default app]; rewrite !String.eqb_refl);
  cbn [obj_get obj_set default app];
  unfold add_candidates; rewrite obj_entries_singleton;
  cbn [fold_left fst snd];
  simpl; unfold hasNode, setNode, hasNode; simpl;
  repeat match goal with
    | E : String.eqb ?n ?m = false |- context [String.eqb ?n ?m] =>
        rewrite E; simpl
    end;
  reflexivity.

Lemma neq_by_leaf n m : leaf_of n <> leaf_of m -> String.eqb n m = false.
Proof. intros H. apply String.eqb_neq. by intros ->. Qed.

Lemma detect_123 (c p n1 n2 n3 : string) (members : list string) (g : Graph) :
  leaf_of n1 = "foo_1" -> leaf_of n2 = "foo_2" -> leaf_of n3 = "foo_3" ->
  parent_of n1 = p -> parent_of n2 = p -> parent_of n3 = p ->
  [n1; n2; n3] ≡ₚ members ->
  detectSeriesUsingNumericSuffixes [(c, members)] g
  = [series_of p (cluster_number c) 1 3 [n1; n2; n3] [1; 2; 3]%N].
Proof.
  intros L1 L2 L3 P1 P2 P3 Hperm.
  assert (E12 : String.eqb n1 n2 = false) by (apply neq_by_leaf; by rewrite L1, L2).
  assert (E13 : String.eqb n1 n3 = false) by (apply neq_by_leaf; by rewrite L1, L3).
  assert (E21 : String.eqb n2 n1 = false) by (apply neq_by_leaf; by rewrite L1, L2).
  assert (E23 : String.eqb n2 n3 = false) by (apply neq_by_leaf; by rewrite L2, L3).
  assert (E31 : String.eqb n3 n1 = false) by (apply neq_by_leaf; by rewrite L1, L3).
  assert (E32 : String.eqb n3 n2 = false) by (apply neq_by_leaf; by rewrite L2, L3).
  apply permutations_Permutation in Hperm. vm_compute in Hperm.
  repeat (apply elem_of_cons in Hperm as [->|Hperm]);
    [detect_eval..|by apply elem_of_nil in Hperm].
Qed.

Lemma detect_124 (c p n1 n2 n4 : string) (members : list string) (g : Graph) :
  leaf_of n1 = "foo_1" -> leaf_of n2 = "foo_2" -> leaf_of n4 = "foo_4" ->
  parent_of n1 = p -> parent_of n2 = p -> parent_of n4 = p ->
  [n1; n2; n4] ≡ₚ members ->
  detectSeriesUsingNumericSuffixes [(c, members)] g
  = [series_of p (cluster_number c) 1 2 [n1; n2] [1; 2]%N].
Proof.
  intros L1 L2 L4 P1 P2 P4 Hperm.
  assert (E12 : String.eqb n1 n2 = false) by (apply neq_by_leaf; by rewrite L1, L2).
  assert (E14 : String.eqb n1 n4 = false) by (apply neq_by_leaf; by rewrite L1, L4).
  assert (E21 : String.eqb n2 n1 = false) by (apply neq_by_leaf; by rewrite L1, L2).
  assert (E24 : String.eqb n2 n4 = false) by (apply neq_by_leaf; by rewrite L2, L4).
  assert (E41 : String.eqb n4 n1 = false) by (apply neq_by_leaf; by rewrite L1, L4).
  assert (E42 : String.eqb n4 n2 = false) by (apply neq_by_leaf; by rewrite L2, L4).
  apply permutations_Permutation in Hperm. vm_compute in Hperm.
  repeat (apply elem_of_cons in Hperm as [->|Hperm]);
    [detect_eval..|by apply elem_of_nil in Hperm].
Qed.

Lemma neq_by_leaf_prop n m : leaf_of n <> leaf_of m -> n <> m.
Proof. by intros H ->. Qed.

(** The loop body of [groupSeries] splices in a series whose size reaches
    the threshold and that the series map does not hold as ungrouped. *)
Lemma groupSeries_series_accepts (ref : string) (threshold : Z)
  (e : string * GroupNode) (members : list string) (cont : GroupNode)
  (s : SeriesState) :
  name e.2 = e.1 ->
  graph_nodes (metagraph e.2) = members ->
  NoDup members ->
  (threshold <= Z.of_nat (length members))%Z ->
  node (ss_hierarchy s) ref = Some (Group cont) ->
  (forall n, n ∈ members ->
     hasNode (metagraph cont) n = true
     /\ exists o, node (ss_hierarchy s) n = Some (Op o)) ->
  e.1 ∉ members -> e.1 <> ref ->
  series_map s !! e.1 <> Some UNGROUP ->
  exists s',
    groupSeries_series ref threshold e s = (Returned tt, s')
    /\ series_map s' = series_map s
    /\ e.1 ∈ children_of (ss_hierarchy s') ref
    /\ (exists gS, node (ss_hierarchy s') e.1 = Some (Group gS)
                   /\ type gS = type e.2 /\ ids gS = ids e.2)
    /\ (forall n, n ∈ members ->
          (n ∉ children_of (ss_hierarchy s') ref)
          /\ n ∈ children_of (ss_hierarchy s') e.1
          /\ parent_ref (ss_hierarchy s') n = Some e.1)
    /\ (forall m, m ∉ members -> m <> ref -> m <> e.1 ->
          node (ss_hierarchy s') m = node (ss_hierarchy s) m)
    /\ (forall m, m ∈ children_of (ss_hierarchy s) ref -> m ∉ members ->
          m ∈ children_of (ss_hierarchy s') ref).
Proof.
  destruct e as [seriesName seriesNode]. cbn [fst snd].
  intros Hname Hnodes Hnodup Hsize Href Hmembers Hfresh Hother Hmap.
  assert (Hin : forall n, n ∈ nodes (metagraph seriesNode) <-> n ∈ members).
  { intros n. unfold nodes. by rewrite elem_of_own_keys, Hnodes. }
  assert (Hlen : length (nodes (metagraph seriesNode)) = length members).
  { unfold nodes. by rewrite own_keys_perm, Hnodes. }
  destruct (groupSeries_series_effect ref threshold seriesName seriesNode cont s
              Hname Href) as (s' & Hrun & Hmap' & Hframe & _ & _ & Hspliced).
  { intros n Hn. apply Hmembers. by apply Hin. }
  { unfold nodes. by rewrite own_keys_perm, Hnodes. }
  { by rewrite Hin. }
  { done. }
  rewrite Hlen in Hmap'.
  rewrite (proj2 (Z.ltb_ge _ _) Hsize) in Hmap'. simpl in Hmap'.
  rewrite Hmap' in Hspliced.
  destruct (Hspliced Hmap) as (H1 & H2 & H3 & H4).
  exists s'. split; [done|]. split; [done|]. split; [done|]. split; [done|].
  split; [|split].
  - intros n Hn. destruct (H1 n) as (? & ? & ? & ?); [by apply Hin|]. done.
  - intros m Hm. apply Hframe. by rewrite Hin.
  - intros m Hm Hnot. apply H4; [done|]. by rewrite Hin.
Qed.

(** X3: under the numeric-suffix policy a cluster with the members [foo_1],
    [foo_2] and [foo_3] below one parent, in any order, gives one series,
    with the ids 1 to 3 and the three members, and for a threshold of at
    most 3 [groupSeries] splices it in.  The members [foo_1], [foo_2] and
    [foo_4] give one series with the ids 1 to 2 and the first two members,
    because the gap ends the run and a run of one member is no series; when
    that series is spliced in, [foo_4] stays a child of the container, its
    node untouched. *)
Theorem numeric_suffix_series (c p n1 n2 n3 n4 : string) (g : Graph)
  (L1 : leaf_of n1 = "foo_1") (L2 : leaf_of n2 = "foo_2")
  (L3 : leaf_of n3 = "foo_3") (L4 : leaf_of n4 = "foo_4")
  (P1 : parent_of n1 = p) (P2 : parent_of n2 = p)
  (P3 : parent_of n3 = p) (P4 : parent_of n4 = p) :
  let series13 := series_of p (cluster_number c) 1 3 [n1; n2; n3] [1; 2; 3]%N in
  let series12 := series_of p (cluster_number c) 1 2 [n1; n2] [1; 2]%N in
  (forall members, [n1; n2; n3] ≡ₚ members ->
     detectSeriesUsingNumericSuffixes [(c, members)] g = [series13])
  /\ (forall members, [n1; n2; n4] ≡ₚ members ->
        detectSeriesUsingNumericSuffixes [(c, members)] g = [series12])
  /\ (forall ref threshold s cont,
        (threshold <= 3)%Z ->
        node (ss_hierarchy s) ref = Some (Group cont) ->
        (forall n, n ∈ [n1; n2; n3] ->
           hasNode (metagraph cont) n = true
           /\ exists o, node (ss_hierarchy s) n = Some (Op o)) ->
        series13.1 ∉ [n1; n2; n3] -> series13.1 <> ref ->
        series_map s !! series13.1 <> Some UNGROUP ->
        exists s',
          groupSeries_series ref threshold series13 s = (Returned tt, s')
          /\ series_map s' = series_map s
          /\ series13.1 ∈ children_of (ss_hierarchy s') ref
          /\ (exists gS, node (ss_hierarchy s') series13.1 = Some (Group gS)
                         /\ type gS = SERIES
                         /\ ids gS = [Num 1; Num 2; Num 3])
          /\ (forall n, n ∈ [n1; n2; n3] ->
                (n ∉ children_of (ss_hierarchy s') ref)
                /\ n ∈ children_of (ss_hierarchy s') series13.1
                /\ parent_ref (ss_hierarchy s') n = Some series13.1))
  /\ (forall ref threshold s cont,
        (threshold <= 2)%Z ->
        node (ss_hierarchy s) ref = Some (Group cont) ->
        (forall n, n ∈ [n1; n2; n4] ->
           hasNode (metagraph cont) n = true
           /\ exists o, node (ss_hierarchy s) n = Some (Op o)) ->
        series12.1 ∉ [n1; n2; n4] -> series12.1 <> ref ->
        series_map s !! series12.1 <> Some UNGROUP ->
        exists s',
          groupSeries_series ref threshold series12 s = (Returned tt, s')
          /\ (exists gS, node (ss_hierarchy s') series12.1 = Some (Group gS)
                         /\ type gS = SERIES /\ ids gS = [Num 1; Num 2])
          /\ (forall n, n ∈ [n1; n2] ->
                (n ∉ children_of (ss_hierarchy s') ref)
                /\ n ∈ children_of (ss_hierarchy s') series12.1
                /\ parent_ref (ss_hierarchy s') n = Some series12.1)
          /\ n4 ∈ children_of (ss_hierarchy s') ref
          /\ node (ss_hierarchy s') n4 = node (ss_hierarchy s) n4).
Proof.
  intros series13 series12.
  assert (N12 : n1 <> n2) by (apply neq_by_leaf_prop; by rewrite L1, L2).
  assert (N13 : n1 <> n3) by (apply neq_by_leaf_prop; by rewrite L1, L3).
  assert (N23 : n2 <> n3) by (apply neq_by_leaf_prop; by rewrite L2, L3).
  assert (N14 : n1 <> n4) by (apply neq_by_leaf_prop; by rewrite L1, L4).
  assert (N24 : n2 <> n4) by (apply neq_by_leaf_prop; by rewrite L2, L4).
  split; [|split; [|split]].
  - intros members Hperm. by apply (detect_123 c p n1 n2 n3).
  - intros members Hperm. by apply (detect_124 c p n1 n2 n4).
  - intros ref threshold s cont Hthreshold Href Hmembers Hfresh Hother Hmap.
    destruct (groupSeries_series_accepts ref threshold series13 [n1; n2; n3]
                cont s) as (s' & Hrun & Hmap' & Hchild & Hnode & Hin & _);
      try done.
    { repeat (apply NoDup_cons; split;
              [rewrite ?not_elem_of_cons; repeat split;
               solve [congruence | apply not_elem_of_nil]|]).
      apply NoDup_nil_2. }
    exists s'. done.
  - intros ref threshold s cont Hthreshold Href Hmembers Hfresh Hother Hmap.
    assert (Hfresh' : series12.1 <> n1 /\ series12.1 <> n2 /\ series12.1 <> n4).
    { rewrite !not_elem_of_cons in Hfresh. tauto_here. }
    destruct (groupSeries_series_accepts ref threshold series12 [n1; n2]
                cont s) as (s' & Hrun & Hmap' & Hchild & Hnode & Hin & Hframe & Hstay);
      try done.
    { repeat (apply NoDup_cons; split;
              [rewrite ?not_elem_of_cons; repeat split;
               solve [congruence | apply not_elem_of_nil]|]).
      apply NoDup_nil_2. }
    { intros n Hn. apply Hmembers. rewrite !elem_of_cons in *. tauto_here. }
    { rewrite !not_elem_of_cons. repeat split; try tauto_here. apply not_elem_of_nil. }
    assert (Hn4 : n4 ∉ [n1; n2]).
    { rewrite !not_elem_of_cons. repeat split; try congruence.
      apply not_elem_of_nil. }
    exists s'. split; [done|]. split; [done|]. split; [done|].
    destruct (Hmembers n4) as (Hhas4 & o4 & Ho4).
    { rewrite !elem_of_cons. tauto_here. }
    split.
    + apply Hstay; [|done].
      rewrite (children_of_group _ _ _ Href). by apply hasNode_elem_of.
    + apply Hframe; [done| |].
      * intros ->. congruence.
      * intros E. apply Hfresh'. by symmetry.
Qed.

(** ** getChildName *)

Lemma ancestors_cons fuel h ref x rest :
  ancestors fuel h ref = Some (x :: rest) ->
  exists n y fuel',
    ref = Some n /\ node h n = Some y /\ node_name y = x /\ fuel = S fuel'
    /\ ancestors fuel' h (node_parentNode y) = Some rest.
Proof.
  destruct ref as [n|]; [|by destruct fuel].
  destruct fuel as [|fuel']; simpl.
  - by destruct (node h n).
  - destruct (node h n) as [y|] eqn:Hy; [|done].
    destruct (ancestors fuel' h (node_parentNode y)) as [up|] eqn:Hup; [|done].
    intros [= <- <-]. by exists n, y, fuel'.
Qed.

Lemma ancestors_nil fuel h ref :
  ancestors fuel h ref = Some [] -> ref ≫= node h = None.
Proof.
  destruct ref as [n|]; [|done]. simpl.
  destruct (node h n) as [y|] eqn:Hy; [|done].
  destruct fuel as [|fuel']; simpl; rewrite Hy; [done|].
  by destruct (ancestors fuel' h (node_parentNode y)).
Qed.

Lemma parentNode_of_bind h y : parentNode_of h y = node_parentNode y ≫= node h.
Proof. unfold parentNode_of. by destruct (node_parentNode y). Qed.

Lemma parentNode_of_ancestors fuel h y x rest :
  ancestors fuel h (node_parentNode y) = Some (x :: rest) ->
  exists p, parentNode_of h y = Some p /\ node_name p = x.
Proof.
  intros (n & p & fuel' & Hn & Hp & Hx & _)%ancestors_cons.
  exists p. rewrite parentNode_of_bind, Hn. done.
Qed.

Lemma elem_of_tail {A} (x : A) (l : list A) : x ∈ tail l -> x ∈ l.
Proof. destruct l; simpl; [done|]. apply list_elem_of_further. Qed.

Lemma getChildName_loop_finds h nodeName d c up :
  forall pre fuel ref,
    ancestors fuel h ref = Some (pre ++ c :: nodeName :: up) ->
    nodeName ∉ tail (pre ++ [c]) ->
    getChildName_loop fuel h nodeName d (ref ≫= node h) = Returned c.
Proof.
  induction pre as [|a pre IH]; intros fuel ref Hpath Hnot; simpl in Hpath.
  - apply ancestors_cons in Hpath
      as (n & y & fuel' & -> & Hy & Hname & -> & Hup).
    simpl. rewrite Hy.
    apply parentNode_of_ancestors in Hup as (p & -> & Hp).
    by rewrite Hp, String.eqb_refl, Hname.
  - apply ancestors_cons in Hpath
      as (n & y & fuel' & -> & Hy & Hname & -> & Hup).
    simpl. rewrite Hy.
    assert (Hhead : exists x rest,
               pre ++ c :: nodeName :: up = x :: rest /\ x ∈ pre ++ [c]).
    { destruct pre as [|b pre]; simpl; eexists _, _;
        (split; [reflexivity|apply list_elem_of_here]). }
    destruct Hhead as (x & rest & Hrest & Hx).
    pose proof Hup as Hup'. rewrite Hrest in Hup'.
    apply parentNode_of_ancestors in Hup' as (p & Hp & Hpname).
    rewrite Hp.
    assert (Hne : node_name p <> nodeName).
    { intros E. apply Hnot. simpl. by rewrite <- E, Hpname. }
    apply String.eqb_neq in Hne. rewrite Hne.
    rewrite <- Hp, parentNode_of_bind. apply (IH fuel' _ Hup).
    intros Hin. apply Hnot. simpl. by apply elem_of_tail.
Qed.

Lemma getChildName_loop_throws h nodeName d :
  forall path fuel ref,
    ancestors fuel h ref = Some path ->
    nodeName ∉ tail path ->
    getChildName_loop fuel h nodeName d (ref ≫= node h)
    = Thrown (Error ("Could not find immediate child for descendant: " +:+ d)).
Proof.
  induction path as [|a path IH]; intros fuel ref Hpath Hnot.
  - apply ancestors_nil in Hpath. rewrite Hpath. by destruct fuel.
  - apply ancestors_cons in Hpath
      as (n & y & fuel' & -> & Hy & Hname & -> & Hup).
    simpl. rewrite Hy. destruct path as [|x rest].
    + apply ancestors_nil in Hup. rewrite parentNode_of_bind, Hup.
      by destruct fuel'.
    + pose proof Hup as Hup'.
      apply parentNode_of_ancestors in Hup' as (p & Hp & Hpname).
      rewrite Hp.
      assert (Hne : node_name p <> nodeName).
      { intros E. apply Hnot. simpl. rewrite <- E, Hpname.
        apply list_elem_of_here. }
      apply String.eqb_neq in Hne. rewrite Hne.
      rewrite <- Hp, parentNode_of_bind. apply (IH fuel' _ Hup).
      intros Hin. apply Hnot. simpl. by apply elem_of_tail.
Qed.

(** X4: [getChildName] walks up from the descendant and returns the first
    node on the way whose parent is the container: when the names from the
    descendant to the root are [pre ++ c :: nodeName :: up] and [nodeName]
    does not occur earlier on the way, the result is [c], and the hierarchy
    is as before. *)
Theorem getChildName_finds_child (fuel : nat) (h : Hierarchy)
  (nodeName descendantName c : string) (pre up : list string)
  (Hpath : ancestors fuel h (Some descendantName)
           = Some (pre ++ c :: nodeName :: up))
  (Hfirst : nodeName ∉ tail (pre ++ [c])) :
  getChildName fuel nodeName descendantName h = (Returned c, h).
Proof.
  unfold getChildName. f_equal.
  by apply (getChildName_loop_finds h nodeName descendantName c up pre fuel
              (Some descendantName)).
Qed.

(** X5: [getChildName] throws when the container is no proper ancestor of
    the descendant, which includes a descendant that the index does not
    hold.  [path] holds the names from the descendant to the root. *)
Theorem getChildName_throws (fuel : nat) (h : Hierarchy)
  (nodeName descendantName : string) (path : list string)
  (Hpath : ancestors fuel h (Some descendantName) = Some path)
  (Hnone : nodeName ∉ tail path) :
  getChildName fuel nodeName descendantName h
  = (Thrown (Error ("Could not find immediate child for descendant: "
                    +:+ descendantName)), h).
Proof.
  unfold getChildName. f_equal.
  by apply (getChildName_loop_throws h nodeName descendantName path fuel
              (Some descendantName)).
Qed.

(** ** The numbers of an ordering *)

Lemma obj_set_keys_NoDup {V} k (x : V) (o : JsObject V) :
  NoDup (map fst o) -> NoDup (map fst (obj_set k x o)).
Proof.
  induction o as [|[k' y] o IH]; simpl; intros Hnd.
  - apply NoDup_singleton.
  - apply NoDup_cons in Hnd as [Hk' Hnd].
    destruct (String.eqb_spec k' k) as [->|Hne]; simpl.
    + by apply NoDup_cons.
    + apply NoDup_cons. split; [|by apply IH].
      rewrite <- obj_get_is_Some, obj_get_set_ne by done.
      by rewrite obj_get_is_Some.
Qed.

Lemma collect_successors_NoDup (g : Graph) :
  NoDup (map fst (collect_successors g).1).
Proof.
  unfold collect_successors.
  induction (graph_edges g) as [|e es IH] using rev_ind; simpl.
  - apply NoDup_nil_2.
  - rewrite fold_left_app. simpl.
    destruct (numRegularEdges e.2 =? 0); [done|]. simpl.
    by apply obj_set_keys_NoDup.
Qed.

Lemma elem_of_List_filter {A} (p : A -> bool) (l : list A) (x : A) :
  x ∈ List.filter p l -> x ∈ l.
Proof.
  induction l as [|y l IH]; simpl; [done|].
  destruct (p y).
  - intros [->|Hx]%elem_of_cons; [apply list_elem_of_here|].
    apply list_elem_of_further. auto.
  - intros Hx. apply list_elem_of_further. auto.
Qed.

Lemma NoDup_List_filter {A} (p : A -> bool) (l : list A) :
  NoDup l -> NoDup (List.filter p l).
Proof.
  induction l as [|y l IH]; simpl; [done|].
  intros [Hy Hnd]%NoDup_cons. destruct (p y); [|auto].
  apply NoDup_cons. split; [|auto].
  intros Hin%elem_of_List_filter. done.
Qed.

Lemma initial_queue_NoDup (g : Graph) :
  NoDup (difference (obj_keys (collect_successors g).1)
           (obj_keys (collect_successors g).2)).
Proof.
  unfold difference. apply NoDup_List_filter. unfold obj_keys.
  rewrite own_keys_perm. apply collect_successors_NoDup.
Qed.

(** Every round gives the name that it takes from the queue a number that
    no name has had before. *)
Lemma traverse_injective fuel :
  forall queue successors ordering i r,
    (forall x k, ordering !! x = Some k -> k < i) ->
    (forall x y k, ordering !! x = Some k -> ordering !! y = Some k -> x = y) ->
    traverse fuel queue successors ordering i = Some r ->
    forall x y k, r !! x = Some k -> r !! y = Some k -> x = y.
Proof.
  induction fuel as [|fuel IH]; intros queue successors ordering i r Hlt Hinj H.
  - destruct queue; simpl in H; [|done]. by injection H as <-.
  - destruct queue as [|c queue]; simpl in H; [by injection H as <-|].
    eapply IH; [| |exact H].
    + intros x k. destruct (decide (c = x)) as [->|Hne].
      * rewrite lookup_insert_eq. intros [= <-]. lia.
      * rewrite lookup_insert_ne by done. intros Hx%Hlt. lia.
    + intros x y k. destruct (decide (c = x)) as [<-|Hx];
        destruct (decide (c = y)) as [<-|Hy]; [done| | |].
      * rewrite lookup_insert_eq, lookup_insert_ne by done.
        intros [= <-] Hk%Hlt. lia.
      * rewrite lookup_insert_eq, lookup_insert_ne by done.
        intros Hk%Hlt [= <-]. lia.
      * rewrite !lookup_insert_ne by done. apply Hinj.
Qed.

(** A name that is neither in the queue nor in a list of successors keeps
    the number that it has. *)
Lemma traverse_untouched x fuel :
  forall queue successors ordering i r,
    traverse fuel queue successors ordering i = Some r ->
    x ∉ queue ->
    (forall k, x ∉ default [] (obj_get successors k)) ->
    r !! x = ordering !! x.
Proof.
  induction fuel as [|fuel IH]; intros queue successors ordering i r H Hq Hs.
  - destruct queue; simpl in H; [|done]. by injection H as <-.
  - destruct queue as [|c queue]; simpl in H; [by injection H as <-|].
    apply not_elem_of_cons in Hq as [Hne Hq].
    rewrite (IH _ _ _ _ _ H).
    + by rewrite lookup_insert_ne.
    + rewrite not_elem_of_app. split; [done|apply Hs].
    + intros k. destruct (decide (c = k)) as [->|Hck].
      * rewrite obj_get_delete_eq. apply not_elem_of_nil.
      * rewrite obj_get_delete_ne by done. apply Hs.
Qed.

(** The names at the head of the queue that no list of successors holds get
    the next numbers, in the order of the queue. *)
Lemma traverse_sources_first :
  forall q fuel rest successors ordering i r,
    traverse fuel (q ++ rest) successors ordering i = Some r ->
    NoDup q ->
    (forall x, x ∈ q ->
       (x ∉ rest) /\ forall k, x ∉ default [] (obj_get successors k)) ->
    forall k x, q !! k = Some x -> r !! x = Some (i + k).
Proof.
  induction q as [|s q IH]; intros fuel rest successors ordering i r H Hnd Hq k x Hk.
  { by rewrite lookup_nil in Hk. }
  apply NoDup_cons in Hnd as [Hs Hnd].
  destruct fuel as [|fuel]; simpl in H; [done|].
  rewrite <- app_assoc in H.
  assert (Hq' : forall y, y ∈ q ->
            (y ∉ rest ++ default [] (obj_get successors s))
            /\ forall k, y ∉ default [] (obj_get (obj_delete s successors) k)).
  { intros y Hy. destruct (Hq y) as [Hr Hl]; [by apply list_elem_of_further|].
    split.
    - rewrite not_elem_of_app. split; [done|apply Hl].
    - intros k'. destruct (decide (s = k')) as [->|Hne].
      + rewrite obj_get_delete_eq. apply not_elem_of_nil.
      + rewrite obj_get_delete_ne by done. apply Hl. }
  destruct k as [|k]; simpl in Hk.
  - injection Hk as <-.
    destruct (Hq s) as [Hr Hl]; [apply list_elem_of_here|].
    rewrite (traverse_untouched s _ _ _ _ _ _ H).
    + rewrite lookup_insert_eq. f_equal. lia.
    + rewrite !not_elem_of_app. split; [done|]. split; [done|apply Hl].
    + intros k'. destruct (decide (s = k')) as [->|Hne].
      * rewrite obj_get_delete_eq. apply not_elem_of_nil.
      * rewrite obj_get_delete_ne by done. apply Hl.
  - rewrite (IH _ _ _ _ _ _ H Hnd Hq' k x Hk). f_equal. lia.
Qed.

(** X6: the numbers of an ordering that [getTopologicalOrdering] computes.
    No two children have the same number; every true source has a number;
    and a true source has a lower number than any child that is no true
    source. *)
Theorem ordering_numbers (fuel : nat) (h h' : Hierarchy) (nodeName : string)
  (g : GroupNode) (l : nat) (o : gmap string nat)
  (Hcontainer : node h nodeName = Some (Group g))
  (Hfirst : orderings h !! nodeName = None)
  (Hrun : getTopologicalOrdering fuel nodeName h = (Returned (Some l), h'))
  (Hstore : ordering_store h' !! l = Some o) :
  (forall a b i, o !! a = Some i -> o !! b = Some i -> a = b)
  /\ (forall s, true_source (metagraph g) s -> is_Some (o !! s))
  /\ (forall s c i j,
        true_source (metagraph g) s -> ~ true_source (metagraph g) c ->
        o !! s = Some i -> o !! c = Some j -> i < j).
Proof.
  unfold getTopologicalOrdering, bind, get in Hrun.
  rewrite Hcontainer, Hfirst in Hrun.
  set (sd := collect_successors (metagraph g)) in *.
  set (queue := difference (obj_keys sd.1) (obj_keys sd.2)) in *.
  destruct (traverse fuel queue sd.1 ∅ 0) as [r|] eqn:Ht; [|done].
  simpl in Hrun. injection Hrun as <- <-. simpl in Hstore.
  rewrite lookup_insert_eq in Hstore. injection Hstore as <-.
  assert (Hinj : forall a b i, r !! a = Some i -> r !! b = Some i -> a = b).
  { eapply traverse_injective; [| |exact Ht].
    - intros x k. by rewrite lookup_empty.
    - intros x y k. by rewrite lookup_empty. }
  assert (Hsources : forall k x, queue !! k = Some x -> r !! x = Some k).
  { intros k x Hk.
    apply (traverse_sources_first queue fuel [] sd.1 ∅ 0 r); [| | |exact Hk].
    - by rewrite app_nil_r.
    - apply initial_queue_NoDup.
    - intros y Hy. split; [apply not_elem_of_nil|].
      apply initial_queue_spec in Hy as [_ Hno].
      intros k' Hin. apply Hno. exists k'.
      by apply (collected_successors _ _ (collect_successors_spec (metagraph g))). }
  split; [exact Hinj|]. split.
  - intros s Hs. apply initial_queue_spec in Hs.
    apply list_elem_of_lookup_1 in Hs as [k Hk]. rewrite (Hsources k s Hk). eauto.
  - intros s c i j Hs Hc Hi Hj. apply initial_queue_spec in Hs.
    apply list_elem_of_lookup_1 in Hs as [k Hk].
    pose proof (Hsources k s Hk) as Hks. rewrite Hi in Hks. injection Hks as ->.
    destruct (decide (k < j)) as [|Hge]; [done|]. exfalso.
    assert (Hjlt : j < length queue).
    { pose proof (lookup_lt_Some _ _ _ Hk). unfold queue, sd. lia. }
    apply lookup_lt_is_Some_2 in Hjlt as [x Hx].
    pose proof (Hsources j x Hx) as Hxj.
    rewrite (Hinj c x j Hj Hxj) in Hc. apply Hc.
    apply initial_queue_spec. by apply list_elem_of_lookup_2 in Hx.
Qed.

(** ** getIncompatibleOps *)

Lemma incompatible_embeddings_nil (es : list OpNode) :
  Forall (fun e => compatible e = true) es -> incompatible_embeddings es = [].
Proof.
  unfold incompatible_embeddings. induction 1 as [|e es He _ IH]; [done|].
  simpl. by rewrite He.
Qed.

Lemma elem_of_incompatible_embeddings (x : Node) (es : list OpNode) :
  x ∈ incompatible_embeddings es -> exists o, x = Op o /\ compatible o = false.
Proof.
  unfold incompatible_embeddings.
  intros (o & -> & Ho)%list_elem_of_fmap_1. exists o. split; [done|].
  induction es as [|e es IH]; simpl in Ho; [by apply elem_of_nil in Ho|].
  destruct (compatible e) eqn:He; simpl in Ho; [auto|].
  apply elem_of_cons in Ho as [->|Ho]; auto.
Qed.

(** What one round of the loop adds to the result. *)
Lemma incompatible_leaf_spec h params n o acc :
  node h n = Some (Op o) ->
  let acc' := incompatible_leaf h params o acc in
  (forall x, x ∈ acc.1 -> x ∈ acc'.1)
  /\ (forall x, x ∈ acc'.1 -> x ∈ acc.1 \/ reportable h params x)
  /\ (compatible o = false ->
      (owningSeries o = None \/ owningSeries o = Some ""
       \/ exists series, owningSeries o = Some series
                         /\ ungrouped_by params series = true) ->
      Op o ∈ acc'.1)
  /\ (all_compatible o -> acc' = acc).
Proof.
  intros Hn acc'. subst acc'. unfold incompatible_leaf.
  set (acc1 := if compatible o then acc else _).
  assert (H1 : (forall x, x ∈ acc.1 -> x ∈ acc1.1)
               /\ (forall x, x ∈ acc1.1 -> x ∈ acc.1 \/ reportable h params x)
               /\ (compatible o = false ->
                   (owningSeries o = None \/ owningSeries o = Some ""
                    \/ exists series, owningSeries o = Some series
                         /\ ungrouped_by params series = true) ->
                   Op o ∈ acc1.1)
               /\ (compatible o = true -> acc1 = acc)).
  { subst acc1. destruct (compatible o) eqn:Hc.
    { split; [auto|]. split; [auto|]. split; [done|done]. }
    assert (Hself : reportable h params (Op o)) by (left; eauto).
    destruct (owningSeries o) as [[|c r]|] eqn:Hs.
    - simpl. setoid_rewrite elem_of_app. setoid_rewrite list_elem_of_singleton.
      split; [auto|]. split; [|split; [auto|done]].
      intros x [?| ->]; auto.
    - destruct (ungrouped_by params (String c r)) eqn:Hu.
      + simpl. setoid_rewrite elem_of_app.
        setoid_rewrite list_elem_of_singleton.
        split; [auto|]. split; [|split; [auto|done]].
        intros x [?| ->]; auto.
      + assert (Hno : Some (String c r) = None
                      \/ Some (String c r) = Some ""
                      \/ (exists series, Some (String c r) = Some series
                            /\ ungrouped_by params series = true) -> False).
        { intros [?|[?|(series & [= <-] & Hu')]]; congruence. }
        destruct (obj_has (String c r) acc.2).
        { split; [auto|]. split; [auto|]. split; [|done].
          intros _ H. destruct (Hno H). }
        destruct (node h (String c r)) as [seriesNode|] eqn:Hseries.
        * simpl. setoid_rewrite elem_of_app.
          setoid_rewrite list_elem_of_singleton.
          split; [auto|]. split; [|split; [|done]].
          -- intros x [?| ->]; [auto|]. right. right.
             exists n, o, (String c r). done.
          -- intros _ H. destruct (Hno H).
        * split; [auto|]. split; [auto|]. split; [|done].
          intros _ H. destruct (Hno H).
    - simpl. setoid_rewrite elem_of_app. setoid_rewrite list_elem_of_singleton.
      split; [auto|]. split; [|split; [auto|done]].
      intros x [?| ->]; auto. }
  clearbody acc1. destruct H1 as (Hkeep & Hsound & Hself & Hsame). simpl.
  split; [|split; [|split]].
  - intros x Hx. rewrite !elem_of_app. auto.
  - intros x. rewrite !elem_of_app.
    intros [Hx|[Hx|Hx]]; [auto| |];
      apply elem_of_incompatible_embeddings in Hx; right; by left.
  - intros Hc Hs. rewrite !elem_of_app. auto.
  - intros (Hc & Hin & Hout). rewrite (Hsame Hc).
    rewrite (incompatible_embeddings_nil _ Hin),
      (incompatible_embeddings_nil _ Hout), !app_nil_r.
    by destruct acc.
Qed.

Lemma incompatible_loop_spec h params :
  forall leaves acc l,
    incompatible_loop h params leaves acc = Returned l ->
    (forall x, x ∈ acc.1 -> x ∈ l)
    /\ (forall x, x ∈ l -> x ∈ acc.1 \/ reportable h params x)
    /\ (forall n o,
          n ∈ leaves -> node h n = Some (Op o) -> compatible o = false ->
          (owningSeries o = None \/ owningSeries o = Some ""
           \/ exists series, owningSeries o = Some series
                             /\ ungrouped_by params series = true) ->
          Op o ∈ l).
Proof.
  induction leaves as [|leaf rest IH]; intros acc l H; simpl in H.
  - injection H as <-. split; [auto|]. split; [auto|].
    intros n o Hn. by apply elem_of_nil in Hn.
  - destruct (node h leaf) as [[o|g]|] eqn:Hleaf; [| |done].
    + destruct (incompatible_leaf_spec h params leaf o acc Hleaf)
        as (Hkeep & Hsound & Hself & _).
      destruct (IH _ _ H) as (IHkeep & IHsound & IHself).
      split; [auto|]. split.
      * intros x Hx. destruct (IHsound x Hx) as [Hacc|?]; [|auto].
        apply Hsound in Hacc. tauto_here.
      * intros n o' [->|Hn]%elem_of_cons Hno Hc Hs; [|eauto].
        rewrite Hleaf in Hno. injection Hno as <-. auto.
    + destruct (IH _ _ H) as (IHkeep & IHsound & IHself).
      split; [auto|]. split; [auto|].
      intros n o' [->|Hn]%elem_of_cons Hno Hc Hs; [|eauto].
      rewrite Hleaf in Hno. done.
Qed.

Lemma incompatible_loop_compatible h params :
  forall leaves acc,
    (forall n, n ∈ leaves ->
       exists x, node h n = Some x
                 /\ forall o, x = Op o -> all_compatible o) ->
    incompatible_loop h params leaves acc = Returned acc.1.
Proof.
  induction leaves as [|leaf rest IH]; intros acc Hall; simpl; [done|].
  destruct (Hall leaf) as (x & Hx & Hok); [apply list_elem_of_here|].
  rewrite Hx. destruct x as [o|g].
  - destruct (incompatible_leaf_spec h params leaf o acc Hx) as (_ & _ & _ & Hsame).
    rewrite (Hsame (Hok o eq_refl)). apply IH.
    intros n Hn. apply Hall. by apply list_elem_of_further.
  - apply IH. intros n Hn. apply Hall. by apply list_elem_of_further.
Qed.

(** X7: when every leaf below the root is compatible, with all its
    embeddings, [getIncompatibleOps] returns the empty array, whatever the
    parameters are. *)
Theorem getIncompatibleOps_all_compatible (fuel : nat)
  (hierarchyParams : option HierarchyParams) (h : Hierarchy)
  (leaves : list string)
  (Hleaves : root_leaves fuel h = (Returned leaves, h))
  (Hall : forall n, n ∈ leaves ->
            exists x, node h n = Some x
                      /\ forall o, x = Op o -> all_compatible o) :
  getIncompatibleOps fuel hierarchyParams h = (Returned [], h).
Proof.
  unfold getIncompatibleOps, bind. rewrite Hleaves.
  by rewrite (incompatible_loop_compatible h hierarchyParams leaves ([], []) Hall).
Qed.

(** X8: what [getIncompatibleOps] reports.  The hierarchy is as before.
    Every node of the result is a leaf or an embedding that is not
    compatible, or the node under the [owningSeries] of such a leaf, which
    the parameters do not hold as ungrouped.  Every leaf below the root that
    is not compatible and has no [owningSeries], or one that the parameters
    hold as ungrouped, is in the result. *)
Theorem getIncompatibleOps_reports (fuel : nat)
  (hierarchyParams : option HierarchyParams) (h h' : Hierarchy)
  (leaves : list string) (result : list Node)
  (Hleaves : root_leaves fuel h = (Returned leaves, h))
  (Hrun : getIncompatibleOps fuel hierarchyParams h = (Returned result, h')) :
  h' = h
  /\ (forall x, x ∈ result -> reportable h hierarchyParams x)
  /\ (forall n o,
        n ∈ leaves -> node h n = Some (Op o) -> compatible o = false ->
        (owningSeries o = None \/ owningSeries o = Some ""
         \/ exists series, owningSeries o = Some series
                           /\ ungrouped_by hierarchyParams series = true) ->
        Op o ∈ result).
Proof.
  unfold getIncompatibleOps, bind in Hrun. rewrite Hleaves in Hrun.
  injection Hrun as Hloop <-. split; [done|].
  destruct (incompatible_loop_spec h hierarchyParams leaves ([], []) result Hloop)
    as (_ & Hsound & Hself).
  split; [|exact Hself].
  intros x Hx. destruct (Hsound x Hx) as [Hnil|?]; [|done].
  by apply elem_of_nil in Hnil.
Qed.

(** ** getOneWayEdges *)

Lemma push_targets_spec (G : Graph) :
  forall es t t',
    push_targets G es t = Returned t' ->
    (forall me, me ∈ regular t' <->
       me ∈ regular t
       \/ (numRegularEdges me <> 0
           /\ exists e, e ∈ es /\ edge G e.1 e.2 = Some me))
    /\ (forall me, me ∈ control t' <->
          me ∈ control t
          \/ (numRegularEdges me = 0
              /\ exists e, e ∈ es /\ edge G e.1 e.2 = Some me)).
Proof.
  induction es as [|e es IH]; intros t t' H; simpl in H.
  - injection H as <-. split; intros me; (split; [auto|]).
    + intros [?|(_ & e & He & _)]; [done|]. by apply elem_of_nil in He.
    + intros [?|(_ & e & He & _)]; [done|]. by apply elem_of_nil in He.
  - unfold push_target in H.
    destruct (edge G e.1 e.2) as [m|] eqn:Hm; [|done].
    apply IH in H as [Hr Hc].
    destruct (Nat.eqb_spec (numRegularEdges m) 0) as [Hz|Hnz]; simpl in *.
    + split; intros me.
      * rewrite Hr. split.
        -- intros [?|(? & e' & He' & ?)]; [auto|].
           right. split; [done|]. exists e'. split; [|done].
           by apply list_elem_of_further.
        -- intros [?|(Hn & e' & [->|He']%elem_of_cons & He)]; [auto| |].
           ++ rewrite Hm in He. injection He as <-. done.
           ++ right. eauto.
      * rewrite Hc, elem_of_app, list_elem_of_singleton. split.
        -- intros [[?| ->]|(? & e' & He' & ?)]; [auto| |].
           ++ right. split; [done|]. exists e. split; [|done].
              apply list_elem_of_here.
           ++ right. split; [done|]. exists e'. split; [|done].
              by apply list_elem_of_further.
        -- intros [?|(Hn & e' & [->|He']%elem_of_cons & He)]; [auto| |].
           ++ rewrite Hm in He. injection He as <-. auto.
           ++ right. eauto.
    + split; intros me.
      * rewrite Hr, elem_of_app, list_elem_of_singleton. split.
        -- intros [[?| ->]|(? & e' & He' & ?)]; [auto| |].
           ++ right. split; [done|]. exists e. split; [|done].
              apply list_elem_of_here.
           ++ right. split; [done|]. exists e'. split; [|done].
              by apply list_elem_of_further.
        -- intros [?|(Hn & e' & [->|He']%elem_of_cons & He)]; [auto| |].
           ++ rewrite Hm in He. injection He as <-. auto.
           ++ right. eauto.
      * rewrite Hc. split.
        -- intros [?|(? & e' & He' & ?)]; [auto|].
           right. split; [done|]. exists e'. split; [|done].
           by apply list_elem_of_further.
        -- intros [?|(Hn & e' & [->|He']%elem_of_cons & He)]; [auto| |].
           ++ rewrite Hm in He. injection He as <-. done.
           ++ right. eauto.
Qed.

Lemma findEdgeTargetsInGraph_spec (G : Graph) (n : string) (inbound : bool)
  (t t' : Edges) :
  findEdgeTargetsInGraph G n inbound t = Returned t' ->
  (forall me, me ∈ regular t' <->
     me ∈ regular t \/ (numRegularEdges me <> 0 /\ edge_at G n inbound me))
  /\ (forall me, me ∈ control t' <->
        me ∈ control t \/ (numRegularEdges me = 0 /\ edge_at G n inbound me)).
Proof.
  unfold findEdgeTargetsInGraph, edge_at. intros H.
  apply push_targets_spec in H as [Hr Hc].
  assert (Hiff : forall me,
            (exists e, e ∈ default [] (if inbound then inEdges G n
                                       else outEdges G n)
                       /\ edge G e.1 e.2 = Some me)
            <-> exists e l,
                  (if inbound then inEdges G n else outEdges G n) = Some l
                  /\ e ∈ l /\ edge G e.1 e.2 = Some me).
  { intros me.
    destruct (if inbound then inEdges G n else outEdges G n) as [l|]; simpl.
    - split.
      + intros (e & He & Hme). by exists e, l.
      + intros (e & l' & [= <-] & He & Hme). by exists e.
    - split.
      + intros (e & He & _). by apply elem_of_nil in He.
      + by intros (e & l' & Hl & _). }
  split; intros me; [rewrite Hr|rewrite Hc]; by rewrite Hiff.
Qed.

(** X9: the Metaedges that [getOneWayEdges] returns.  A node without a
    parent that is a group node has none, and the hierarchy is not touched.
    Otherwise the result holds the labels of the edges into the node (or out
    of it) in the metagraph and in the bridge graph of the parent, and no
    others: under [regular] those that summarize at least one regular edge,
    under [control] those that summarize control dependencies only. *)
Theorem getOneWayEdges_spec (fuel : nat) (x : Node) (inbound : bool)
  (h : Hierarchy) :
  ((forall P, parentNode_of h x <> Some (Group P)) ->
   getOneWayEdges fuel x inbound h
   = (Returned {| control := []; regular := [] |}, h))
  /\ (forall P es h',
        parentNode_of h x = Some (Group P) ->
        getOneWayEdges fuel x inbound h = (Returned es, h') ->
        exists l bg,
          getBridgegraph fuel (name P) h = (Returned (Some l), h')
          /\ graph_store h' !! l = Some bg
          /\ (forall me, me ∈ regular es <->
                numRegularEdges me <> 0
                /\ (edge_at (metagraph P) (node_name x) inbound me
                    \/ edge_at bg (node_name x) inbound me))
          /\ (forall me, me ∈ control es <->
                numRegularEdges me = 0
                /\ (edge_at (metagraph P) (node_name x) inbound me
                    \/ edge_at bg (node_name x) inbound me))).
Proof.
  unfold getOneWayEdges, bind, get. split.
  - intros Hno. destruct (parentNode_of h x) as [[o|P]|]; [done| |done].
    by destruct (Hno P).
  - intros P es h' -> H.
    destruct (getBridgegraph fuel (name P) h) as [[r| |] h1] eqn:Hb; [|done|done].
    destruct (findEdgeTargetsInGraph (metagraph P) (node_name x) inbound _)
      as [e1| |] eqn:H1; [|done|done].
    destruct r as [l|]; simpl in H; [|done].
    destruct (graph_store h1 !! l) as [bg|] eqn:Hbg; simpl in H; [|done].
    destruct (findEdgeTargetsInGraph bg (node_name x) inbound e1)
      as [e2| |] eqn:H2; [|done|done].
    injection H as <- <-. exists l, bg. split; [done|]. split; [done|].
    apply findEdgeTargetsInGraph_spec in H1 as [Hr1 Hc1].
    apply findEdgeTargetsInGraph_spec in H2 as [Hr2 Hc2]. simpl in *.
    split; intros me.
    + rewrite Hr2, Hr1. split.
      * intros [[Hnil|[? ?]]|[? ?]]; [by apply elem_of_nil in Hnil|auto|auto].
      * intros [? [?|?]]; auto.
    + rewrite Hc2, Hc1. split.
      * intros [[Hnil|[? ?]]|[? ?]]; [by apply elem_of_nil in Hnil|auto|auto].
      * intros [? [?|?]]; auto.
Qed.

(** ** clusterNodes *)

Lemma graph_node_child h g k : k ∈ nodes g -> graph_node h g k = node h k.
Proof.
  unfold nodes, graph_node. rewrite elem_of_own_keys, <- hasNode_elem_of.
  by intros ->.
Qed.

Lemma clusterNodes_loop_spec h g :
  forall ns c0 c,
    clusterNodes_loop h g ns c0 = Returned c ->
    forall o n,
      n ∈ default [] (obj_get c o)
      <-> n ∈ default [] (obj_get c0 o)
          \/ exists k child,
               k ∈ ns /\ graph_node h g k = Some (Op child)
               /\ op child = o /\ o <> "" /\ op_name child = n.
Proof.
  induction ns as [|k ns IH]; intros c0 c H o n; simpl in H.
  - injection H as <-. split; [auto|].
    intros [?|(k & child & Hk & _)]; [done|]. by apply elem_of_nil in Hk.
  - destruct (graph_node h g k) as [[child|grp]|] eqn:Hk; [| |done].
    + destruct (String.eqb_spec (op child) "") as [Hop|Hop].
      * rewrite (IH _ _ H). split.
        -- intros [?|(k' & child' & Hk' & ?)]; [auto|].
           right. exists k', child'. split; [by apply list_elem_of_further|done].
        -- intros [?|(k' & child' & [->|Hk']%elem_of_cons & Hg & Ho & Hne & Hn)];
             [auto| |].
           ++ rewrite Hk in Hg. injection Hg as <-. congruence.
           ++ right. by exists k', child'.
      * rewrite (IH _ _ H). destruct (decide (op child = o)) as [Ho|Ho].
        -- rewrite Ho, obj_get_set_eq. simpl.
           rewrite elem_of_app, list_elem_of_singleton. split.
           ++ intros [[?| ->]|(k' & child' & Hk' & ?)]; [auto| |].
              ** right. exists k, child. split; [apply list_elem_of_here|].
                 split; [done|]. split; [done|]. split; [congruence|done].
              ** right. exists k', child'.
                 split; [by apply list_elem_of_further|done].
           ++ intros [?|(k' & child' & [->|Hk']%elem_of_cons & Hg & Ho' & Hne & Hn)];
                [auto| |].
              ** rewrite Hk in Hg. injection Hg as <-. auto.
              ** right. by exists k', child'.
        -- rewrite obj_get_set_ne by done. split.
           ++ intros [?|(k' & child' & Hk' & ?)]; [auto|].
              right. exists k', child'.
              split; [by apply list_elem_of_further|done].
           ++ intros [?|(k' & child' & [->|Hk']%elem_of_cons & Hg & Ho' & Hne & Hn)];
                [auto| |].
              ** rewrite Hk in Hg. injection Hg as <-. done.
              ** right. by exists k', child'.
    + rewrite (IH _ _ H). split.
      * intros [?|(k' & child' & Hk' & ?)]; [auto|].
        right. exists k', child'. split; [by apply list_elem_of_further|done].
      * intros [?|(k' & child' & [->|Hk']%elem_of_cons & Hg & ?)]; [auto| |].
        -- by rewrite Hk in Hg.
        -- right. by exists k', child'.
Qed.

Lemma clusterNodes_loop_outcome h g :
  forall ns c0,
    ((forall k, k ∈ ns -> is_Some (graph_node h g k)) ->
     exists c, clusterNodes_loop h g ns c0 = Returned c)
    /\ ((exists k, k ∈ ns /\ graph_node h g k = None) ->
        clusterNodes_loop h g ns c0 = Thrown TypeError).
Proof.
  induction ns as [|k ns IH]; intros c0; simpl.
  - split; [eauto|]. intros (k & Hk & _). by apply elem_of_nil in Hk.
  - destruct (graph_node h g k) as [[child|grp]|] eqn:Hk.
    + destruct (String.eqb (op child) ""); split.
      * intros Hall. apply IH. intros k' Hk'. apply Hall.
        by apply list_elem_of_further.
      * intros (k' & [->|Hk']%elem_of_cons & Hnone); [congruence|].
        apply IH. eauto.
      * intros Hall. apply IH. intros k' Hk'. apply Hall.
        by apply list_elem_of_further.
      * intros (k' & [->|Hk']%elem_of_cons & Hnone); [congruence|].
        apply IH. eauto.
    + split.
      * intros Hall. apply IH. intros k' Hk'. apply Hall.
        by apply list_elem_of_further.
      * intros (k' & [->|Hk']%elem_of_cons & Hnone); [congruence|].
        apply IH. eauto.
    + split; [|done]. intros Hall.
      destruct (Hall k) as [? ?]; [apply list_elem_of_here|]. congruence.
Qed.


(** ** The series of the detectors *)

Lemma Forall_obj_set {V} (P : string * V -> Prop) k (x : V) (o : JsObject V) :
  Forall P o -> P (k, x) -> Forall P (obj_set k x o).
Proof.
  induction 1 as [|[k' y] o Hy Ho IH]; intros Hx; simpl.
  - by apply Forall_cons.
  - destruct (String.eqb k' k); apply Forall_cons; auto.
Qed.

Lemma run_singleton x : run [x].
Proof. intros i a b _ Hb. by destruct i. Qed.

Lemma run_snoc l x d :
  run l -> is_next (clusterId x) (clusterId (List.last l d)) = true ->
  l <> [] -> run (l ++ [x]).
Proof.
  intros Hrun Hnext Hne i a b Ha Hb.
  destruct (decide (S i < length l)) as [Hlt|Hge].
  - rewrite lookup_app_l in Ha by lia. rewrite lookup_app_l in Hb by lia.
    by apply (Hrun i).
  - pose proof (lookup_lt_Some _ _ _ Hb) as Hlen. rewrite length_app in Hlen.
    simpl in Hlen. assert (Hi : S i = length l) by lia.
    rewrite lookup_app_l in Ha by lia.
    rewrite lookup_app_r in Hb by lia.
    replace (S i - length l) with 0 in Hb by lia. injection Hb as <-.
    assert (Hlast : List.last l d = a).
    { clear -Ha Hi. revert i Ha Hi.
      induction l as [|y l IH]; intros i Ha Hi; [done|].
      destruct l as [|z l].
      - simpl in Hi. injection Hi as ->. by injection Ha as ->.
      - destruct i as [|i]; [simpl in Hi; lia|].
        change (List.last (y :: z :: l) d) with (List.last (z :: l) d).
        apply (IH i); [exact Ha|]. simpl in *. lia. }
    by rewrite <- Hlast.
Qed.

(** The series node that [addSeriesToDict] fills from the candidates. *)
Lemma fill_series (xs : list GroupNode) :
  forall cur,
    let filled :=
      fold_left
        (fun (cur : GroupNode) (x : GroupNode) =>
           set_metagraph (setNode (name x) (metagraph cur))
             (set_ids (ids cur ++ [clusterId x]) cur))
        xs cur in
    name filled = name cur /\ type filled = type cur
    /\ ids filled = ids cur ++ map clusterId xs
    /\ length (graph_nodes (metagraph filled))
       <= length (graph_nodes (metagraph cur)) + length xs.
Proof.
  induction xs as [|x xs IH]; intros cur; simpl.
  - rewrite app_nil_r. repeat split; lia.
  - destruct (IH (set_metagraph (setNode (name x) (metagraph cur))
                    (set_ids (ids cur ++ [clusterId x]) cur)))
      as (Hn & Ht & Hi & Hl).
    simpl in *. rewrite Hn, Ht, Hi, <- app_assoc. repeat split.
    etrans; [exact Hl|]. unfold setNode.
    destruct (hasNode (metagraph cur) (name x)); simpl; [lia|].
    rewrite length_app. simpl. lia.
Qed.

Lemma run_consecutive l : run l -> consecutive (map clusterId l).
Proof.
  intros Hrun i a b Ha Hb. rewrite list_lookup_fmap in Ha, Hb.
  destruct (l !! i) as [x|] eqn:Hx; [|done].
  destruct (l !! S i) as [y|] eqn:Hy; [|done].
  injection Ha as <-. injection Hb as <-. by apply (Hrun i).
Qed.

Lemma addSeriesToDict_entries seriesNodes dict cid g :
  Forall series_entry dict -> run seriesNodes ->
  Forall series_entry (addSeriesToDict seriesNodes dict cid g).
Proof.
  intros Hdict Hrun. unfold addSeriesToDict.
  destruct seriesNodes as [|first [|second rest]]; [done|done|].
  apply Forall_obj_set; [done|].
  set (xs := first :: second :: rest) in *.
  set (curSeriesName := getSeriesNodeName _ _ _ _).
  destruct (fill_series xs
              (createSeriesNode (prefix first) (suffix first) (parent first)
                 cid curSeriesName)) as (Hn & Ht & Hi & Hl).
  unfold series_entry. cbn [fst snd].
  rewrite Hn, Ht, Hi. simpl in Hl. simpl.
  repeat split; try lia.
  - by apply (run_consecutive xs).
  - rewrite length_map. subst xs. simpl in *. lia.
Qed.

Lemma group_runs_entries cid g :
  forall rest seriesNodes dict,
    Forall series_entry dict -> run seriesNodes -> seriesNodes <> [] ->
    Forall series_entry (group_runs rest seriesNodes dict cid g).
Proof.
  induction rest as [|nextNode rest IH]; intros seriesNodes dict Hdict Hrun Hne;
    simpl.
  - by apply addSeriesToDict_entries.
  - destruct (is_next _ _) eqn:Hnext.
    + apply IH; [done| |by destruct seriesNodes].
      by apply (run_snoc _ _ nextNode).
    + apply IH; [|apply run_singleton|done].
      by apply addSeriesToDict_entries.
Qed.

Lemma add_candidates_entries candidatesDict dict cid g :
  Forall series_entry dict ->
  Forall series_entry (add_candidates candidatesDict dict cid g).
Proof.
  unfold add_candidates. revert dict.
  induction (obj_entries candidatesDict) as [|c cs IH]; intros dict Hdict;
    simpl; [done|].
  apply IH. destruct (sort_by_clusterId c.2) as [|first [|second rest]];
    [done|done|].
  apply (group_runs_entries cid g (second :: rest) [first] dict);
    [done|apply run_singleton|done].
Qed.

Lemma fold_left_entries {A} (f : JsObject GroupNode -> A -> JsObject GroupNode) :
  (forall dict a, Forall series_entry dict -> Forall series_entry (f dict a)) ->
  forall l dict,
    Forall series_entry dict -> Forall series_entry (fold_left f l dict).
Proof.
  intros Hf. induction l as [|a l IH]; intros dict Hdict; simpl; [done|].
  apply IH. by apply Hf.
Qed.


Lemma fold_left_unchanged {A B} (f : B -> A -> B) (l : list A) (d : B) :
  (forall a, a ∈ l -> forall d', f d' a = d') -> fold_left f l d = d.
Proof.
  induction l as [|a l IH]; intros Hf; simpl; [done|].
  rewrite (Hf a (list_elem_of_here _ _)). apply IH.
  intros a' Ha'. by apply Hf, list_elem_of_further.
Qed.

(** X19: clusters that hold at most one member each make no series, under
    either policy: the dictionary that the detector returns is empty. *)
Theorem isolated_clusters_make_no_series (clusters : JsObject (list string))
  (g : Graph)
  (Hisolated : forall c, c ∈ obj_entries clusters -> length c.2 <= 1) :
  detectSeriesUsingNumericSuffixes clusters g = []
  /\ detectSeriesAnywhereInNodeName clusters g = [].
Proof.
  unfold detectSeriesUsingNumericSuffixes, detectSeriesAnywhereInNodeName.
  split; apply fold_left_unchanged; intros c Hc dict;
    apply Hisolated, Nat.leb_le in Hc; by rewrite Hc.
Qed.

(** ** joinAndAggregateStats *)

Lemma rollup_keeps_refl h : rollup_keeps h h.
Proof.
  split; [done|]. split; [|done].
  intros n x x' c Hx Hx'. rewrite Hx in Hx'. by injection Hx' as <-.
Qed.

Lemma rollup_keeps_trans h1 h2 h3 :
  rollup_keeps h1 h2 -> rollup_keeps h2 h3 -> rollup_keeps h1 h3.
Proof.
  intros (Hn & Hc & Hl & Hm & Ho & Hs & Hg) (Hn' & Hc' & Hl' & Hm' & Ho' & Hs' & Hg').
  split; [|split; [|repeat split; congruence]].
  - intros n. by rewrite Hn', Hn.
  - intros n x x'' c Hx Hx''.
    destruct (node h2 n) as [x'|] eqn:Hx'.
    + etrans; [by apply (Hc n x x' c)|by apply (Hc' n x' x'' c)].
    + specialize (Hn n). rewrite Hx, Hx' in Hn. done.
Qed.

(** A change of the nodes of the index by a function that writes stats and
    histograms only and lowers no count. *)
Lemma rollup_keeps_alter (f : Node -> Node) n h :
  (forall x, erase_stats (f x) = erase_stats x) ->
  (forall x c, cluster_count x c <= cluster_count (f x) c) ->
  rollup_keeps h (set_index (alter f n (index h)) h).
Proof.
  intros He Hc. split; [|split; [|done]].
  - intros m. unfold node. simpl. destruct (decide (n = m)) as [->|Hne].
    + rewrite lookup_alter_eq. destruct (index h !! m); simpl; [|done].
      by rewrite He.
    + by rewrite lookup_alter_ne.
  - intros m x x' c. unfold node. simpl. destruct (decide (n = m)) as [->|Hne].
    + rewrite lookup_alter_eq. intros ->. simpl. intros [= <-]. apply Hc.
    + rewrite lookup_alter_ne by done. intros -> [= <-]. done.
Qed.

Lemma rollup_keeps_fmap (f : Node -> Node) h :
  (forall x, erase_stats (f x) = erase_stats x) ->
  (forall x c, cluster_count x c <= cluster_count (f x) c) ->
  rollup_keeps h (set_index (f <$> index h) h).
Proof.
  intros He Hc. split; [|split; [|done]].
  - intros m. unfold node. simpl. rewrite lookup_fmap.
    destruct (index h !! m); simpl; [|done]. by rewrite He.
  - intros m x x' c. unfold node. simpl. rewrite lookup_fmap.
    intros ->. simpl. intros [= <-]. apply Hc.
Qed.

Lemma rollup_keeps_update_group n (f : GroupNode -> GroupNode) h :
  (forall g, erase_stats (Group (f g)) = erase_stats (Group g)) ->
  (forall g c, cluster_count (Group g) c <= cluster_count (Group (f g)) c) ->
  rollup_keeps h (update_group n f h).
Proof.
  intros He Hc. apply rollup_keeps_alter.
  - intros [o|g]; [done|apply He].
  - intros [o|g] c; [done|apply Hc].
Qed.

Lemma rollup_keeps_update_op n (f : OpNode -> OpNode) h :
  (forall o, erase_stats (Op (f o)) = erase_stats (Op o)) ->
  rollup_keeps h (update_op n f h).
Proof.
  intros He. apply rollup_keeps_alter.
  - intros [o|g]; [apply He|done].
  - intros [o|g] c; done.
Qed.

Lemma increment_le k c (hist : Histogram) :
  default 0 (hist !! c) <= default 0 (increment k hist !! c).
Proof.
  unfold increment. destruct (decide (k = c)) as [->|Hne].
  - rewrite lookup_insert_eq. simpl. lia.
  - by rewrite lookup_insert_ne.
Qed.

Ltac rollup_chain :=
  repeat first
    [ apply rollup_keeps_refl
    | eapply rollup_keeps_trans;
      [|apply rollup_keeps_update_group;
        [by intros []|first [done|intros; apply increment_le]]]
    | eapply rollup_keeps_trans;
      [|apply rollup_keeps_update_op; by intros []] ].

Lemma bubble_step_keeps leaf pname p h r h' :
  bubble_step leaf pname p h = (r, h') -> rollup_keeps h h'.
Proof.
  unfold bubble_step. intros H.
  destruct (node_device leaf) as [d|], (node_xlaCluster leaf) as [c|],
    p as [o|g];
    cbv beta iota zeta delta [modify throw ret bind get put] in H;
    try (injection H as <- <-; rollup_chain);
    (destruct (node_stats leaf) as [s|]; [|injection H as <- <-; rollup_chain]);
    match type of H with
    | context [node ?X pname] => destruct (node X pname) as [[o'|g']|]
    end;
    try (injection H as <- <-; rollup_chain);
    first [destruct (op_stats o')|destruct (stats g')];
    injection H as <- <-; rollup_chain.
Qed.

Lemma bubble_up_keeps fuel leaf :
  forall nodeRef h r h',
    bubble_up fuel leaf nodeRef h = (r, h') -> rollup_keeps h h'.
Proof.
  induction fuel as [|fuel IH]; intros nodeRef h r h' H; simpl in H.
  - destruct (node h nodeRef) as [x|]; [|injection H as <- <-; apply rollup_keeps_refl].
    destruct (node_parentNode x) as [pname|];
      [|injection H as <- <-; apply rollup_keeps_refl].
    destruct (node h pname); injection H as <- <-; apply rollup_keeps_refl.
  - destruct (node h nodeRef) as [x|]; [|injection H as <- <-; apply rollup_keeps_refl].
    destruct (node_parentNode x) as [pname|];
      [|injection H as <- <-; apply rollup_keeps_refl].
    destruct (node h pname) as [p|];
      [|injection H as <- <-; apply rollup_keeps_refl].
    unfold bind in H.
    destruct (bubble_step leaf pname p h) as [r1 h1] eqn:E1.
    apply bubble_step_keeps in E1.
    destruct r1 as [[]| |]; [|by injection H as <- <-|by injection H as <- <-].
    eapply rollup_keeps_trans; [exact E1|]. by eapply IH.
Qed.

(** X12: whatever its outcome, [joinAndAggregateStats] changes nothing of a
    hierarchy but the stats and the histograms of devices and of XLA
    clusters of its nodes and the lists of the names of devices and of XLA
    clusters: names, parents, metagraphs, bridge graphs and orderings are
    as before.  No count of an XLA cluster at a container is lower after
    the call than before it; the call does not empty those histograms. *)
Theorem joinAndAggregateStats_keeps (fuel : nat) (h h' : Hierarchy)
  (r : Outcome unit) (Hrun : joinAndAggregateStats fuel h = (r, h')) :
  rollup_keeps h h'.
Proof.
  unfold joinAndAggregateStats, bind, root_leaves, get in Hrun.
  destruct (leaves_loop fuel h [ROOT_NAME] []) as [leafNames| |];
    [|injection Hrun as <- <-; apply rollup_keeps_refl
     |injection Hrun as <- <-; apply rollup_keeps_refl].
  destruct (collect_names h leafNames [] []) as [names| |];
    [|injection Hrun as <- <-; apply rollup_keeps_refl
     |injection Hrun as <- <-; apply rollup_keeps_refl].
  simpl in Hrun.
  set (h0 := set_devices _ _ h) in Hrun.
  set (h1 := set_index _ h0) in Hrun.
  assert (H1 : rollup_keeps h h1).
  { apply (rollup_keeps_trans h h0 h1).
    - split; [done|]. split; [|done].
      intros n x x' c Hx Hx'. change (node h0 n) with (node h n) in Hx'.
      rewrite Hx in Hx'. by injection Hx' as <-.
    - apply (rollup_keeps_fmap reset_stats h0);
        [by intros [?|[]]|by intros [?|?] ?]. }
  destruct (leaves_loop fuel h1 [ROOT_NAME] []) as [leafNames'| |];
    [|by injection Hrun as <- <-|by injection Hrun as <- <-].
  eapply (each_invariant (rollup_keeps h)); [|exact H1|exact Hrun].
  intros nodeName s r0 s' Hs Hbody. simpl in Hbody.
  destruct (node s nodeName) as [leaf|]; [|by injection Hbody as <- <-].
  eapply rollup_keeps_trans; [exact Hs|]. by eapply bubble_up_keeps.
Qed.

(** ** What getBridgegraph leaves alone *)

Lemma writes_graph_refl l h : writes_graph l h h.
Proof. by repeat split. Qed.

Lemma writes_graph_trans l h1 h2 h3 :
  writes_graph l h1 h2 -> writes_graph l h2 h3 -> writes_graph l h1 h3.
Proof.
  intros (Hi & Hg & Hm & Hl & Hd & Hx & Ho & Hs)
         (Hi' & Hg' & Hm' & Hl' & Hd' & Hx' & Ho' & Hs').
  split; [congruence|]. split.
  { intros k Hk. by rewrite Hg', Hg. }
  split; [lia|]. repeat split; congruence.
Qed.

Lemma bridge_baseEdge_writes fuel nodeName l inb ev ew e h r h' :
  bridge_baseEdge fuel nodeName l inb ev ew e h = (r, h') -> writes_graph l h h'.
Proof.
  unfold bridge_baseEdge, bind, getChildName, get, throw, modify, addBaseEdge.
  destruct (getChildName_loop _ _ _ _ _); intros H;
    try (injection H as <- <-; apply writes_graph_refl).
  destruct (graph_store h !! l); injection H as <- <-;
    [|apply writes_graph_refl].
  split; [done|]. split.
  { intros k Hk. simpl. by rewrite lookup_insert_ne. }
  split; [simpl; lia|]. done.
Qed.

Lemma bridge_parentGraph_writes fuel nodeName l pg h r h' :
  bridge_parentGraph fuel nodeName l pg h = (r, h') -> writes_graph l h h'.
Proof.
  unfold bridge_parentGraph, bind, get, throw.
  destruct (read_graph pg h); [|intros [= <- <-]; apply writes_graph_refl].
  apply (each_invariant (writes_graph l h)); [|apply writes_graph_refl].
  intros x s r0 s' Hs.
  destruct (read_graph pg s); [|intros [= <- <-]; exact Hs].
  destruct (edge _ _ _); [|intros [= <- <-]; exact Hs].
  apply (each_invariant (writes_graph l h)); [|exact Hs].
  intros y s1 r1 s1' Hs1 H. apply bridge_baseEdge_writes in H.
  by apply (writes_graph_trans l h s1 s1').
Qed.

Lemma bridge_extends_refl h : bridge_extends h h.
Proof. by repeat split. Qed.

Lemma bridge_extends_trans h1 h2 h3 :
  bridge_extends h1 h2 -> bridge_extends h2 h3 -> bridge_extends h1 h3.
Proof.
  intros (Hn & Hg & Hm & Hl & Hd & Hx & Ho & Hs)
         (Hn' & Hg' & Hm' & Hl' & Hd' & Hx' & Ho' & Hs').
  split. { intros n. by rewrite Hn', Hn. }
  split; [auto|]. split; [lia|]. repeat split; congruence.
Qed.

Lemma getBridgegraph_frame fuel :
  forall nodeName h r h',
    getBridgegraph fuel nodeName h = (r, h') -> bridge_extends h h'.
Proof.
  induction fuel as [|fuel IH]; intros nodeName h r h' H; simpl in H.
  - injection H as <- <-. apply bridge_extends_refl.
  - unfold bind, get in H.
    destruct (node h nodeName) as [[o|g]|] eqn:Hnode;
      try solve [injection H as <- <-; apply bridge_extends_refl].
    destruct (bridgegraph g) as [l|] eqn:Hl;
      try solve [injection H as <- <-; apply bridge_extends_refl].
    unfold put in H.
    set (l := fresh (dom (graph_store h))) in *.
    set (h0 := update_group nodeName (set_bridgegraph (Some l))
                 (set_graph l createGraph h)) in *.
    assert (Hfresh : graph_store h !! l = None).
    { apply not_elem_of_dom. apply is_fresh. }
    assert (H0 : bridge_extends h h0).
    { split.
      { intros n. unfold h0, node, update_group. simpl.
        destruct (decide (nodeName = n)) as [->|Hne].
        - rewrite lookup_alter_eq. destruct (index h !! n) as [[?|[]]|]; done.
        - by rewrite lookup_alter_ne. }
      split; [|done].
      intros k g0 Hk. simpl. rewrite lookup_insert_ne; [done|].
      intros <-. congruence. }
    destruct (parentNode_of h (Group g)) as [[po|pg]|];
      try solve [injection H as <- <-; exact H0].
    destruct (getBridgegraph fuel (name pg) h0) as [[pb| |] h1] eqn:Hrec;
      pose proof Hrec as Hkeep; apply IH in Hrec;
      try solve [injection H as <- <-; eapply bridge_extends_trans; eauto].
    assert (H01 : bridge_extends h h1) by (eapply bridge_extends_trans; eauto).
    destruct (each _ _ h1) as [r2 h2] eqn:Heach.
    assert (Hw : writes_graph l h1 h2).
    { revert Heach.
      apply (each_invariant (writes_graph l h1)); [|apply writes_graph_refl].
      intros x s r0 s' Hs Hx. apply bridge_parentGraph_writes in Hx.
      by apply (writes_graph_trans l h1 s s'). }
    clear Heach. rename Hw into Heach.
    assert (H12 : bridge_extends h h2).
    { destruct H01 as (Hn & Hg & Hm & Hlf & Hd & Hx & Ho & Hs).
      destruct Heach as (Hi' & Hg' & Hm' & Hlf' & Hd' & Hx' & Ho' & Hs').
      split. { intros n. unfold node in *. by rewrite Hi', Hn. }
      split.
      { intros k g0 Hk. rewrite Hg'; [by apply Hg|]. intros ->. congruence. }
      split; [lia|]. repeat split; congruence. }
    by destruct r2 as [[]| |]; injection H as <- <-.
Qed.

(** X13: whatever its outcome, [getBridgegraph] changes no node of the
    hierarchy but in the reference to its bridge graph, so names, parents
    and metagraphs are as before; a container that had a bridge graph keeps
    that graph, and the graphs in the store, the bridge graphs made by
    earlier calls, are as before; the orderings are untouched. *)
Theorem getBridgegraph_extends (fuel : nat) (nodeName : string)
  (h h' : Hierarchy) (r : Outcome (option nat))
  (Hrun : getBridgegraph fuel nodeName h = (r, h')) :
  bridge_extends h h' /\ bridge_kept h h'.
Proof.
  split; [by eapply getBridgegraph_frame|by eapply getBridgegraph_kept].
Qed.

(** ** The guards of getTopologicalOrdering *)

Ltac outcome_facts :=
  repeat split;
  try solve [done | by intros [? ?] | by intros [?|[? ?]] | eauto].


(** ** addEdges: the buffers of the ancestor paths *)


Lemma addEdge_unresolved fuel graph e s :
  obj_has (edge_v e) (slim_nodes graph) = false
  \/ obj_has (edge_w e) (slim_nodes graph) = false ->
  (forall n, n = edge_v e \/ n = edge_w e ->
     obj_has n (slim_nodes graph) = true ->
     is_Some (ancestors fuel (es_hierarchy s) (Some n))) ->
  exists sp dp,
    addEdge fuel graph e s = (Returned tt, mkEdgeState (es_hierarchy s) sp dp).
Proof.
  intros Habsent Hfuel. unfold addEdge.
  assert (Hget : forall n path,
            n = edge_v e \/ n = edge_w e ->
            exists i p, getPath fuel (es_hierarchy s)
                          (slim_node graph (es_hierarchy s) n) path = Some (i, p)
                        /\ (obj_has n (slim_nodes graph) = false -> i = 0)).
  { intros n path Hn. unfold slim_node.
    destruct (obj_has n (slim_nodes graph)) eqn:Hhas.
    - destruct (Hfuel n Hn Hhas) as [c Hc].
      rewrite (getPath_ancestors_node _ _ _ _ path Hc).
      eexists _, _. split; [reflexivity|done].
    - rewrite getPath_undefined. eexists _, _. split; [reflexivity|done]. }
  destruct (Hget (edge_v e) (sourcePath s)) as (si & sp & -> & Hsi); [auto|].
  destruct (Hget (edge_w e) (destPath s)) as (di & dp & -> & Hdi); [auto|].
  exists sp, dp. destruct Habsent as [Hv|Hw].
  - by rewrite (Hsi Hv).
  - rewrite (Hdi Hw). by destruct si.
Qed.

(** X16: [addEdges] on a graph in which every raw edge has an endpoint that
    the node map does not hold returns without an error and leaves the
    hierarchy as it was: no Metaedge is made. *)
Theorem addEdges_all_unresolved (fuel : nat) (graph : SlimGraph)
  (h : Hierarchy)
  (Hall : forall e, e ∈ slim_edges graph ->
            obj_has (edge_v e) (slim_nodes graph) = false
            \/ obj_has (edge_w e) (slim_nodes graph) = false)
  (Hfuel : forall e n, e ∈ slim_edges graph ->
             n = edge_v e \/ n = edge_w e ->
             obj_has n (slim_nodes graph) = true ->
             is_Some (ancestors fuel h (Some n))) :
  addEdges fuel graph h = (Returned tt, h).
Proof.
  unfold addEdges.
  assert (Hloop : forall es s,
            (forall e, e ∈ es -> e ∈ slim_edges graph) ->
            es_hierarchy s = h ->
            exists s', each es (addEdge fuel graph) s = (Returned tt, s')
                       /\ es_hierarchy s' = h).
  { induction es as [|e es IH]; intros s Hes Hs.
    - exists s. done.
    - rewrite each_cons. unfold bind.
      destruct (addEdge_unresolved fuel graph e s) as (sp & dp & ->).
      + apply Hall, Hes, list_elem_of_here.
      + intros n Hn Hhas. rewrite Hs. apply (Hfuel e n); [|done|done].
        apply Hes, list_elem_of_here.
      + apply IH; [|done]. intros e' He'. by apply Hes, list_elem_of_further. }
  destruct (Hloop (slim_edges graph) (mkEdgeState h [] [])) as (s' & -> & Hs');
    [done|done|].
  simpl. by rewrite Hs'.
Qed.

(** ** addNodes: the place of a leaf *)

Lemma descend_result graph x :
  forall path parent h p h',
    descend graph x path parent h = (Returned p, h') ->
    p = parent \/ p ∈ path.
Proof.
  induction path as [|n rest IH]; intros parent h p h' H; simpl in H.
  - injection H as <- <-. by left.
  - unfold bind, get, put in H.
    destruct (node h parent) as [[o|g]|]; [done| |done].
    destruct rest as [|m rest'].
    + injection H as <- <-. by left.
    + set (h1 := update_group parent _ h) in H.
      destruct (node h1 n).
      * simpl in H. apply IH in H as [->|Hp]; right.
        -- apply list_elem_of_here.
        -- by apply list_elem_of_further.
      * simpl in H. apply IH in H as [->|Hp]; right.
        -- apply list_elem_of_here.
        -- by apply list_elem_of_further.
Qed.

Lemma each_setNode_other (es : list OpNode) (f : OpNode -> Node) (m : string) :
  forall h r h',
    each es (fun e => modify (hierarchy_setNode (op_name e) (f e))) h = (r, h') ->
    (forall e, e ∈ es -> op_name e <> m) ->
    r = Returned tt /\ node h' m = node h m.
Proof.
  induction es as [|e es IH]; intros h r h' H Hne.
  - injection H as <- <-. done.
  - rewrite each_cons in H. unfold bind, modify in H.
    apply IH in H as [-> ->].
    + split; [done|]. unfold node, hierarchy_setNode. simpl.
      rewrite lookup_insert_ne; [done|]. apply Hne, list_elem_of_here.
    + intros e' He'. by apply Hne, list_elem_of_further.
Qed.

(** X17: when the loop body of [addNodes] returns for a leaf none of whose
    embeddings has the name of the leaf or of a container on its path, the
    index holds the leaf under its name, with its parent pointer at a
    container on the path (the root for a name of one segment), and that
    container is a group node whose metagraph has the leaf as a child. *)
Theorem addNode_places_leaf (graph : SlimGraph) (x : OpNode)
  (h h' : Hierarchy)
  (Hrun : addNode graph x h = (Returned tt, h'))
  (Hembeddings : forall e, e ∈ inEmbeddings x ++ outEmbeddings x ->
                   op_name e ∉ ROOT_NAME :: op_name x
                                :: getHierarchicalPath (op_name x)) :
  exists parent g,
    parent ∈ ROOT_NAME :: getHierarchicalPath (op_name x)
    /\ node h' (op_name x) = Some (Op (set_op_parentNode (Some parent) x))
    /\ node h' parent = Some (Group g)
    /\ hasNode (metagraph g) (op_name x) = true.
Proof.
  unfold addNode, bind, modify, get, put in Hrun.
  set (h0 := update_group ROOT_NAME _ h) in Hrun.
  destruct (descend graph x (getHierarchicalPath (op_name x)) ROOT_NAME h0)
    as [[parent| |] h1] eqn:Hd; [|done|done].
  apply descend_result in Hd.
  set (h2 := hierarchy_setNode (op_name x) _ h1) in Hrun.
  destruct (node h2 parent) as [[o|g]|] eqn:Hparent; [done| |done].
  assert (Hne : parent <> op_name x).
  { intros ->. unfold h2, node, hierarchy_setNode in Hparent. simpl in Hparent.
    by rewrite lookup_insert_eq in Hparent. }
  set (h3 := update_group parent _ h2) in Hrun.
  assert (Hin : parent ∈ ROOT_NAME :: getHierarchicalPath (op_name x)).
  { destruct Hd as [->|Hp]; [apply list_elem_of_here|].
    by apply list_elem_of_further. }
  assert (Hleaf : node h3 (op_name x)
                  = Some (Op (set_op_parentNode (Some parent) x))).
  { unfold h3. rewrite node_update_group_ne by done.
    unfold h2, node, hierarchy_setNode. simpl. apply lookup_insert_eq. }
  pose proof (node_update_group_eq parent
                (fun p => set_metagraph (setNode (op_name x) (metagraph p)) p)
                h2 g Hparent) as Hgroup.
  fold h3 in Hgroup.
  exists parent, (set_metagraph (setNode (op_name x) (metagraph g)) g).
  split; [done|].
  destruct (each_setNode_other _ _ (op_name x) _ _ _ Hrun) as [_ ->].
  { intros e He Heq. apply (Hembeddings e He). rewrite Heq.
    apply list_elem_of_further, list_elem_of_here. }
  destruct (each_setNode_other _ _ parent _ _ _ Hrun) as [_ ->].
  { intros e He Heq. apply (Hembeddings e He). rewrite Heq.
    apply elem_of_cons in Hin as [->|Hp]; [apply list_elem_of_here|].
    by do 2 apply list_elem_of_further. }
  split; [done|]. split; [done|].
  simpl. unfold setNode. destruct (hasNode (metagraph g) (op_name x)) eqn:Hhas;
    [done|]. simpl. apply hasNode_elem_of. simpl.
  apply elem_of_app. right. apply list_elem_of_here.
Qed.

(** ** The edges of a bridge graph *)

Lemma is_child_index h h' nodeName c :
  index h' = index h -> is_child h nodeName c -> is_child h' nodeName c.
Proof.
  intros E (k & x & p & Hk & Hx & Hp & Hn). exists k, x, p.
  unfold parentNode_of, node in *. rewrite E. done.
Qed.

Lemma getChildName_loop_child fuel h nodeName d c :
  forall cur,
    (forall x, cur = Some x -> exists k, node h k = Some x) ->
    getChildName_loop fuel h nodeName d cur = Returned c ->
    is_child h nodeName c.
Proof.
  induction fuel as [|fuel IH]; intros cur Hcur H; simpl in H.
  - by destruct cur.
  - destruct cur as [x|]; [|done].
    destruct (parentNode_of h x) as [p|] eqn:Hp.
    + destruct (String.eqb_spec (node_name p) nodeName) as [Hn|Hn].
      * injection H as <-. destruct (Hcur x eq_refl) as [k Hk].
        by exists k, x, p.
      * apply (IH (Some p)); [|done]. intros y [= <-].
        unfold parentNode_of in Hp.
        destruct (node_parentNode x) as [pn|]; [|done]. by exists pn.
    + apply (IH None); [|done]. done.
Qed.

Lemma Forall_put_edge (P : string * string * Metaedge -> Prop) v w me es :
  Forall P es -> P (v, w, me) -> Forall P (put_edge v w me es).
Proof.
  induction 1 as [|[[v' w'] me'] es Hy Hes IH]; intros Hx; simpl.
  - by apply Forall_cons.
  - destruct (String.eqb v' v && String.eqb w' w); apply Forall_cons; auto.
Qed.

Lemma find_edge_elem_of es v w me :
  find_edge es v w = Some me -> (v, w, me) ∈ es.
Proof.
  induction es as [|[[v' w'] me'] es IH]; simpl; [done|].
  destruct (String.eqb_spec v' v) as [->|Hv];
    [destruct (String.eqb_spec w' w) as [->|Hw]|]; simpl.
  - intros [= <-]. apply list_elem_of_here.
  - intros H. by apply list_elem_of_further, IH.
  - intros H. by apply list_elem_of_further, IH.
Qed.

Lemma bridge_baseEdge_filled fuel h0 nodeName l inb ev ew e s r s' :
  bridge_filled h0 nodeName l s ->
  bridge_baseEdge fuel nodeName l inb ev ew e s = (r, s') ->
  bridge_filled h0 nodeName l s'.
Proof.
  intros Hs. pose proof Hs as (Hi & bg & Hbg & Hg).
  unfold bridge_baseEdge, bind, getChildName, get, throw, modify, addBaseEdge.
  destruct (getChildName_loop _ _ _ _ _) as [c| |] eqn:Hc; intros H;
    try (injection H as <- <-; exact Hs).
  rewrite Hbg in H. injection H as <- <-.
  split; [done|]. eexists. split; [simpl; apply lookup_insert_eq|].
  simpl. apply Forall_put_edge; [done|].
  assert (Hchild : is_child h0 nodeName c).
  { apply (is_child_index s); [done|].
    apply (getChildName_loop_child _ _ _ _ _ _ (fun x Hx => ex_intro _ _ Hx) Hc). }
  destruct (edge bg _ _) as [me|] eqn:Hme.
  - apply find_edge_elem_of in Hme.
    exact (proj1 (Forall_forall _ _) Hg _ Hme).
  - exists inb. split; [done|]. simpl. by destruct inb.
Qed.

Lemma bridge_parentGraph_filled fuel h0 nodeName l pg s r s' :
  bridge_filled h0 nodeName l s ->
  bridge_parentGraph fuel nodeName l pg s = (r, s') ->
  bridge_filled h0 nodeName l s'.
Proof.
  intros Hs. unfold bridge_parentGraph, bind, get, throw.
  destruct (read_graph pg s); [|by intros [= <- <-]].
  apply (each_invariant (bridge_filled h0 nodeName l)); [|done].
  intros x s1 r1 s1' Hs1.
  destruct (read_graph pg s1); [|by intros [= <- <-]].
  destruct (edge _ _ _); [|by intros [= <- <-]].
  apply (each_invariant (bridge_filled h0 nodeName l)); [|done].
  intros y s2 r2 s2' Hs2 H. by eapply bridge_baseEdge_filled.
Qed.

(** X18: the bridge graph that a first call of [getBridgegraph] makes for a
    container.  Every edge of it carries the flag that says whether it
    comes into the container or goes out of it, and its end on the side of
    the container, the target of an edge that comes in and the source of
    one that goes out, is a child of the container. *)
Theorem getBridgegraph_edges (fuel : nat) (nodeName : string)
  (h h' : Hierarchy) (g : GroupNode) (l : nat)
  (Hcontainer : node h nodeName = Some (Group g))
  (Hfirst : bridgegraph g = None)
  (Hrun : getBridgegraph fuel nodeName h = (Returned (Some l), h')) :
  exists bg,
    graph_store h' !! l = Some bg
    /\ Forall (bridge_edge h' nodeName) (graph_edges bg).
Proof.
  destruct fuel as [|fuel]; simpl in Hrun; [done|].
  unfold bind, get, put in Hrun. rewrite Hcontainer, Hfirst in Hrun.
  set (l0 := fresh (dom (graph_store h))) in *.
  set (h0 := update_group nodeName (set_bridgegraph (Some l0))
               (set_graph l0 createGraph h)) in *.
  assert (Hl0 : graph_store h0 !! l0 = Some createGraph).
  { unfold h0. simpl. apply lookup_insert_eq. }
  assert (Hempty : exists bg, graph_store h0 !! l0 = Some bg
                     /\ Forall (bridge_edge h0 nodeName) (graph_edges bg)).
  { exists createGraph. split; [done|]. simpl. constructor. }
  destruct (parentNode_of h (Group g)) as [[po|pg]|].
  - by injection Hrun as <- <-.
  - destruct (getBridgegraph fuel (name pg) h0) as [[pb| |] h1] eqn:Hrec;
      [|done|done].
    apply getBridgegraph_frame in Hrec as (_ & Hstore & _).
    specialize (Hstore l0 createGraph Hl0).
    destruct (each _ _ h1) as [r2 h2] eqn:Heach.
    assert (Hfilled : bridge_filled h1 nodeName l0 h2).
    { revert Heach. apply (each_invariant (bridge_filled h1 nodeName l0)).
      - intros x s r0 s' Hs Hx. by eapply bridge_parentGraph_filled.
      - split; [done|]. exists createGraph. split; [done|]. simpl. constructor. }
    destruct r2 as [[]| |]; [|done|done]. injection Hrun as <- <-.
    destruct Hfilled as (Hi & bg & Hbg & Hg).
    exists bg. split; [done|].
    eapply Forall_impl; [exact Hg|].
    intros e (b & Hb & Hc). exists b. split; [done|].
    by apply (is_child_index h1).
  - by injection Hrun as <- <-.
Qed.

(** ** joinAndAggregateStats: the names of devices and XLA clusters *)

Lemma collect_names_spec h :
  forall leafNames d0 c0 names,
    collect_names h leafNames d0 c0 = Returned names ->
    (forall d, is_Some (obj_get names.1 d)
       <-> is_Some (obj_get d0 d)
           \/ exists n x, n ∈ leafNames /\ node h n = Some x
                          /\ node_device x = Some d)
    /\ (forall c, is_Some (obj_get names.2 c)
          <-> is_Some (obj_get c0 c)
              \/ exists n x, n ∈ leafNames /\ node h n = Some x
                             /\ node_xlaCluster x = Some c).
Proof.
  induction leafNames as [|n rest IH]; intros d0 c0 names H; simpl in H.
  - injection H as <-. simpl. split; intros k; (split; [auto|]);
      (intros [?|(n & x & Hn & _)]; [done|]); by apply elem_of_nil in Hn.
  - destruct (node h n) as [leaf|] eqn:Hleaf; [|done].
    apply IH in H as [Hd Hc]. split.
    + intros d. rewrite Hd. split.
      * intros [Hold|(n' & x & Hn' & Hx & Hdev)].
        -- destruct (node_device leaf) as [d'|] eqn:Hdev; [|auto].
           destruct (decide (d' = d)) as [->|Hne].
           ++ right. exists n, leaf. split; [apply list_elem_of_here|done].
           ++ rewrite obj_get_set_ne in Hold by done. auto.
        -- right. exists n', x. split; [by apply list_elem_of_further|done].
      * intros [Hold|(n' & x & [->|Hn']%elem_of_cons & Hx & Hdev)].
        -- left. destruct (node_device leaf) as [d'|]; [|done].
           destruct (decide (d' = d)) as [->|Hne].
           ++ rewrite obj_get_set_eq. eauto.
           ++ by rewrite obj_get_set_ne.
        -- left. rewrite Hleaf in Hx. injection Hx as <-. rewrite Hdev.
           rewrite obj_get_set_eq. eauto.
        -- right. by exists n', x.
    + intros c. rewrite Hc. split.
      * intros [Hold|(n' & x & Hn' & Hx & Hcl)].
        -- destruct (node_xlaCluster leaf) as [c'|] eqn:Hcl; [|auto].
           destruct (decide (c' = c)) as [->|Hne].
           ++ right. exists n, leaf. split; [apply list_elem_of_here|done].
           ++ rewrite obj_get_set_ne in Hold by done. auto.
        -- right. exists n', x. split; [by apply list_elem_of_further|done].
      * intros [Hold|(n' & x & [->|Hn']%elem_of_cons & Hx & Hcl)].
        -- left. destruct (node_xlaCluster leaf) as [c'|]; [|done].
           destruct (decide (c' = c)) as [->|Hne].
           ++ rewrite obj_get_set_eq. eauto.
           ++ by rewrite obj_get_set_ne.
        -- left. rewrite Hleaf in Hx. injection Hx as <-. rewrite Hcl.
           rewrite obj_get_set_eq. eauto.
        -- right. by exists n', x.
Qed.

Lemma collect_names_NoDup h :
  forall leafNames d0 c0 names,
    collect_names h leafNames d0 c0 = Returned names ->
    NoDup (map fst d0) -> NoDup (map fst c0) ->
    NoDup (obj_keys names.1) /\ NoDup (obj_keys names.2).
Proof.
  induction leafNames as [|n rest IH]; intros d0 c0 names H Hd Hc; simpl in H.
  - injection H as <-. unfold obj_keys. by rewrite !own_keys_perm.
  - destruct (node h n) as [leaf|]; [|done].
    apply IH in H; [done| |].
    + destruct (node_device leaf); [by apply obj_set_keys_NoDup|done].
    + destruct (node_xlaCluster leaf); [by apply obj_set_keys_NoDup|done].
Qed.

Lemma elem_of_obj_keys {V} (o : JsObject V) k :
  k ∈ obj_keys o <-> is_Some (obj_get o k).
Proof. unfold obj_keys. by rewrite elem_of_own_keys, obj_get_is_Some. Qed.

Lemma bubble_step_names leaf pname p h r h' :
  bubble_step leaf pname p h = (r, h') -> same_names h h'.
Proof.
  unfold bubble_step. intros H.
  destruct (node_device leaf) as [d|], (node_xlaCluster leaf) as [c|],
    p as [o|g];
    cbv beta iota zeta delta [modify throw ret bind get put] in H;
    try (injection H as <- <-; by split);
    (destruct (node_stats leaf) as [s|]; [|injection H as <- <-; by split]);
    match type of H with
    | context [node ?X pname] => destruct (node X pname) as [[o'|g']|]
    end;
    try (injection H as <- <-; by split);
    first [destruct (op_stats o')|destruct (stats g')];
    injection H as <- <-; by split.
Qed.

Lemma bubble_up_names fuel leaf :
  forall nodeRef h r h',
    bubble_up fuel leaf nodeRef h = (r, h') -> same_names h h'.
Proof.
  induction fuel as [|fuel IH]; intros nodeRef h r h' H; simpl in H.
  - destruct (node h nodeRef) as [x|]; [|by injection H as <- <-].
    destruct (node_parentNode x) as [pname|]; [|by injection H as <- <-].
    by destruct (node h pname); injection H as <- <-.
  - destruct (node h nodeRef) as [x|]; [|by injection H as <- <-].
    destruct (node_parentNode x) as [pname|]; [|by injection H as <- <-].
    destruct (node h pname) as [p|]; [|by injection H as <- <-].
    unfold bind in H.
    destruct (bubble_step leaf pname p h) as [r1 h1] eqn:E1.
    apply bubble_step_names in E1 as [E1 E1'].
    destruct r1 as [[]| |]; [|by injection H as <- <-|by injection H as <- <-].
    apply IH in H as [H H']. split; congruence.
Qed.

(** X20: after [joinAndAggregateStats] has returned, [devices] lists the
    devices of the leaves below the root and nothing else, and
    [xlaClusters] their XLA clusters, each name once. *)
Theorem joinAndAggregateStats_names (fuel : nat) (h h' : Hierarchy)
  (leaves : list string)
  (Hleaves : root_leaves fuel h = (Returned leaves, h))
  (Hrun : joinAndAggregateStats fuel h = (Returned tt, h')) :
  exists ds cs,
    devices h' = Some ds /\ xlaClusters h' = Some cs
    /\ NoDup ds /\ NoDup cs
    /\ (forall d, d ∈ ds <-> exists n x, n ∈ leaves /\ node h n = Some x
                                         /\ node_device x = Some d)
    /\ (forall c, c ∈ cs <-> exists n x, n ∈ leaves /\ node h n = Some x
                                         /\ node_xlaCluster x = Some c).
Proof.
  unfold joinAndAggregateStats, bind, get, root_leaves in Hrun, Hleaves.
  injection Hleaves as Hleaves. rewrite Hleaves in Hrun.
  destruct (collect_names h leaves [] []) as [names| |] eqn:Hnames;
    [|done|done].
  simpl in Hrun.
  set (h0 := set_devices _ _ h) in Hrun.
  set (h1 := set_index _ h0) in Hrun.
  destruct (leaves_loop fuel h1 [ROOT_NAME] []) as [leaves'| |];
    [|done|done].
  assert (Hsame : same_names h1 h').
  { revert Hrun. apply (each_invariant (same_names h1)); [|done].
    intros nodeName s r0 s' [Hs Hs'] Hbody. simpl in Hbody.
    destruct (node s nodeName) as [leaf|]; [|by injection Hbody as <- <-].
    apply bubble_up_names in Hbody as [Hb Hb']. split; congruence. }
  destruct Hsame as [Hd Hc].
  destruct (collect_names_NoDup _ _ _ _ _ Hnames) as [Hnd Hnc];
    [apply NoDup_nil_2|apply NoDup_nil_2|].
  apply collect_names_spec in Hnames as [Hds Hcs].
  exists (obj_keys names.1), (obj_keys names.2).
  split; [by rewrite Hd|]. split; [by rewrite Hc|].
  split; [done|]. split; [done|]. split.
  - intros d. rewrite elem_of_obj_keys, Hds. split.
    + intros [[? Hnil]|?]; [done|done].
    + auto.
  - intros c. rewrite elem_of_obj_keys, Hcs. split.
    + intros [[? Hnil]|?]; [done|done].
    + auto.
Qed.

(** ** getPredecessors and getSuccessors *)

Lemma push_embedded_spec :
  forall es targets h,
    exists h',
      push_embedded es targets h
      = (Returned {| control := control targets;
                     regular := regular targets ++ map embedded_metaedge es |},
         h')
      /\ index h' = index h /\ graph_store h' = graph_store h
      /\ orderings h' = orderings h
      /\ maxMetaEdgeSize h <= maxMetaEdgeSize h'.
Proof.
  induction es as [|e es IH]; intros targets h; simpl.
  - exists h. rewrite app_nil_r. by destruct targets.
  - unfold bind, addBaseEdge. simpl.
    edestruct IH as (h' & -> & Hi & Hg & Ho & Hm).
    exists h'. simpl in *. rewrite <- app_assoc. simpl.
    split; [done|]. repeat split; try done. lia.
Qed.



End Hierarchy_ts.

(** * Examples *)

(** The hierarchy that [build] makes of a graph, with the instances for the
    examples. *)
Definition example_build (graph : SlimGraph) (params : HierarchyParams)
  : Hierarchy :=
  ss_hierarchy
    (build example_size example_seriesName example_number example_prefix
       10 graph params).2.

(** The container that a hierarchy holds under a name. *)
Definition group_at (h : Hierarchy) (n : string) : GroupNode :=
  match node h n with
  | Some (Group g) => g
  | _ => createMetanode n
  end.

(** Whether a hierarchy holds a leaf under a name. *)
Definition is_leaf (h : Hierarchy) (n : string) : bool :=
  match node h n with
  | Some (Op _) => true
  | _ => false
  end.

(** The ordering that a call of [getTopologicalOrdering] has returned. *)
Definition ordering_of (r : Outcome (option nat) * Hierarchy)
  : option (gmap string nat) :=
  match r.1 with
  | Returned (Some l) => ordering_store r.2 !! l
  | _ => None
  end.

Lemma is_leaf_spec (h : Hierarchy) (n : string) :
  is_leaf h n = true -> exists o, node h n = Some (Op o).
Proof.
  unfold is_leaf. destruct (node h n) as [[o|g]|]; try discriminate.
  intros _. by exists o.
Qed.





Lemma addEdge_skips_unresolved_witness :
  let h := example_build diamond DefaultHierarchyParams in
  let e := data_edge "A" "summary" in
  obj_has (edge_w e) (slim_nodes diamond) = false
  /\ exists sp dp,
       addEdge example_size 5 diamond e (mkEdgeState h [] [])
       = (Returned tt, mkEdgeState h sp dp).
Proof.
  intros h e. split; [reflexivity|].
  apply (addEdge_skips_unresolved example_size 5 diamond e (mkEdgeState h [] [])).
  - right. reflexivity.
  - vm_compute. discriminate.
  - vm_compute. discriminate.
Defined.

Lemma build_without_series_detection_witness :
  let params :=
    {| verifyTemplate := true; seriesNodeMinSize := 0; seriesMap := ∅;
       rankDirection := "BT"; useGeneralizedSeriesPatterns := false |} in
  let b := build example_size example_seriesName example_number example_prefix
             10 three_in_a_row params in
  (seriesNodeMinSize params <= 0)%Z
  /\ series_map b.2 = ∅ /\ seriesNames b.2 = ∅ /\ no_series (ss_hierarchy b.2).
Proof.
  intros params b. split; [simpl; lia|].
  apply (build_without_series_detection example_size example_seriesName
           example_number example_prefix 10 three_in_a_row params).
  simpl. lia.
Defined.

(** The ordering of the diamond, which has no cycle: the traversal takes [B]
    from the queue a second time, after [D], and overwrites its number, so
    [B] ends with 4 and [D] with 3 although the edge [B -> D] is regular. *)
Example diamond_ordering_breaks_path :
  let h := example_build diamond DefaultHierarchyParams in
  let g := metagraph (group_at h ROOT_NAME) in
  node h ROOT_NAME = Some (Group (group_at h ROOT_NAME))
  /\ (forall a, ~ tc (regular_edge g) a a)
  /\ regular_edge g "B" "D"
  /\ exists o,
       ordering_of (getTopologicalOrdering 8 ROOT_NAME h) = Some o
       /\ o !! "A" = Some 0 /\ o !! "C" = Some 2
       /\ o !! "D" = Some 3 /\ o !! "B" = Some 4
       /\ ~ respects_paths g o.
Proof.
  intros h g.
  assert (Hroot : node h ROOT_NAME = Some (Group (group_at h ROOT_NAME)))
    by (vm_compute; reflexivity).
  assert (Hedges : map (fun e => (e.1.1, e.1.2)) (graph_edges g)
                   = [("A", "B"); ("A", "C"); ("C", "B"); ("B", "D")])
    by (vm_compute; reflexivity).
  assert (Hbd : exists me, graph_edges g !! 3 = Some ("B", "D", me)
                           /\ numRegularEdges me = 1).
  { exists (default (createMetaedge "B" "D") (edge g "B" "D")).
    split; vm_compute; reflexivity. }
  assert (Ho : exists o,
             ordering_of (getTopologicalOrdering 8 ROOT_NAME h) = Some o
             /\ o !! "A" = Some 0 /\ o !! "C" = Some 2
             /\ o !! "D" = Some 3 /\ o !! "B" = Some 4).
  { exists (default ∅ (ordering_of (getTopologicalOrdering 8 ROOT_NAME h))).
    repeat split; vm_compute; reflexivity. }
  clearbody g. clearbody h.
  assert (Hregular : regular_edge g "B" "D").
  { destruct Hbd as (me & Hme & Hn). exists me. split.
    - by apply (list_elem_of_lookup_2 _ 3).
    - by rewrite Hn. }
  set (rank := fun n : string =>
                 if String.eqb n "A" then 0 else if String.eqb n "C" then 1
                 else if String.eqb n "B" then 2 else 3).
  assert (Hrank : forall a b, regular_edge g a b -> rank a < rank b).
  { intros a b (me & Hin & _).
    assert (Hab : (a, b) ∈ map (fun e => (e.1.1, e.1.2)) (graph_edges g)).
    { apply (list_elem_of_fmap_2 (fun e => (e.1.1, e.1.2)) _ (a, b, me) Hin). }
    rewrite Hedges in Hab.
    repeat (apply elem_of_cons in Hab as [[= -> ->]|Hab]; [vm_compute; lia|]).
    by apply elem_of_nil in Hab. }
  assert (Htc : forall a b, tc (regular_edge g) a b -> rank a < rank b).
  { intros a b Hab. induction Hab as [a b Hab|a b c Hab _ IH].
    - by apply Hrank.
    - apply Hrank in Hab. lia. }
  split; [exact Hroot|]. split.
  { intros a Ha. apply Htc in Ha. lia. }
  split; [exact Hregular|].
  destruct Ho as (o & Ho & HA & HC & HD & HB).
  exists o. repeat (split; [assumption|]).
  intros Hpaths.
  destruct (Hpaths "B" "D") as (i & j & Hi & Hj & Hij).
  { by apply tc_once. }
  rewrite HB in Hi. rewrite HD in Hj.
  injection Hi as <-. injection Hj as <-. lia.
Qed.

(** Two rollups in a row: [joinAndAggregateStats] empties [deviceHistogram]
    before it counts and leaves [xlaClusterHistogram] as it was.  With one
    leaf in the cluster [c], the root's count for [c] is 1 after [build], 2
    after the first rollup and 3 after the second, while the count for the
    device stays 1. *)
Example xlaClusterHistogram_accumulates :
  let h0 := example_build placed_leaf DefaultHierarchyParams in
  let h1 := (joinAndAggregateStats 5 h0).2 in
  let h2 := (joinAndAggregateStats 5 h1).2 in
  let devices h := deviceHistogram (group_at h ROOT_NAME) !! "d" in
  let clusters h := xlaClusterHistogram (group_at h ROOT_NAME) !! "c" in
  (joinAndAggregateStats 5 h0).1 = Returned tt
  /\ (joinAndAggregateStats 5 h1).1 = Returned tt
  /\ map (leaves_with device "d") [h0; h1; h2] = [1; 1; 1]
  /\ map (leaves_with xlaCluster "c") [h0; h1; h2] = [1; 1; 1]
  /\ map devices [h0; h1; h2] = [Some 1; Some 1; Some 1]
  /\ map clusters [h0; h1; h2] = [Some 1; Some 2; Some 3].
Proof.
  intros h0 h1 h2 devices clusters.
  repeat (split; [vm_compute; reflexivity|]). vm_compute. reflexivity.
Qed.

Lemma self_loop_not_attached :
  let h := example_build self_loop DefaultHierarchyParams in
  let e := data_edge "A" "A" in
  (build example_size example_seriesName example_number example_prefix
     10 self_loop DefaultHierarchyParams).1
  = Thrown (Error "No difference found between ancestor paths.")
  /\ obj_has (edge_v e) (slim_nodes self_loop) = true
  /\ obj_has (edge_w e) (slim_nodes self_loop) = true
  /\ ancestors 5 h (Some (edge_v e)) = Some ["A"; ROOT_NAME]
  /\ ancestors 5 h (Some (edge_w e)) = Some ["A"; ROOT_NAME]
  /\ forall fuel, ~ attached example_size fuel self_loop e (mkEdgeState h [] []).
Proof.
  intros h e.
  assert (Hout : forall fuel,
             (addEdge example_size fuel self_loop e (mkEdgeState h [] [])).1
             <> Returned tt).
  { intros [|[|[|fuel]]] H; vm_compute in H; discriminate H. }
  repeat (split; [vm_compute; reflexivity|]).
  clearbody h.
  intros fuel (s' & P & a & b & Hrun & _).
  apply (Hout fuel). by rewrite Hrun.
Qed.

Lemma addEdge_at_lowest_common_container_witness :
  let h := example_build two_scopes DefaultHierarchyParams in
  let s := mkEdgeState h [] [] in
  let e := data_edge "s/a" "t/d" in
  ancestors 5 h (Some "s/a") = Some (["s/a"] ++ "s" :: ROOT_NAME :: [])
  /\ ancestors 5 h (Some "t/d") = Some (["t/d"] ++ "t" :: ROOT_NAME :: [])
  /\ exists s1,
       addEdge example_size 5 two_scopes e s = (Returned tt, s1)
       /\ baseEdges_at (es_hierarchy s1) ROOT_NAME "s" "t"
          = baseEdges_at h ROOT_NAME "s" "t" ++ [e].
Proof.
  intros h s e.
  assert (Hsource : ancestors 5 h (Some "s/a")
                    = Some (["s/a"] ++ "s" :: ROOT_NAME :: []))
    by (vm_compute; reflexivity).
  assert (Hdest : ancestors 5 h (Some "t/d")
                  = Some (["t/d"] ++ "t" :: ROOT_NAME :: []))
    by (vm_compute; reflexivity).
  assert (HP : node h ROOT_NAME = Some (Group (group_at h ROOT_NAME)))
    by (vm_compute; reflexivity).
  assert (Hab : "s" <> "t") by discriminate.
  split; [exact Hsource|]. split; [exact Hdest|].
  subst s. clearbody h.
  destruct (addEdge_at_lowest_common_container example_size 5 two_scopes e
              (mkEdgeState h [] []) ROOT_NAME "s" "t" (group_at h ROOT_NAME)
              ["s/a"] ["t/d"] [] eq_refl eq_refl Hsource Hdest Hab HP)
    as (s1 & Hrun & Hlist & _).
  exists s1. split; [exact Hrun | exact Hlist].
Defined.

Lemma numeric_suffix_series_witness :
  let s := (build example_size example_seriesName example_number
              example_prefix 10 three_in_a_row flat_params).2 in
  let series13 :=
    series_of example_seriesName "" (example_number "Add") 1 3
      ["foo_1"; "foo_2"; "foo_3"] [1; 2; 3]%N in
  (leaf_of "foo_1" = "foo_1" /\ leaf_of "foo_2" = "foo_2"
   /\ leaf_of "foo_3" = "foo_3" /\ leaf_of "foo_4" = "foo_4")
  /\ (parent_of "foo_1" = "" /\ parent_of "foo_2" = ""
      /\ parent_of "foo_3" = "" /\ parent_of "foo_4" = "")
  /\ detectSeriesUsingNumericSuffixes example_seriesName example_number
       [("Add", ["foo_3"; "foo_1"; "foo_2"])] {| graph_nodes := []; graph_edges := [] |}
     = [series13]
  /\ exists s',
       groupSeries_series ROOT_NAME 3 series13 s = (Returned tt, s')
       /\ series13.1 ∈ children_of (ss_hierarchy s') ROOT_NAME
       /\ forall n, n ∈ ["foo_1"; "foo_2"; "foo_3"] ->
            parent_ref (ss_hierarchy s') n = Some series13.1.
Proof.
  intros s series13.
  destruct (numeric_suffix_series example_seriesName example_number
              "Add" "" "foo_1" "foo_2" "foo_3" "foo_4"
              {| graph_nodes := []; graph_edges := [] |}
              eq_refl eq_refl eq_refl eq_refl eq_refl eq_refl eq_refl eq_refl)
    as (Hdetect & _ & Hsplice & _).
  split; [repeat split|]. split; [repeat split|]. split.
  - apply Hdetect.
    change ["foo_3"; "foo_1"; "foo_2"] with (["foo_3"] ++ ["foo_1"; "foo_2"]).
    change ["foo_1"; "foo_2"; "foo_3"] with (["foo_1"; "foo_2"] ++ ["foo_3"]).
    apply Permutation_app_comm.
  - assert (Hroot : node (ss_hierarchy s) ROOT_NAME
                    = Some (Group (group_at (ss_hierarchy s) ROOT_NAME)))
      by (vm_compute; reflexivity).
    assert (Hmembers : forall n, n ∈ ["foo_1"; "foo_2"; "foo_3"] ->
               hasNode (metagraph (group_at (ss_hierarchy s) ROOT_NAME)) n = true
               /\ exists o, node (ss_hierarchy s) n = Some (Op o)).
    { intros n Hn.
      repeat (apply elem_of_cons in Hn as [->|Hn];
              [split; [vm_compute; reflexivity
                      |apply is_leaf_spec; vm_compute; reflexivity]|]).
      apply elem_of_nil in Hn. destruct Hn. }
    assert (Hfresh : series13.1 ∉ ["foo_1"; "foo_2"; "foo_3"]).
    { apply (bool_decide_unpack _). vm_compute. exact I. }
    assert (Hother : series13.1 <> ROOT_NAME).
    { apply (bool_decide_unpack _). vm_compute. exact I. }
    assert (Hmap : series_map s !! series13.1 <> Some UNGROUP).
    { apply (bool_decide_unpack _). vm_compute. exact I. }
    assert (Hthreshold : (3 <= 3)%Z) by lia.
    clearbody s.
    destruct (Hsplice ROOT_NAME 3%Z s _ Hthreshold Hroot Hmembers Hfresh
                Hother Hmap) as (s' & Hrun & _ & Hchild & _ & Hin).
    exists s'. split; [exact Hrun|]. split; [exact Hchild|].
    intros n Hn. apply (Hin n Hn).
Defined.

Lemma groupSeries_series_spec_witness :
  let s := (build example_size example_seriesName example_number
              example_prefix 10 three_in_a_row flat_params).2 in
  let series13 :=
    series_of example_seriesName "" (example_number "Add") 1 3
      ["foo_1"; "foo_2"; "foo_3"] [1; 2; 3]%N in
  nodes (metagraph series13.2) = ["foo_1"; "foo_2"; "foo_3"]
  /\ children_of (ss_hierarchy s) ROOT_NAME = ["foo_1"; "foo_2"; "foo_3"]
  /\ series_map s !! series13.1 = None
  /\ exists s',
       groupSeries_series ROOT_NAME 5 series13 s = (Returned tt, s')
       /\ series_map s' !! series13.1 = Some UNGROUP
       /\ children_of (ss_hierarchy s') ROOT_NAME
          = children_of (ss_hierarchy s) ROOT_NAME.
Proof.
  intros s series13.
  assert (Hnodes : nodes (metagraph series13.2) = ["foo_1"; "foo_2"; "foo_3"])
    by (vm_compute; reflexivity).
  assert (Hchildren : children_of (ss_hierarchy s) ROOT_NAME
                      = ["foo_1"; "foo_2"; "foo_3"])
    by (vm_compute; reflexivity).
  assert (Hnone : series_map s !! series13.1 = None)
    by (vm_compute; reflexivity).
  assert (Hname : name series13.2 = series13.1) by reflexivity.
  assert (Hroot : node (ss_hierarchy s) ROOT_NAME
                  = Some (Group (group_at (ss_hierarchy s) ROOT_NAME)))
    by (vm_compute; reflexivity).
  assert (Hmembers : forall n, n ∈ nodes (metagraph series13.2) ->
             hasNode (metagraph (group_at (ss_hierarchy s) ROOT_NAME)) n = true
             /\ exists o, node (ss_hierarchy s) n = Some (Op o)).
  { rewrite Hnodes. intros n Hn.
    repeat (apply elem_of_cons in Hn as [->|Hn];
            [split; [vm_compute; reflexivity
                    |apply is_leaf_spec; vm_compute; reflexivity]|]).
    apply elem_of_nil in Hn. destruct Hn. }
  assert (Hnodup : NoDup (nodes (metagraph series13.2))).
  { rewrite Hnodes. apply (bool_decide_unpack _). vm_compute. exact I. }
  assert (Hfresh : series13.1 ∉ nodes (metagraph series13.2)).
  { rewrite Hnodes. apply (bool_decide_unpack _). vm_compute. exact I. }
  assert (Hother : series13.1 <> ROOT_NAME).
  { apply (bool_decide_unpack _). vm_compute. exact I. }
  assert (Hlt : (Z.of_nat (length (nodes (metagraph series13.2))) < 5)%Z).
  { rewrite Hnodes. simpl. lia. }
  split; [exact Hnodes|]. split; [exact Hchildren|]. split; [exact Hnone|].
  clearbody s.
  destruct (groupSeries_series_spec ROOT_NAME 5 series13.1 series13.2
              (group_at (ss_hierarchy s) ROOT_NAME) s Hname Hroot Hmembers
              Hnodup Hfresh Hother)
    as (s' & Hrun & Hsmall & _ & Hungrouped & _).
  exists s'. split; [exact Hrun|].
  pose proof (Hsmall Hlt Hnone) as Hentry.
  split; [exact Hentry|].
  exact (proj1 (Hungrouped Hentry)).
Defined.

Lemma getChildName_finds_child_witness :
  let h := example_build two_scopes DefaultHierarchyParams in
  ancestors 5 h (Some "s/a") = Some (["s/a"] ++ "s" :: ROOT_NAME :: [])
  /\ (ROOT_NAME ∉ tail (["s/a"] ++ ["s"]))
  /\ getChildName 5 ROOT_NAME "s/a" h = (Returned "s", h).
Proof.
  intros h.
  assert (Hpath : ancestors 5 h (Some "s/a")
                  = Some (["s/a"] ++ "s" :: ROOT_NAME :: []))
    by (vm_compute; reflexivity).
  assert (Hfirst : ROOT_NAME ∉ tail (["s/a"] ++ ["s"])).
  { apply (bool_decide_unpack _). vm_compute. exact I. }
  split; [exact Hpath|]. split; [exact Hfirst|]. clearbody h.
  exact (getChildName_finds_child 5 h ROOT_NAME "s/a" "s" ["s/a"] []
           Hpath Hfirst).
Defined.

Lemma getChildName_throws_witness :
  let h := example_build two_scopes DefaultHierarchyParams in
  ancestors 5 h (Some "s/a") = Some ["s/a"; "s"; ROOT_NAME]
  /\ ("t" ∉ tail ["s/a"; "s"; ROOT_NAME])
  /\ getChildName 5 "t" "s/a" h
     = (Thrown (Error "Could not find immediate child for descendant: s/a"), h).
Proof.
  intros h.
  assert (Hpath : ancestors 5 h (Some "s/a") = Some ["s/a"; "s"; ROOT_NAME])
    by (vm_compute; reflexivity).
  assert (Hnone : "t" ∉ tail ["s/a"; "s"; ROOT_NAME]).
  { apply (bool_decide_unpack _). vm_compute. exact I. }
  split; [exact Hpath|]. split; [exact Hnone|]. clearbody h.
  exact (getChildName_throws 5 h "t" "s/a" _ Hpath Hnone).
Defined.

Lemma ordering_numbers_witness :
  let h := example_build diamond DefaultHierarchyParams in
  let h' := (getTopologicalOrdering 8 ROOT_NAME h).2 in
  let o := default ∅ (ordering_store h' !! 0) in
  node h ROOT_NAME = Some (Group (group_at h ROOT_NAME))
  /\ orderings h !! ROOT_NAME = None
  /\ getTopologicalOrdering 8 ROOT_NAME h = (Returned (Some 0), h')
  /\ ordering_store h' !! 0 = Some o
  /\ forall a b i, o !! a = Some i -> o !! b = Some i -> a = b.
Proof.
  intros h h' o.
  assert (Hcontainer : node h ROOT_NAME = Some (Group (group_at h ROOT_NAME)))
    by (vm_compute; reflexivity).
  assert (Hfirst : orderings h !! ROOT_NAME = None) by (vm_compute; reflexivity).
  assert (Hrun : getTopologicalOrdering 8 ROOT_NAME h = (Returned (Some 0), h'))
    by (vm_compute; reflexivity).
  assert (Hstore : ordering_store h' !! 0 = Some o) by (vm_compute; reflexivity).
  split; [exact Hcontainer|]. split; [exact Hfirst|]. split; [exact Hrun|].
  split; [exact Hstore|]. clearbody o. clearbody h'. clearbody h.
  exact (proj1 (ordering_numbers 8 h h' ROOT_NAME _ 0 o Hcontainer Hfirst Hrun
                  Hstore)).
Defined.

Lemma getIncompatibleOps_all_compatible_witness :
  let h := example_build diamond DefaultHierarchyParams in
  root_leaves 5 h = (Returned ["A"; "B"; "C"; "D"], h)
  /\ getIncompatibleOps 5 (Some DefaultHierarchyParams) h = (Returned [], h).
Proof.
  intros h.
  assert (Hleaves : root_leaves 5 h = (Returned ["A"; "B"; "C"; "D"], h))
    by (vm_compute; reflexivity).
  assert (Hall : forall n, n ∈ ["A"; "B"; "C"; "D"] ->
             exists x, node h n = Some x
                       /\ forall o, x = Op o -> all_compatible o).
  { intros n Hn.
    repeat (apply elem_of_cons in Hn as [->|Hn];
            [eexists; split; [vm_compute; reflexivity|];
             intros o [= <-]; repeat split; constructor|]).
    apply elem_of_nil in Hn. destruct Hn. }
  split; [exact Hleaves|]. clearbody h.
  exact (getIncompatibleOps_all_compatible 5 (Some DefaultHierarchyParams) h _
           Hleaves Hall).
Defined.

Lemma getIncompatibleOps_reports_witness :
  let h := example_build one_incompatible DefaultHierarchyParams in
  let result := [Op (set_op_parentNode (Some ROOT_NAME)
                       (default (plain_leaf "B" "Custom")
                          (obj_get (slim_nodes one_incompatible) "B")))] in
  root_leaves 5 h = (Returned ["A"; "B"], h)
  /\ getIncompatibleOps 5 None h = (Returned result, h)
  /\ forall x, x ∈ result -> reportable h None x.
Proof.
  intros h result.
  assert (Hleaves : root_leaves 5 h = (Returned ["A"; "B"], h))
    by (vm_compute; reflexivity).
  assert (Hrun : getIncompatibleOps 5 None h = (Returned result, h))
    by (vm_compute; reflexivity).
  split; [exact Hleaves|]. split; [exact Hrun|]. clearbody result. clearbody h.
  exact (proj1 (proj2 (getIncompatibleOps_reports 5 None h h _ result Hleaves
                         Hrun))).
Defined.

Lemma joinAndAggregateStats_keeps_witness :
  let h := example_build placed_leaf DefaultHierarchyParams in
  let h' := (joinAndAggregateStats 5 h).2 in
  joinAndAggregateStats 5 h = (Returned tt, h') /\ rollup_keeps h h'.
Proof.
  intros h h'.
  assert (Hrun : joinAndAggregateStats 5 h = (Returned tt, h'))
    by (vm_compute; reflexivity).
  split; [exact Hrun|]. clearbody h'. clearbody h.
  exact (joinAndAggregateStats_keeps 5 h h' _ Hrun).
Defined.

Lemma getBridgegraph_extends_witness :
  let h := example_build two_scopes DefaultHierarchyParams in
  let h' := (getBridgegraph example_size 5 "s" h).2 in
  getBridgegraph example_size 5 "s" h = (Returned (Some 0), h')
  /\ bridge_extends h h' /\ bridge_kept h h'.
Proof.
  intros h h'.
  assert (Hrun : getBridgegraph example_size 5 "s" h = (Returned (Some 0), h'))
    by (vm_compute; reflexivity).
  split; [exact Hrun|]. clearbody h'. clearbody h.
  exact (getBridgegraph_extends example_size 5 "s" h h' _ Hrun).
Defined.



Lemma addEdges_all_unresolved_witness :
  let h := example_build dangling DefaultHierarchyParams in
  (forall e, e ∈ slim_edges dangling ->
     obj_has (edge_v e) (slim_nodes dangling) = false
     \/ obj_has (edge_w e) (slim_nodes dangling) = false)
  /\ addEdges example_size 5 dangling h = (Returned tt, h).
Proof.
  intros h.
  assert (Hall : forall e, e ∈ slim_edges dangling ->
             obj_has (edge_v e) (slim_nodes dangling) = false
             \/ obj_has (edge_w e) (slim_nodes dangling) = false).
  { intros e He.
    apply elem_of_cons in He as [->|He]; [right; reflexivity|].
    apply elem_of_cons in He as [->|He]; [left; reflexivity|].
    apply elem_of_nil in He. destruct He. }
  assert (Hfuel : forall e n, e ∈ slim_edges dangling ->
             n = edge_v e \/ n = edge_w e ->
             obj_has n (slim_nodes dangling) = true ->
             is_Some (ancestors 5 h (Some n))).
  { assert (HA : is_Some (ancestors 5 h (Some "A"))).
    { exists ["A"; ROOT_NAME]. vm_compute. reflexivity. }
    intros e n He Hn Hhas.
    apply elem_of_cons in He as [->|He].
    { destruct Hn as [-> | ->]; [exact HA|discriminate Hhas]. }
    apply elem_of_cons in He as [->|He].
    { destruct Hn as [-> | ->]; [discriminate Hhas|exact HA]. }
    apply elem_of_nil in He. destruct He. }
  split; [exact Hall|]. clearbody h.
  exact (addEdges_all_unresolved example_size 5 dangling h Hall Hfuel).
Defined.

Lemma addNode_places_leaf_witness :
  let x := plain_leaf "s/a" "Const" in
  let h' := (addNode example_prefix two_scopes x new_Hierarchy).2 in
  addNode example_prefix two_scopes x new_Hierarchy = (Returned tt, h')
  /\ exists parent g,
       parent ∈ ROOT_NAME :: getHierarchicalPath (op_name x)
       /\ node h' (op_name x) = Some (Op (set_op_parentNode (Some parent) x))
       /\ node h' parent = Some (Group g)
       /\ hasNode (metagraph g) (op_name x) = true.
Proof.
  intros x h'.
  assert (Hrun : addNode example_prefix two_scopes x new_Hierarchy
                 = (Returned tt, h')) by (vm_compute; reflexivity).
  assert (Hembeddings : forall e, e ∈ inEmbeddings x ++ outEmbeddings x ->
             op_name e ∉ ROOT_NAME :: op_name x
                          :: getHierarchicalPath (op_name x)).
  { intros e He. apply elem_of_nil in He. destruct He. }
  split; [exact Hrun|]. clearbody h'.
  exact (addNode_places_leaf example_prefix two_scopes x new_Hierarchy h' Hrun
           Hembeddings).
Defined.

Lemma getBridgegraph_edges_witness :
  let h := example_build two_scopes DefaultHierarchyParams in
  let h' := (getBridgegraph example_size 5 "s" h).2 in
  node h "s" = Some (Group (group_at h "s"))
  /\ bridgegraph (group_at h "s") = None
  /\ getBridgegraph example_size 5 "s" h = (Returned (Some 0), h')
  /\ exists bg,
       graph_store h' !! 0 = Some bg
       /\ Forall (bridge_edge h' "s") (graph_edges bg).
Proof.
  intros h h'.
  assert (Hcontainer : node h "s" = Some (Group (group_at h "s")))
    by (vm_compute; reflexivity).
  assert (Hfirst : bridgegraph (group_at h "s") = None)
    by (vm_compute; reflexivity).
  assert (Hrun : getBridgegraph example_size 5 "s" h = (Returned (Some 0), h'))
    by (vm_compute; reflexivity).
  split; [exact Hcontainer|]. split; [exact Hfirst|]. split; [exact Hrun|].
  clearbody h'. clearbody h.
  exact (getBridgegraph_edges example_size 5 "s" h h' _ 0 Hcontainer Hfirst Hrun).
Defined.

Lemma isolated_clusters_make_no_series_witness :
  let clusters : JsObject (list string) := [("Add", ["x_1"]); ("Neg", [])] in
  (forall c, c ∈ obj_entries clusters -> length c.2 <= 1)
  /\ detectSeriesUsingNumericSuffixes example_seriesName example_number
       clusters createGraph = []
  /\ detectSeriesAnywhereInNodeName example_seriesName example_number
       clusters createGraph = [].
Proof.
  intros clusters.
  assert (Hisolated : forall c, c ∈ obj_entries clusters -> length c.2 <= 1).
  { intros c Hc. vm_compute in Hc.
    apply elem_of_cons in Hc as [->|Hc]; [simpl; lia|].
    apply elem_of_cons in Hc as [->|Hc]; [simpl; lia|].
    apply elem_of_nil in Hc. destruct Hc. }
  split; [exact Hisolated|].
  exact (isolated_clusters_make_no_series example_seriesName example_number
           clusters createGraph Hisolated).
Defined.

Lemma joinAndAggregateStats_names_witness :
  let h := example_build placed_leaf DefaultHierarchyParams in
  let h' := (joinAndAggregateStats 5 h).2 in
  root_leaves 5 h = (Returned ["A"], h)
  /\ joinAndAggregateStats 5 h = (Returned tt, h')
  /\ exists ds cs,
       devices h' = Some ds /\ xlaClusters h' = Some cs
       /\ NoDup ds /\ NoDup cs
       /\ (forall d, d ∈ ds <-> exists n x, n ∈ ["A"] /\ node h n = Some x
                                            /\ node_device x = Some d)
       /\ (forall c, c ∈ cs <-> exists n x, n ∈ ["A"] /\ node h n = Some x
                                            /\ node_xlaCluster x = Some c).
Proof.
  intros h h'.
  assert (Hleaves : root_leaves 5 h = (Returned ["A"], h))
    by (vm_compute; reflexivity).
  assert (Hrun : joinAndAggregateStats 5 h = (Returned tt, h'))
    by (vm_compute; reflexivity).
  split; [exact Hleaves|]. split; [exact Hrun|]. clearbody h'. clearbody h.
  exact (joinAndAggregateStats_names 5 h h' ["A"] Hleaves Hrun).
Defined.
